(** * qoscloud: a shallow embedding of the adaptation core

    The development follows the Python sources module by module:

    - [Assessment]  : cloud_controller/assessment/model.py (AppDatabase)
    - [KnowledgeModel] : the part of the knowledge model the tasks and the
                      analyzer touch (objects live in a store, as in Python)
    - [Tasks]       : cloud_controller/tasks/middleware.py (FinalizeInstanceTask)
    - [Analysis]    : cloud_controller/analysis/analyzer.py (Analyzer)
    - [Aggregator]  : cloud_controller/aggregator/performance_data_aggregator.py

    Python dictionaries whose iteration order is observable are association
    lists in insertion order; dictionaries used only through lookups are
    [gmap]s.  Python exceptions are the [Raise] results of a small error
    monad. *)

From Stdlib Require Import ZArith QArith Ascii String List Bool Lia.
From stdpp Require Import base option list strings gmap fin_maps pretty.

Local Open Scope string_scope.
Local Open Scope list_scope.
Local Open Scope Z_scope.

Set Default Proof Using "Type".

(** ** Python exceptions and the error monad *)

Inductive exn : Type :=
| AssertionError
| KeyError (key : string)
| IndexError
| AttributeError (attribute : string)
| UnboundLocalError (variable : string).

Inductive result (A : Type) : Type :=
| Ok (a : A)
| Raise (e : exn).
Arguments Ok {A} a.
Arguments Raise {A} e.

#[global] Instance result_ret : MRet result := fun _ a => Ok a.
#[global] Instance result_bind : MBind result := fun _ _ k m =>
  match m with
  | Ok a => k a
  | Raise e => Raise e
  end.

#[global] Instance result_fmap : FMap result := fun _ _ f m =>
  match m with
  | Ok a => Ok (f a)
  | Raise e => Raise e
  end.

(** [assert c] *)
Definition py_assert (c : bool) : result unit :=
  if c then Ok tt else Raise AssertionError.

(** A loop whose body may raise: the results of the iterations in order,
    or the first exception. *)
Fixpoint result_mapM {A B : Type} (f : A → result B) (l : list A) : result (list B) :=
  match l with
  | [] => Ok []
  | x :: l' =>
      match f x with
      | Raise e => Raise e
      | Ok y =>
          match result_mapM f l' with
          | Raise e => Raise e
          | Ok ys => Ok (y :: ys)
          end
      end
  end.

(** ** Insertion-ordered dictionaries *)

Section OrderedDict.
Context {V : Type}.

Fixpoint dict_get (k : string) (d : list (string * V)) : option V :=
  match d with
  | [] => None
  | (k', v) :: d' => if String.eqb k k' then Some v else dict_get k d'
  end.

(** [d[k] = v]: an existing key keeps its position. *)
Fixpoint dict_set (k : string) (v : V) (d : list (string * V)) : list (string * V) :=
  match d with
  | [] => [(k, v)]
  | (k', v') :: d' =>
      if String.eqb k k' then (k, v) :: d' else (k', v') :: dict_set k v d'
  end.

Definition dict_keys (d : list (string * V)) : list string := map fst d.
Definition dict_values (d : list (string * V)) : list V := map snd d.
(** [del d[k]]: the entry of [k] goes, the others keep their order. *)
Definition dict_del (k : string) (d : list (string * V)) : list (string * V) :=
  List.filter (fun kv => negb (String.eqb k (fst kv))) d.

End OrderedDict.

(** * knowledge/model.py, as far as the other modules use it *)

Module KnowledgeModel.

(** Modelled from the spec: knowledge/model.py is not among the sources.
    The records below carry the attributes that the aggregator, the
    analyzer and the tasks read or write ([probe.alias],
    [probe.component.id], [probe.requirements], [component.probes],
    [app.is_complete], [compin.phase], ...); a requirement is either a
    TimeContract (time limit, percentile) or a ThroughputContract (mean
    request time). *)
Inductive Requirement : Type :=
| TimeContract (time percentile : Z)
| ThroughputContract (mean_request_time : Z).

Record Probe : Type :=
  { probe_alias : string;
    probe_component_id : string;          (* [probe.component.id] *)
    probe_requirements : list Requirement }.

Record Component : Type :=
  { comp_application_name : string;       (* [component.application.name] *)
    comp_name : string;
    comp_id : string;
    comp_probes : list Probe }.

Record Application : Type :=
  { app_name : string;
    app_components : list (string * Component);
    app_is_complete : bool }.

(** Modelled from the spec: [CompinPhase] is an integer enumeration whose
    members are compared with [<]; the order is the one of the lifecycle
    CREATING, INIT, READY, FINALIZING, FINISHED, with FAILED last. *)
Inductive CompinPhase : Type :=
| CREATING | INIT | READY | FINALIZING | FINISHED | FAILED.

Definition CompinPhase_value (p : CompinPhase) : Z :=
  match p with
  | CREATING => 1 | INIT => 2 | READY => 3
  | FINALIZING => 4 | FINISHED => 5 | FAILED => 6
  end.

(** Component instances are objects: a [CloudState] and the dependency
    lists of other instances hold references to them.  [loc] is the
    identity of an object and [store] the objects that are alive. *)
Definition loc : Type := nat.

Record Compin : Type :=
  { compin_id : string;
    compin_managed : bool;                (* ManagedCompin / UnmanagedCompin *)
    compin_phase : CompinPhase;
    compin_force_keep : bool;
    compin_dependencies : list loc }.     (* [list_dependencies()] *)

Abbreviation store := (gmap loc Compin).

(** [CloudState]: application name, component name, instance id. *)
Abbreviation CloudState := (gmap (string * string * string) loc).

(** [CloudState()] *)
Definition CloudState_init : CloudState := ∅.

(** [CloudState.get_compin]: [None] when there is no such instance. *)
Definition get_compin (cs : CloudState) (app component instance : string)
  : option loc :=
  cs !! (app, component, instance).

Definition set_phase (p : CompinPhase) (c : Compin) : Compin :=
  {| compin_id := compin_id c; compin_managed := compin_managed c;
     compin_phase := p; compin_force_keep := compin_force_keep c;
     compin_dependencies := compin_dependencies c |}.

(** [ManagedCompin.set_force_keep] *)
Definition set_force_keep (c : Compin) : Compin :=
  {| compin_id := compin_id c; compin_managed := compin_managed c;
     compin_phase := compin_phase c; compin_force_keep := true;
     compin_dependencies := compin_dependencies c |}.

Record Knowledge : Type :=
  { actual_state : CloudState;
    objects : store }.

End KnowledgeModel.

(** * assessment/model.py *)

Module Assessment.

(** [AppStatus(IntEnum)] *)
Inductive AppStatus : Type := RECEIVED | REJECTED | ACCEPTED | PUBLISHED.

#[global] Instance AppStatus_eq_dec : EqDecision AppStatus.
Proof. solve_decision. Defined.

Definition AppStatus_value (s : AppStatus) : Z :=
  match s with RECEIVED => 1 | REJECTED => 2 | ACCEPTED => 3 | PUBLISHED => 4 end.

Definition AppStatus_eqb (a b : AppStatus) : bool :=
  Z.eqb (AppStatus_value a) (AppStatus_value b).

(** The protobuf architecture, as far as [AppDatabase] looks into it. *)
Record ProbePb : Type := { probe_name : string; alias : string }.
Record ComponentPb : Type := { probes : list ProbePb }.
Record Architecture : Type :=
  { arch_name : string; components : list (string * ComponentPb) }.

Record AppEntry : Type :=
  { architecture : option Architecture;   (* [None] once published *)
    name : string;
    status : AppStatus }.

(** [AppEntry.__init__] *)
Definition AppEntry_init (a : Architecture) : AppEntry :=
  {| architecture := Some a; name := arch_name a; status := RECEIVED |}.

Record AppDatabase : Type :=
  { _apps : list (string * AppEntry);
    _app_removal_cache : list string;
    probes_by_alias : gmap string (option KnowledgeModel.Probe) }.

(** [AppDatabase.__init__] *)
Definition AppDatabase_init : AppDatabase :=
  {| _apps := []; _app_removal_cache := []; probes_by_alias := ∅ |}.

(** The body of the [for app in self._apps.values()] loop of
    [publish_new_architectures]: the entry after the iteration and what
    the iteration appended to [architectures]. *)
Definition publish_entry (app : AppEntry) : AppEntry * list (option Architecture) :=
  if AppStatus_eqb (status app) ACCEPTED then
    ({| architecture := None; name := name app; status := PUBLISHED |},
     [architecture app])
  else (app, []).

Fixpoint publish_loop (apps : list (string * AppEntry))
    (architectures : list (option Architecture))
  : list (string * AppEntry) * list (option Architecture) :=
  match apps with
  | [] => ([], architectures)
  | (k, app) :: rest =>
      let '(app', new) := publish_entry app in
      let '(rest', out) := publish_loop rest (architectures ++ new) in
      ((k, app') :: rest', out)
  end.

(** [AppDatabase.publish_new_architectures]: the returned list and the
    database after the call. *)
Definition publish_new_architectures (db : AppDatabase)
  : list (option Architecture) * AppDatabase :=
  let '(apps', architectures) := publish_loop (_apps db) [] in
  (architectures,
   {| _apps := apps';
      _app_removal_cache := _app_removal_cache db;
      probes_by_alias := probes_by_alias db |}).

(** [update_app_status] *)
Fixpoint set_status (app_name : string) (s : AppStatus)
    (apps : list (string * AppEntry)) : option (list (string * AppEntry)) :=
  match apps with
  | [] => None
  | (k, e) :: rest =>
      if String.eqb app_name k then
        Some ((k, {| architecture := architecture e; name := name e; status := s |}) :: rest)
      else option_map (cons (k, e)) (set_status app_name s rest)
  end.

Definition update_app_status (app_name : string) (s : AppStatus) (db : AppDatabase)
  : result AppDatabase :=
  match set_status app_name s (_apps db) with
  | None => Raise (KeyError app_name)
  | Some apps' =>
      Ok {| _apps := apps';
            _app_removal_cache := _app_removal_cache db;
            probes_by_alias := probes_by_alias db |}
  end.

(** *** Alias generation

    [random.choice] reads the next draw of the generator; the generator is
    the sequence of its draws together with a cursor. *)
Record Random : Type := { draws : nat → nat; cursor : nat }.

Definition ascii_uppercase : list ascii :=
  list_ascii_of_string "ABCDEFGHIJKLMNOPQRSTUVWXYZ".

Definition random_choice (seq : list ascii) (r : Random) : ascii * Random :=
  (nth (draws r (cursor r) mod length seq)%nat seq "000"%char,
   {| draws := draws r; cursor := S (cursor r) |}).

(** [''.join(random.choice(string.ascii_uppercase) for _ in range(n))] *)
Fixpoint random_letters (n : nat) (r : Random) : string * Random :=
  match n with
  | O => (EmptyString, r)
  | S n' =>
      let '(c, r1) := random_choice ascii_uppercase r in
      let '(s, r2) := random_letters n' r1 in
      (String c s, r2)
  end.

(** [id_ in self.probes_by_alias] *)
Definition alias_taken (id_ : string)
    (m : gmap string (option KnowledgeModel.Probe)) : bool :=
  match m !! id_ with Some _ => true | None => false end.

(** The [while id_ in self.probes_by_alias] loop; [fuel] bounds the number
    of iterations and [None] stands for a loop that has not finished
    within it. *)
Fixpoint alias_loop (fuel : nat) (id_ : string) (r : Random)
    (m : gmap string (option KnowledgeModel.Probe)) : option (string * Random) :=
  if alias_taken id_ m then
    match fuel with
    | O => None
    | S fuel' =>
        let '(id', r') := random_letters 4 r in
        alias_loop fuel' id' r' m
    end
  else Some (id_, r).

(** [AppDatabase._generate_alias] *)
Definition _generate_alias (fuel : nat) (r : Random) (db : AppDatabase)
  : option (string * Random * AppDatabase) :=
  let '(id_, r1) := random_letters 4 r in
  match alias_loop fuel id_ r1 (probes_by_alias db) with
  | None => None
  | Some (id_, r2) =>
      Some (id_, r2,
            {| _apps := _apps db;
               _app_removal_cache := _app_removal_cache db;
               probes_by_alias := <[id_ := None]> (probes_by_alias db) |})
  end.

(** [n] calls of [_generate_alias] in a row, as [add_app] makes them for
    the probes of an architecture; the aliases in the order returned. *)
Fixpoint generate_aliases (fuel n : nat) (r : Random) (db : AppDatabase)
  : option (list string * Random * AppDatabase) :=
  match n with
  | O => Some ([], r, db)
  | S n' =>
      match _generate_alias fuel r db with
      | None => None
      | Some (a, r1, db1) =>
          match generate_aliases fuel n' r1 db1 with
          | None => None
          | Some (l, r2, db2) => Some (a :: l, r2, db2)
          end
      end
  end.

(** The loops of [add_app] over the probes of one component and over the
    components: every probe must come without an alias and gets a fresh
    one. *)
Fixpoint add_app_probes (fuel : nat) (ps : list ProbePb) (r : Random)
    (db : AppDatabase) : option (result (list ProbePb * Random * AppDatabase)) :=
  match ps with
  | [] => Some (Ok ([], r, db))
  | p :: rest =>
      if String.eqb (alias p) "" then
        match _generate_alias fuel r db with
        | None => None
        | Some (a, r1, db1) =>
            match add_app_probes fuel rest r1 db1 with
            | Some (Ok (rest', r2, db2)) =>
                Some (Ok ({| probe_name := probe_name p; alias := a |} :: rest', r2, db2))
            | other => other
            end
        end
      else Some (Raise AssertionError)
  end.

Fixpoint add_app_components (fuel : nat) (cs : list (string * ComponentPb))
    (r : Random) (db : AppDatabase)
  : option (result (list (string * ComponentPb) * Random * AppDatabase)) :=
  match cs with
  | [] => Some (Ok ([], r, db))
  | (k, c) :: rest =>
      match add_app_probes fuel (probes c) r db with
      | None => None
      | Some (Raise e) => Some (Raise e)
      | Some (Ok (ps', r1, db1)) =>
          match add_app_components fuel rest r1 db1 with
          | Some (Ok (rest', r2, db2)) =>
              Some (Ok ((k, {| probes := ps' |}) :: rest', r2, db2))
          | other => other
          end
      end
  end.

(** [AppDatabase.add_app] *)
Definition add_app (fuel : nat) (a : Architecture) (r : Random) (db : AppDatabase)
  : option (result (Random * AppDatabase)) :=
  match add_app_components fuel (components a) r db with
  | None => None
  | Some (Raise e) => Some (Raise e)
  | Some (Ok (cs', r1, db1)) =>
      let a' := {| arch_name := arch_name a; components := cs' |} in
      Some (Ok (r1,
                {| _apps := dict_set (arch_name a') (AppEntry_init a') (_apps db1);
                   _app_removal_cache := _app_removal_cache db1;
                   probes_by_alias := probes_by_alias db1 |}))
  end.

(** What the properties below say about an alias. *)
Definition is_uppercase (c : ascii) : bool :=
  (65 <=? nat_of_ascii c)%nat && (nat_of_ascii c <=? 90)%nat.

Definition is_alias (s : string) : bool :=
  (String.length s =? 4)%nat && forallb is_uppercase (list_ascii_of_string s).

(** The generator after [n] more draws, and the [k]-th candidate that
    [_generate_alias] forms when it starts from generator [r]. *)
Definition skip (n : nat) (r : Random) : Random :=
  {| draws := draws r; cursor := (cursor r + n)%nat |}.

Definition candidate (r : Random) (k : nat) : string :=
  fst (random_letters 4 (skip (4 * k) r)).

(** A generator that draws 0, 1, 2, ... and a database in which the alias
    ABCD is taken: the first candidate collides and the loop runs once. *)
Definition counting_random : Random := {| draws := fun n => n; cursor := 0 |}.

Definition db_with_ABCD : AppDatabase :=
  {| _apps := []; _app_removal_cache := [];
     probes_by_alias := {[ "ABCD" := None ]} |}.

(** [accepted e]: the test of the loop of [publish_new_architectures]. *)
Definition accepted (e : AppEntry) : bool := AppStatus_eqb (status e) ACCEPTED.

Definition published (e : AppEntry) : AppEntry :=
  {| architecture := None; name := name e; status := PUBLISHED |}.

(** ** The other methods of AppDatabase *)

(** [AppDatabase.__contains__] *)
Definition contains (item : string) (db : AppDatabase) : bool :=
  match dict_get item (_apps db) with
  | Some _ => true
  | None => false
  end.

(** [AppDatabase.__getitem__] *)
Definition getitem (app_name : string) (db : AppDatabase) : result AppEntry :=
  match dict_get app_name (_apps db) with
  | Some e => Ok e
  | None => Raise (KeyError app_name)
  end.

(** [AppDatabase.remove_app]: reading the status of a missing application
    raises before anything is changed. *)
Definition remove_app (app_name : string) (db : AppDatabase) : result AppDatabase :=
  match dict_get app_name (_apps db) with
  | None => Raise (KeyError app_name)
  | Some e =>
      Ok {| _apps := dict_del app_name (_apps db);
            _app_removal_cache :=
              if AppStatus_eqb (status e) PUBLISHED
              then _app_removal_cache db ++ [app_name]
              else _app_removal_cache db;
            probes_by_alias := probes_by_alias db |}
  end.

(** [AppDatabase.publish_new_removals]: the returned list and the database
    after the call. *)
Definition publish_new_removals (db : AppDatabase) : list string * AppDatabase :=
  let tmp := _app_removal_cache db in
  (tmp,
   {| _apps := _apps db;
      _app_removal_cache := [];
      probes_by_alias := probes_by_alias db |}).

(** [AppDatabase.get_app_status] *)
Definition get_app_status (app_name : string) (db : AppDatabase) : option AppStatus :=
  match dict_get app_name (_apps db) with
  | Some e => Some (status e)
  | None => None
  end.

(** [remove_app] called for each name of a list, in order. *)
Fixpoint remove_apps (names : list string) (db : AppDatabase) : result AppDatabase :=
  match names with
  | [] => Ok db
  | n :: rest => db' ← remove_app n db; remove_apps rest db'
  end.

(** The aliases that the probes of an architecture carry, component by
    component. *)
Definition arch_aliases (a : Architecture) : list string :=
  concat (map (fun kc => map alias (probes (snd kc))) (components a)).

(** The names of the probes of an architecture, per component. *)
Definition arch_shape (a : Architecture) : list (string * list string) :=
  map (fun kc => (fst kc, map probe_name (probes (snd kc)))) (components a).

(** An entry without architecture is a published one. *)
Definition published_only (db : AppDatabase) : Prop :=
  ∀ k e, (k, e) ∈ _apps db → architecture e = None → status e = PUBLISHED.

(** A database with a published application [a] and a received one [b]. *)
Definition arch_b : Architecture :=
  {| arch_name := "b";
     components := [("c", {| probes := [ {| probe_name := "p"; alias := "" |};
                                         {| probe_name := "q"; alias := "" |} ] |})] |}.

Definition db_a_b : AppDatabase :=
  {| _apps := [("a", {| architecture := None; name := "a"; status := PUBLISHED |});
               ("b", AppEntry_init arch_b)];
     _app_removal_cache := [];
     probes_by_alias := ∅ |}.

(** An entry with another status. *)
Definition with_status (s : AppStatus) (e : AppEntry) : AppEntry :=
  {| architecture := architecture e; name := name e; status := s |}.

End Assessment.

(** * tasks/middleware.py *)

Module Tasks.
Import KnowledgeModel.

(** [FinalizeInstanceTask]: the fields set by [__init__]. *)
Record FinalizeInstanceTask : Type :=
  { _component : Component;
    _instance_id : string }.

(** [FinalizeInstanceTask.update_model].  The instance is looked up under
    [self._component.id]; reading [.phase] of [None] raises. *)
Definition update_model (t : FinalizeInstanceTask) (knowledge : Knowledge)
  : result Knowledge :=
  match get_compin (actual_state knowledge)
          (comp_application_name (_component t))
          (comp_name (_component t))
          (comp_id (_component t)) with
  | None => Raise (AttributeError "phase")
  | Some l =>
      match objects knowledge !! l with
      | None => Raise (AttributeError "phase")
      | Some compin =>
          if CompinPhase_value (compin_phase compin) <? CompinPhase_value FINALIZING
          then Ok {| actual_state := actual_state knowledge;
                     objects := <[l := set_phase FINALIZING compin]> (objects knowledge) |}
          else Ok knowledge
      end
  end.




(** [InitializeInstanceTask.update_model] and [CreateServiceTask.update_model]
    look their instance up under the instance id of the task; this is the
    lookup they make. *)
Definition lookup_by_instance_id (app component instance : string)
    (knowledge : Knowledge) : option Compin :=
  l ← get_compin (actual_state knowledge) app component instance;
  objects knowledge !! l.

(** The phase of an instance of the actual state, if it exists. *)
Definition phase_of (knowledge : Knowledge) (app component instance : string)
  : option CompinPhase :=
  compin_phase <$> lookup_by_instance_id app component instance knowledge.

(** An actual state with one READY instance, and the task that finalizes it. *)
Definition ready_compin (id : string) : Compin :=
  {| compin_id := id; compin_managed := true; compin_phase := READY;
     compin_force_keep := false; compin_dependencies := [] |}.

Definition one_instance : Knowledge :=
  {| actual_state := {[ ("app", "comp", "inst-1") := 0%nat ]};
     objects := {[ 0%nat := ready_compin "inst-1" ]} |}.

Definition comp : Component :=
  {| comp_application_name := "app"; comp_name := "comp";
     comp_id := "app_comp"; comp_probes := [] |}.

Definition finalize_inst_1 : FinalizeInstanceTask :=
  {| _component := comp; _instance_id := "inst-1" |}.

(** The same with a second instance that happens to be filed under the id
    of the component. *)
Definition two_instances : Knowledge :=
  {| actual_state := {[ ("app", "comp", "inst-1") := 0%nat;
                        ("app", "comp", "app_comp") := 1%nat ]};
     objects := {[ 0%nat := ready_compin "inst-1";
                   1%nat := ready_compin "app_comp" ]} |}.

End Tasks.

(** * analysis/analyzer.py *)

Module Analysis.
Import KnowledgeModel.

(** The analyzer.  [_pool] counts the searches handed to the thread pool
    with [apply_async]; [_longterm_result_future] is [None] or the future of
    the search that is running, named by its number in the pool. *)
Record Analyzer : Type :=
  { _last_desired_state : CloudState;
    _longterm_result_future : option nat;
    _pool : nat }.

(** [Analyzer.__init__] *)
Definition Analyzer_init : Analyzer :=
  {| _last_desired_state := CloudState_init;
     _longterm_result_future := None;
     _pool := 0 |}.

(** What one call of [find_new_assignment] observes of its collaborators:
    the result of [solver.find_assignment()], of [ready()] and [get()] of
    the running future, and [knowledge.list_new_clients()] (application
    name, component name and id of each new client). *)
Record Cycle : Type :=
  { solver_result : option CloudState;
    future_ready : bool;
    future_get : option CloudState;
    new_clients : list (string * string * string) }.

(** [for dependency in compin.list_dependencies(): dependency.set_force_keep()] *)
Definition mark_dependencies (deps : list loc) (h : store) : store :=
  foldl (fun h d => alter set_force_keep d h) h deps.

(** One iteration of the loop of [_mark_force_keep_compins]. *)
Definition mark_client (desired_state : CloudState) (h : store)
    (client : string * string * string) : store :=
  let '(app, component, id) := client in
  match get_compin desired_state app component id with
  | None => h
  | Some l =>
      match h !! l with
      | None => h
      | Some compin => mark_dependencies (compin_dependencies compin) h
      end
  end.

(** [Analyzer._mark_force_keep_compins] *)
Definition _mark_force_keep_compins (clients : list (string * string * string))
    (desired_state : CloudState) (h : store) : store :=
  foldl (mark_client desired_state) h clients.

(** The first [if desired_state is None] block of [find_new_assignment]:
    the desired state and the analyzer after it. *)
Definition longterm_fallback (c : Cycle) (a : Analyzer)
  : option CloudState * Analyzer :=
  match _longterm_result_future a with
  | Some f =>
      if future_ready c then
        (future_get c,
         {| _last_desired_state := _last_desired_state a;
            _longterm_result_future := None;
            _pool := _pool a |})
      else (None, a)
  | None =>
      (None,
       {| _last_desired_state := _last_desired_state a;
          _longterm_result_future := Some (_pool a);
          _pool := S (_pool a) |})
  end.

(** [Analyzer.find_new_assignment]: the returned state, the analyzer and
    the knowledge after the call. *)
Definition find_new_assignment (c : Cycle) (a : Analyzer) (knowledge : Knowledge)
  : CloudState * Analyzer * Knowledge :=
  let '(desired_state, a1) :=
    match solver_result c with
    | None => longterm_fallback c a
    | Some d => (Some d, a)
    end in
  let desired_state :=
    match desired_state with
    | None => _last_desired_state a1
    | Some d => d
    end in
  let h := _mark_force_keep_compins (new_clients c) desired_state (objects knowledge) in
  (desired_state,
   {| _last_desired_state := desired_state;
      _longterm_result_future := _longterm_result_future a1;
      _pool := _pool a1 |},
   {| actual_state := actual_state knowledge; objects := h |}).

(** [marks h h']: store [h'] is [h] with some objects marked force_keep. *)
Definition marks (h h' : store) : Prop :=
  ∀ l, h' !! l = h !! l ∨ h' !! l = set_force_keep <$> (h !! l).

(** A cycle in which the solver finds nothing and nobody is new. *)
Definition no_solution : Cycle :=
  {| solver_result := None; future_ready := false; future_get := None;
     new_clients := [] |}.

(** A client [cl] bound to the managed instance [srv]; the client is new
    and the solver returns the state that holds both. *)
Definition client_server_state : CloudState :=
  {[ ("app", "client", "cl") := 0%nat; ("app", "server", "srv") := 1%nat ]}.

Definition client_server_store : store :=
  {[ 0%nat := {| compin_id := "cl"; compin_managed := false;
                 compin_phase := READY; compin_force_keep := false;
                 compin_dependencies := [1%nat] |};
     1%nat := {| compin_id := "srv"; compin_managed := true;
                 compin_phase := READY; compin_force_keep := false;
                 compin_dependencies := [] |} ]}.

Definition client_server : Knowledge :=
  {| actual_state := client_server_state; objects := client_server_store |}.

Definition new_client_cycle : Cycle :=
  {| solver_result := Some client_server_state; future_ready := false;
     future_get := None; new_clients := [("app", "client", "cl")] |}.

(** ** Successive cycles *)

(** [AdaptationController.analysis], cycle after cycle: each call of
    [find_new_assignment] finds the analyzer as the previous call left it
    and the knowledge as the other phases of the loop left it.  The desired
    states in the order returned, and the analyzer after the last call. *)
Fixpoint analyses (cycles : list (Cycle * Knowledge)) (a : Analyzer)
  : list CloudState * Analyzer :=
  match cycles with
  | [] => ([], a)
  | (c, knowledge) :: rest =>
      let '(desired_state, a1, _) := find_new_assignment c a knowledge in
      let '(states, a2) := analyses rest a1 in
      (desired_state :: states, a2)
  end.

(** The cycles in which the solver found no desired state. *)
Definition failed (cycles : list (Cycle * Knowledge)) : list (Cycle * Knowledge) :=
  List.filter (fun ck => bool_decide (solver_result ck.1 = None)) cycles.

(** A cycle in which the solver finds nothing and the long-term search has
    come back with state [d]. *)
Definition longterm_done (d : CloudState) : Cycle :=
  {| solver_result := None; future_ready := true; future_get := Some d;
     new_clients := [] |}.

(** A search is pending exactly when it is the last one handed to the pool. *)
Definition latest_pending (a : Analyzer) : Prop :=
  match _longterm_result_future a with
  | Some f => S f = _pool a
  | None => True
  end.

End Analysis.

(** * aggregator/performance_data_aggregator.py *)

Module Aggregator.
Import KnowledgeModel.

(** The constants that the module imports from the package. *)
Record Settings : Type :=
  { DEFAULT_HARDWARE_ID : string;
    STATISTICAL_PREDICTION_ENABLED : bool }.

(** [MeasurementAggregator] and [MultiPredictor] are not among the sources;
    an object of either class is the record of the methods that the
    aggregator calls on it.  [predict_throughput] is below. *)
Record MeasurementAggregator : Type :=
  { compose_measurement_name : string → list string → string;
    has_measurement : string → bool;
    predict_time : string → Z → Z → bool;       (* probe_name, time_limit, percentile *)
    mean_running_time : string → Q }.

Record MultiPredictor : Type :=
  { mp_predict_time : string → list string → Z → Z → bool;
                                                 (* hw_id, combination, time_limit, percentile *)
    mp_mean_request_time : string → list string → Q }.

(** Modelled from the spec: [MeasurementAggregator.predict_throughput] is
    missing; the spec has it compare the measured mean against the bound and
    return [mean <= mean_request_time]. *)
Definition predict_throughput (m : MeasurementAggregator)
    (probe_name : string) (max_mean_time : Z) : bool :=
  Qle_bool (mean_running_time m probe_name) (inject_Z max_mean_time).

(** Modelled from the spec: [MultiPredictor.predict_throughput] is missing;
    the spec has it compare the predicted mean against the bound and return
    [mean <= mean_request_time]. *)
Definition mp_predict_throughput (p : MultiPredictor)
    (hw_id : string) (combination : list string) (max_value : Z) : bool :=
  Qle_bool (mp_mean_request_time p hw_id combination) (inject_Z max_value).

(** The aggregator.  A set of probe ids is the list of its members in
    iteration order; the scenario generator is the list of the
    [increase_count] calls it has received (hw_id, probe id, size). *)
Record PerformanceDataAggregator : Type :=
  { _single_process_predictor : MeasurementAggregator;
    _predictor : MultiPredictor;
    applications : gmap string Application;
    _probes_by_component : gmap string (list string);
    _probes_by_id : gmap string Probe;
    _scenario_generator : list (string * string * nat) }.

(** [self._scenario_generator.increase_count(hw_id, probe, size)] *)
Definition increase_count (hw_id probe : string) (size : nat)
    (self : PerformanceDataAggregator) : PerformanceDataAggregator :=
  {| _single_process_predictor := _single_process_predictor self;
     _predictor := _predictor self;
     applications := applications self;
     _probes_by_component := _probes_by_component self;
     _probes_by_id := _probes_by_id self;
     _scenario_generator := _scenario_generator self ++ [(hw_id, probe, size)] |}.

(** The protobuf [Assignment]. *)
Record ComponentPb : Type := { component_id : string; count : Z }.
Record Assignment : Type := { hw_id : string; components : list ComponentPb }.

(** The loop of [assignment_from_pb]. *)
Fixpoint assignment_from_pb_loop (self : PerformanceDataAggregator)
    (cs : list ComponentPb) (assignment : list (string * Z))
  : result (list (string * Z)) :=
  match cs with
  | [] => Ok assignment
  | component_pb :: rest =>
      match _probes_by_component self !! component_id component_pb with
      | None => Raise AssertionError
      | Some _ =>
          assignment_from_pb_loop self rest
            (dict_set (component_id component_pb) (count component_pb) assignment)
      end
  end.

(** [PerformanceDataAggregator.assignment_from_pb] *)
Definition assignment_from_pb (self : PerformanceDataAggregator)
    (assignment_pb : Assignment) : result (string * list (string * Z)) :=
  assignment ← assignment_from_pb_loop self (components assignment_pb) [];
  Ok (hw_id assignment_pb, assignment).

(** [generate_probe_combinations]: what the generator yields, in order. *)
Fixpoint generate_probe_combinations (probes : list string) (size : Z)
    (combination : list string) : list (list string) :=
  if Z.of_nat (length combination) =? size then [combination]
  else
    match probes with
    | [] => []
    | p :: probes' =>
        i ← seq 0 (Z.to_nat (size + 1));
        if Z.of_nat (length combination + i) <=? size
        then generate_probe_combinations probes' size (combination ++ repeat p i)
        else []
    end.

(** [generate_component_combinations]: a missing key of
    [_probes_by_component] raises when the generator reaches it. *)
Fixpoint generate_component_combinations (pbc : gmap string (list string))
    (cs : list (string * Z)) (combination : list string) (main_component : string)
  : result (list (list string)) :=
  match cs with
  | [] => Ok [combination]
  | (component, count) :: rest =>
      let count := if String.eqb component main_component then count - 1 else count in
      match pbc !! component with
      | None => Raise (KeyError component)
      | Some probes =>
          @concat (list string) <$>
            result_mapM
              (fun probe_combination =>
                 generate_component_combinations pbc rest
                   (combination ++ probe_combination) main_component)
              (generate_probe_combinations probes count [])
      end
  end.

(** The body of [for component in assignment] in [_generate_combinations]:
    what the two inner loops yield for the main component [component]. *)
Definition combinations_with_main (pbc : gmap string (list string))
    (assignment_tuples : list (string * Z)) (component : string)
  : result (list (list string)) :=
  fulls ← generate_component_combinations pbc assignment_tuples [] component;
  @concat (list string) <$>
    result_mapM
      (fun full_combination =>
         match pbc !! component with
         | None => Raise (KeyError component)
         | Some probes => Ok (map (fun probe_id => probe_id :: full_combination) probes)
         end)
      fulls.

(** [PerformanceDataAggregator._generate_combinations] *)
Definition _generate_combinations (pbc : gmap string (list string))
    (assignment : list (string * Z)) : result (list (list string)) :=
  let assignment_tuples := assignment in
  @concat (list string) <$>
    result_mapM (combinations_with_main pbc assignment_tuples) (dict_keys assignment).

(** The body of [for requirement in probe.requirements] in [Predict]:
    the value of [prediction]. *)
Definition predict_requirement (self : PerformanceDataAggregator)
    (hw_id : string) (combination : list string) (measurement : string)
    (measured : bool) (requirement : Requirement) : bool :=
  match requirement with
  | TimeContract time percentile =>
      if measured
      then predict_time (_single_process_predictor self) measurement time percentile
      else mp_predict_time (_predictor self) hw_id combination time percentile
  | ThroughputContract mean_request_time =>
      if measured
      then predict_throughput (_single_process_predictor self) measurement mean_request_time
      else mp_predict_throughput (_predictor self) hw_id combination mean_request_time
  end.

(** The loop of [Predict] over the combinations. *)
Fixpoint predict_loop (cfg : Settings) (self : PerformanceDataAggregator)
    (hw_id : string) (combinations : list (list string))
  : result (bool * PerformanceDataAggregator) :=
  match combinations with
  | [] => Ok (true, self)
  | combination :: rest =>
      let measurement :=
        compose_measurement_name (_single_process_predictor self) hw_id combination in
      let measured := has_measurement (_single_process_predictor self) measurement in
      match combination with
      | [] => Raise IndexError
      | probe_id :: _ =>
          if negb (STATISTICAL_PREDICTION_ENABLED cfg) && negb measured then
            Ok (false, increase_count hw_id probe_id (length combination) self)
          else
            match _probes_by_id self !! probe_id with
            | None => Raise (KeyError probe_id)
            | Some probe =>
                if forallb (predict_requirement self hw_id combination measurement measured)
                     (probe_requirements probe)
                then predict_loop cfg self hw_id rest
                else Ok (false, increase_count hw_id probe_id (length combination) self)
            end
      end
  end.

(** The test of the first [if] of [Predict]. *)
Definition single_default_instance (cfg : Settings) (request : Assignment) : bool :=
  match components request with
  | [c] => (count c =? 1) && String.eqb (hw_id request) (DEFAULT_HARDWARE_ID cfg)
  | _ => false
  end.

(** [PerformanceDataAggregator.Predict]: the [result] field of the
    prediction and the aggregator after the call. *)
Definition Predict (cfg : Settings) (request : Assignment)
    (self : PerformanceDataAggregator) : result (bool * PerformanceDataAggregator) :=
  if single_default_instance cfg request then
    match components request with
    | c :: _ =>
        match _probes_by_component self !! component_id c with
        | None => Raise AssertionError
        | Some _ => Ok (true, self)
        end
    | [] => Raise IndexError
    end
  else
    '(hw_id, assignment) ← assignment_from_pb self request;
    combinations ← _generate_combinations (_probes_by_component self) assignment;
    predict_loop cfg self hw_id combinations.

(** [JudgeResult] *)
Inductive JudgeResult : Type := NEEDS_DATA | REJECTED | MEASURED | ACCEPTED.

(** The value of [prediction] in the requirement loop of [JudgeApp]. *)
Definition judge_requirement (self : PerformanceDataAggregator)
    (measurement_name : string) (requirement : Requirement) : bool :=
  match requirement with
  | TimeContract time percentile =>
      predict_time (_single_process_predictor self) measurement_name time percentile
  | ThroughputContract mean_request_time =>
      predict_throughput (_single_process_predictor self) measurement_name mean_request_time
  end.

(** How a loop of [JudgeApp] ends: with a [return], or by running out,
    with the local variable [probe] as the loop left it ([None]: unbound). *)
Inductive flow : Type :=
| Return (verdict : JudgeResult)
| Continue (probe : option Probe).

(** [for probe in component.probes] of the checking loop. *)
Fixpoint judge_probes (cfg : Settings) (self : PerformanceDataAggregator)
    (probes : list Probe) (probe : option Probe) : flow :=
  match probes with
  | [] => Continue probe
  | p :: rest =>
      let measurement_name :=
        compose_measurement_name (_single_process_predictor self)
          (DEFAULT_HARDWARE_ID cfg) [probe_alias p] in
      if negb (has_measurement (_single_process_predictor self) measurement_name)
      then Return NEEDS_DATA
      else if forallb (judge_requirement self measurement_name) (probe_requirements p)
      then judge_probes cfg self rest (Some p)
      else Return REJECTED
  end.

(** [for component in app.components.values()] of the checking loop. *)
Fixpoint judge_components (cfg : Settings) (self : PerformanceDataAggregator)
    (cs : list Component) (probe : option Probe) : flow :=
  match cs with
  | [] => Continue probe
  | component :: rest =>
      match judge_probes cfg self (comp_probes component) probe with
      | Return v => Return v
      | Continue probe' => judge_components cfg self rest probe'
      end
  end.

(** [s.add(x)] on a set kept as the list of its members. *)
Definition set_add (x : string) (s : list string) : list string :=
  if bool_decide (x ∈ s) then s else s ++ [x].

(** The inner loop of the re-registration: the two indices and [probe]. *)
Fixpoint reregister_probes (probes : list Probe)
    (pbc : gmap string (list string)) (pbi : gmap string Probe) (probe : option Probe)
  : result (gmap string (list string) * gmap string Probe * option Probe) :=
  match probes with
  | [] => Ok (pbc, pbi, probe)
  | p :: rest =>
      match pbi !! probe_alias p with
      | None => Raise AssertionError
      | Some _ =>
          let pbi := <[probe_alias p := p]> pbi in
          match pbc !! probe_component_id p with
          | None => Raise (KeyError (probe_component_id p))
          | Some s =>
              reregister_probes rest
                (<[probe_component_id p := set_add (probe_alias p) s]> pbc) pbi (Some p)
          end
      end
  end.

(** The outer loop of the re-registration: the set that is emptied is the
    one of the component of [probe], the variable as the previous loop left
    it. *)
Fixpoint reregister_components (cs : list Component)
    (pbc : gmap string (list string)) (pbi : gmap string Probe) (probe : option Probe)
  : result (gmap string (list string) * gmap string Probe * option Probe) :=
  match cs with
  | [] => Ok (pbc, pbi, probe)
  | component :: rest =>
      match probe with
      | None => Raise (UnboundLocalError "probe")
      | Some stale =>
          '(pbc, pbi, probe) ←
            reregister_probes (comp_probes component)
              (<[probe_component_id stale := []]> pbc) pbi probe;
          reregister_components rest pbc pbi probe
      end
  end.

(** The tail of [JudgeApp] from [self.applications[app.name] = app] on. *)
Definition accept (app : Application) (probe : option Probe)
    (self : PerformanceDataAggregator) : result (JudgeResult * PerformanceDataAggregator) :=
  '(pbc, pbi, _) ←
    reregister_components (dict_values (app_components app))
      (_probes_by_component self) (_probes_by_id self) probe;
  Ok (ACCEPTED,
      {| _single_process_predictor := _single_process_predictor self;
         _predictor := _predictor self;
         applications := <[app_name app := app]> (applications self);
         _probes_by_component := pbc;
         _probes_by_id := pbi;
         _scenario_generator := _scenario_generator self |}).

(** [PerformanceDataAggregator.JudgeApp]: the verdict and the aggregator
    after the call. *)
Definition JudgeApp (cfg : Settings) (app : Application)
    (self : PerformanceDataAggregator) : result (JudgeResult * PerformanceDataAggregator) :=
  match applications self !! app_name app with
  | None => Ok (NEEDS_DATA, self)
  | Some _ =>
      match judge_components cfg self (dict_values (app_components app)) None with
      | Return v => Ok (v, self)
      | Continue probe =>
          if negb (app_is_complete app) then Ok (MEASURED, self)
          else accept app probe self
      end
  end.

(** ** What the properties say *)

(** [sum(assignment.values())] *)
Definition total_count (assignment : list (string * Z)) : Z :=
  foldr (fun cn acc => snd cn + acc) 0 assignment.

(** [block_ok pbc main (c, n) b]: [b] is a block of probes of component [c],
    drawn from its probe set, of length [n], or [n - 1] for the main
    component. *)
Definition block_ok (pbc : gmap string (list string)) (main_component : string)
    (cn : string * Z) (b : list string) : Prop :=
  Z.of_nat (length b)
    = (if String.eqb (fst cn) main_component then snd cn - 1 else snd cn)
  ∧ ∃ probes, pbc !! fst cn = Some probes ∧ ∀ p, p ∈ b → p ∈ probes.

(** The probes of an application in the order in which [JudgeApp] visits
    them, and what the checking loop finds out about one of them. *)
Definition all_probes (app : Application) : list Probe :=
  concat (map comp_probes (dict_values (app_components app))).

Definition isolation_name (cfg : Settings) (self : PerformanceDataAggregator)
    (p : Probe) : string :=
  compose_measurement_name (_single_process_predictor self)
    (DEFAULT_HARDWARE_ID cfg) [probe_alias p].

Definition probe_measured (cfg : Settings) (self : PerformanceDataAggregator)
    (p : Probe) : bool :=
  has_measurement (_single_process_predictor self) (isolation_name cfg self p).

Definition probe_passes (cfg : Settings) (self : PerformanceDataAggregator)
    (p : Probe) : bool :=
  probe_measured cfg self p
  && forallb (judge_requirement self (isolation_name cfg self p)) (probe_requirements p).

(** The first probe, in that order, that lacks its isolation measurement or
    has a requirement that fails its isolation prediction. *)
Definition first_offender (cfg : Settings) (self : PerformanceDataAggregator)
    (probes : list Probe) : option Probe :=
  List.find (fun p => negb (probe_passes cfg self p)) probes.

(** The variable [probe] after a loop over [probes]. *)
Definition last_bound (probe : option Probe) (probes : list Probe) : option Probe :=
  match last probes with
  | Some p => Some p
  | None => probe
  end.

(** The aggregator after an application is accepted whose only component is
    [c]: the application is stored, every probe of [c] is stored under its
    alias, and the probe set of [c] holds the aliases of its probes. *)
Definition reregistered (app : Application) (c : Component)
    (self : PerformanceDataAggregator) : PerformanceDataAggregator :=
  {| _single_process_predictor := _single_process_predictor self;
     _predictor := _predictor self;
     applications := <[app_name app := app]> (applications self);
     _probes_by_component :=
       <[comp_id c := foldl (fun s p => set_add (probe_alias p) s) [] (comp_probes c)]>
         (_probes_by_component self);
     _probes_by_id :=
       foldl (fun m p => <[probe_alias p := p]> m) (_probes_by_id self) (comp_probes c);
     _scenario_generator := _scenario_generator self |}.

(** What the loop of [Predict] finds out about one combination. *)
Definition combination_measured (self : PerformanceDataAggregator)
    (hw_id : string) (combination : list string) : bool :=
  has_measurement (_single_process_predictor self)
    (compose_measurement_name (_single_process_predictor self) hw_id combination).

Definition combination_passes (self : PerformanceDataAggregator)
    (hw_id : string) (combination : list string) : bool :=
  match combination with
  | [] => false
  | probe_id :: _ =>
      match _probes_by_id self !! probe_id with
      | None => false
      | Some probe =>
          forallb
            (predict_requirement self hw_id combination
               (compose_measurement_name (_single_process_predictor self) hw_id combination)
               (combination_measured self hw_id combination))
            (probe_requirements probe)
      end
  end.

(** ** Example inputs *)

Definition two_components : gmap string (list string) :=
  {[ "c" := ["A"; "B"]; "d" := ["X"] ]}.

Definition settings : Settings :=
  {| DEFAULT_HARDWARE_ID := "hw0"; STATISTICAL_PREDICTION_ENABLED := false |}.

(** A measurement store that holds the measurements hw0-A (5 ms, in
    isolation), hw0-A-B and hw0-A-A (50 ms each), and a predictor that
    accepts nothing. *)
Definition measurements : MeasurementAggregator :=
  {| compose_measurement_name := fun hw combination => String.concat "-" (hw :: combination);
     has_measurement := fun n => bool_decide (n ∈ ["hw0-A"; "hw0-A-B"; "hw0-A-A"]);
     predict_time := fun n time_limit _ =>
       (if String.eqb n "hw0-A" then 5 else 50) <=? time_limit;
     mean_running_time := fun n => inject_Z (if String.eqb n "hw0-A" then 5 else 50) |}.

Definition predictor : MultiPredictor :=
  {| mp_predict_time := fun _ _ _ _ => false;
     mp_mean_request_time := fun _ _ => inject_Z 1000 |}.

Definition probe_A (limit : Z) : Probe :=
  {| probe_alias := "A"; probe_component_id := "app_c";
     probe_requirements := [TimeContract limit 95] |}.

Definition probe_B : Probe :=
  {| probe_alias := "B"; probe_component_id := "app_c"; probe_requirements := [] |}.

Definition component_c (probes : list Probe) : Component :=
  {| comp_application_name := "app"; comp_name := "c"; comp_id := "app_c";
     comp_probes := probes |}.

Definition application (probes : list Probe) (complete : bool) : Application :=
  {| app_name := "app"; app_components := [("c", component_c probes)];
     app_is_complete := complete |}.

(** The aggregator after [RegisterApp] of the application with probes A and
    B, and the same after an earlier acceptance filled the probe sets. *)
Definition registered (pbc : gmap string (list string)) : PerformanceDataAggregator :=
  {| _single_process_predictor := measurements;
     _predictor := predictor;
     applications := {[ "app" := application [probe_A 10; probe_B] false ]};
     _probes_by_component := pbc;
     _probes_by_id := {[ "A" := probe_A 10; "B" := probe_B ]};
     _scenario_generator := [] |}.

Definition request (n : Z) : Assignment :=
  {| hw_id := "hw0"; components := [ {| component_id := "app_c"; count := n |} ] |}.

(** ** Registration, and what further properties say *)

(** [PerformanceDataAggregator._register_probe] *)
Definition _register_probe (probe : Probe) (self : PerformanceDataAggregator)
  : PerformanceDataAggregator :=
  {| _single_process_predictor := _single_process_predictor self;
     _predictor := _predictor self;
     applications := applications self;
     _probes_by_component := _probes_by_component self;
     _probes_by_id := <[probe_alias probe := probe]> (_probes_by_id self);
     _scenario_generator := _scenario_generator self |}.

Section RegisterApp.

(** [RegisterApp] reads [probe.signal_set] and calls
    [ScenarioGenerator.register_probe] and
    [MeasurementAggregator.report_measurements].  Neither class is among the
    sources: the attribute, and what each of the two calls makes of the
    object it is called on, are parameters. *)
Variable signal_set : Probe → string.
Variable sg_register_probe : list (string * string * nat) → Probe → list (string * string * nat).
Variable report_measurements : MeasurementAggregator → Probe → MeasurementAggregator.

(** The body of [for probe in component.probes] in [RegisterApp]. *)
Definition register_app_probe (cfg : Settings) (self : PerformanceDataAggregator)
    (probe : Probe) : PerformanceDataAggregator :=
  let self := _register_probe probe self in
  let self :=
    {| _single_process_predictor := _single_process_predictor self;
       _predictor := _predictor self;
       applications := applications self;
       _probes_by_component := _probes_by_component self;
       _probes_by_id := _probes_by_id self;
       _scenario_generator := sg_register_probe (_scenario_generator self) probe |} in
  if negb (String.eqb (signal_set probe) "")
     && has_measurement (_single_process_predictor self)
          (compose_measurement_name (_single_process_predictor self)
             (DEFAULT_HARDWARE_ID cfg) [probe_alias probe])
  then
    {| _single_process_predictor :=
         report_measurements (_single_process_predictor self) probe;
       _predictor := _predictor self;
       applications := applications self;
       _probes_by_component := _probes_by_component self;
       _probes_by_id := _probes_by_id self;
       _scenario_generator := _scenario_generator self |}
  else self.

(** [PerformanceDataAggregator.RegisterApp]: the aggregator after the call. *)
Definition RegisterApp (cfg : Settings) (app : Application)
    (self : PerformanceDataAggregator) : PerformanceDataAggregator :=
  let self :=
    {| _single_process_predictor := _single_process_predictor self;
       _predictor := _predictor self;
       applications := <[app_name app := app]> (applications self);
       _probes_by_component := _probes_by_component self;
       _probes_by_id := _probes_by_id self;
       _scenario_generator := _scenario_generator self |} in
  foldl (fun self component => foldl (register_app_probe cfg) self (comp_probes component))
    self (dict_values (app_components app)).

End RegisterApp.

(** The probes of a list that carry alias [a]. *)
Definition with_alias (a : string) (probes : list Probe) : list Probe :=
  List.filter (fun p => String.eqb (probe_alias p) a) probes.

(** The aggregator as [__init__] leaves it, given the two collaborators. *)
Definition PerformanceDataAggregator_init (m : MeasurementAggregator) (p : MultiPredictor)
  : PerformanceDataAggregator :=
  {| _single_process_predictor := m;
     _predictor := p;
     applications := ∅;
     _probes_by_component := ∅;
     _probes_by_id := ∅;
     _scenario_generator := [] |}.

(** The request for one instance of a component on the default hardware. *)
Definition one_instance_of (cfg : Settings) (c : Component) : Assignment :=
  {| hw_id := DEFAULT_HARDWARE_ID cfg;
     components := [ {| component_id := comp_id c; count := 1 |} ] |}.

(** An application with a second component [d] that has one probe. *)
Definition probe_X : Probe :=
  {| probe_alias := "X"; probe_component_id := "app_d"; probe_requirements := [] |}.

Definition component_d : Component :=
  {| comp_application_name := "app"; comp_name := "d"; comp_id := "app_d";
     comp_probes := [probe_X] |}.

Definition two_component_app : Application :=
  {| app_name := "app";
     app_components := [("c", component_c [probe_A 10]); ("d", component_d)];
     app_is_complete := true |}.

(** Measurements in which every probe has been measured in isolation and
    every prediction holds. *)
Definition all_measured : MeasurementAggregator :=
  {| compose_measurement_name := fun hw combination => String.concat "-" (hw :: combination);
     has_measurement := fun _ => true;
     predict_time := fun _ _ _ => true;
     mean_running_time := fun _ => inject_Z 0 |}.

(** The combination that takes [counts] copies of the probes, probe by
    probe: a multiset of probes, written in the order of the probes. *)
Definition copies (probes : list string) (counts : list nat) : list string :=
  concat (zip_with (fun p c => repeat p c) probes counts).

(** The entries of a request that name component [c]. *)
Definition entries_of (c : string) (cs : list ComponentPb) : list ComponentPb :=
  List.filter (fun pb => String.eqb (component_id pb) c) cs.

(** [probe_id] is a probe of one of the components that the request names. *)
Definition requested_probe (self : PerformanceDataAggregator) (request : Assignment)
    (probe_id : string) : Prop :=
  ∃ pb probes, pb ∈ components request
    ∧ _probes_by_component self !! component_id pb = Some probes
    ∧ probe_id ∈ probes.

(** What the loop of [Predict] needs of a combination to go on: a
    measurement or the statistical predictor, and predictions that hold. *)
Definition combination_ok (cfg : Settings) (self : PerformanceDataAggregator)
    (hw_id : string) (combination : list string) : bool :=
  (STATISTICAL_PREDICTION_ENABLED cfg || combination_measured self hw_id combination)
  && combination_passes self hw_id combination.

(** A request on other hardware that names no component. *)
Definition empty_request : Assignment := {| hw_id := "hw1"; components := [] |}.

End Aggregator.

(** * middleware/probe_monitor.py *)

Module ProbeMonitor.

(** The exceptions of the module, besides the built-in ones.  [FileError]
    is an exception of [makedirs] or [open], by the name of its class
    (FileNotFoundError, PermissionError, OSError, ValueError, ...). *)
Inductive error : Type :=
| PyError (e : exn)
| FileError (class_name : string)
| IOEventsNotSupportedException
| CPUEventsNotSupportedException.

(** What the module reads of the machine it runs on: the clock, the block
    device statistics of sysfs and the PAPI library.  [perf_counter n] is
    the [n]-th value that [round(time.perf_counter() * 1000)] takes,
    [stat f n] the integers on the first line of file [f] when it is read
    for the [n]-th time, [read_counters n] the [n]-th result of
    [papi_high.read_counters()]; [papi_event] is [getattr(papi_events, _)]
    and [start_counters] tells whether [papi_high.start_counters] accepts
    the events (it raises PapiNoEventError otherwise).  The file system
    decides whether a directory can be made and a file opened for writing:
    [makedirs_error d] is the exception that [makedirs(d)] raises, if any,
    and [open_error ds path] the exception that [open(path, "w")] raises,
    if any, when the directories [ds] exist (FileNotFoundError when the
    directory of [path] is missing, as for a probe name with a path
    separator, or another one for a name that is too long, a missing
    permission and the like). *)
Record Machine : Type :=
  { perf_counter : nat → Z;
    isfile : string → bool;
    stat : string → nat → list Z;
    num_counters : nat;
    papi_event : string → option nat;
    start_counters : list nat → bool;
    read_counters : nat → list Z;
    makedirs_error : string → option string;
    open_error : gset string → string → option string }.

(** What changes while the module runs: how often the clock, the statistics
    and the counters have been read, the directories and files (path to
    content), the files that are open, and the executables that have been
    called, in order. *)
Record State : Type :=
  { clock_reads : nat;
    stat_reads : nat;
    counter_reads : nat;
    dirs : gset string;
    files : gmap string string;
    open_files : list string;
    calls : list nat }.

(** A computation that reads and changes the state and may raise; the state
    is kept when it raises. *)
Definition M (A : Type) : Type := State → (A + error) * State.

#[global] Instance M_ret : MRet M := fun _ a s => (inl a, s).
#[global] Instance M_bind : MBind M := fun _ _ k m s =>
  match m s with
  | (inl a, s') => k a s'
  | (inr e, s') => (inr e, s')
  end.

#[global] Instance M_fmap : FMap M := fun _ _ f m s =>
  match m s with
  | (inl a, s') => (inl (f a), s')
  | (inr e, s') => (inr e, s')
  end.

Definition raise {A : Type} (e : error) : M A := fun s => (inr e, s).

Definition assertM (c : bool) : M unit :=
  if c then mret tt else raise (PyError AssertionError).

(** [for _ in range(n): body] *)
Fixpoint repeatM (n : nat) (body : M unit) : M unit :=
  match n with
  | O => mret tt
  | S n' => _ ← body; repeatM n' body
  end.

(** A loop over objects that the body updates in place. *)
Fixpoint forM {A : Type} (f : A → M A) (l : list A) : M (list A) :=
  match l with
  | [] => mret []
  | x :: l' => y ← f x; ys ← forM f l'; mret (y :: ys)
  end.

Section Machine.
Variable machine : Machine.

(** [round(time.perf_counter() * 1000)] *)
Definition now_ms : M Z := fun s =>
  (inl (perf_counter machine (clock_reads s)),
   {| clock_reads := S (clock_reads s); stat_reads := stat_reads s;
      counter_reads := counter_reads s; dirs := dirs s; files := files s;
      open_files := open_files s; calls := calls s |}).

(** [with open(file, "r") as stream: stream.readline().split()], the fields
    as integers. *)
Definition read_stat (file : string) : M (list Z) := fun s =>
  (inl (stat machine file (stat_reads s)),
   {| clock_reads := clock_reads s; stat_reads := S (stat_reads s);
      counter_reads := counter_reads s; dirs := dirs s; files := files s;
      open_files := open_files s; calls := calls s |}).

(** [papi_high.read_counters()] *)
Definition papi_read_counters : M (list Z) := fun s =>
  (inl (read_counters machine (counter_reads s)),
   {| clock_reads := clock_reads s; stat_reads := stat_reads s;
      counter_reads := S (counter_reads s); dirs := dirs s; files := files s;
      open_files := open_files s; calls := calls s |}).

(** [executable()]: what is kept of a call is that it was made; an
    executable is taken to return. *)
Definition call (executable : nat) : M unit := fun s =>
  (inl tt,
   {| clock_reads := clock_reads s; stat_reads := stat_reads s;
      counter_reads := counter_reads s; dirs := dirs s; files := files s;
      open_files := open_files s; calls := calls s ++ [executable] |}).

(** [if not path.exists(d): makedirs(d)] *)
Definition ensure_dir (d : string) : M unit := fun s =>
  if bool_decide (d ∈ dirs s) then (inl tt, s)
  else
    match makedirs_error machine d with
    | Some class_name => (inr (FileError class_name), s)
    | None =>
        (inl tt,
         {| clock_reads := clock_reads s; stat_reads := stat_reads s;
            counter_reads := counter_reads s; dirs := {[ d ]} ∪ dirs s;
            files := files s; open_files := open_files s; calls := calls s |})
    end.

(** [open(path, "w")]: when the file system lets it, the file is created or
    emptied, and is open. *)
Definition open_w (path : string) : M unit := fun s =>
  match open_error machine (dirs s) path with
  | Some class_name => (inr (FileError class_name), s)
  | None =>
      (inl tt,
       {| clock_reads := clock_reads s; stat_reads := stat_reads s;
          counter_reads := counter_reads s; dirs := dirs s;
          files := <[path := ""]> (files s);
          open_files := path :: open_files s; calls := calls s |})
  end.

(** Writing [text] to the open file [path]. *)
Definition write (path text : string) : M unit := fun s =>
  (inl tt,
   {| clock_reads := clock_reads s; stat_reads := stat_reads s;
      counter_reads := counter_reads s; dirs := dirs s;
      files := <[path := String.append (default "" (files s !! path)) text]> (files s);
      open_files := open_files s; calls := calls s |}).

(** [file.close()] *)
Definition close (path : string) : M unit := fun s =>
  (inl tt,
   {| clock_reads := clock_reads s; stat_reads := stat_reads s;
      counter_reads := counter_reads s; dirs := dirs s; files := files s;
      open_files := List.filter (fun p => negb (String.eqb p path)) (open_files s);
      calls := calls s |}).

(** ** The monitors *)

(** [IterativeMonitor(ABC)] *)
Class IterativeMonitor (T : Type) : Type :=
  { before_iteration : T → M T;
    after_iteration : T → M T;
    header : T → list string;
    last_measurement : T → M (list Z);
    finish : T → M unit }.

(** [TimeMonitor] *)
Record TimeMonitor : Type := { _start_time : Z; _end_time : Z }.

Definition TimeMonitor_init : TimeMonitor := {| _start_time := 0; _end_time := 0 |}.

#[global] Instance TimeMonitor_monitor : IterativeMonitor TimeMonitor :=
  { before_iteration := fun self =>
      t ← now_ms; mret {| _start_time := t; _end_time := _end_time self |};
    after_iteration := fun self =>
      t ← now_ms; mret {| _start_time := _start_time self; _end_time := t |};
    header := fun _ => ["start_time"; "end_time"; "elapsed"];
    last_measurement := fun self =>
      mret [_start_time self; _end_time self; _end_time self - _start_time self];
    finish := fun _ => mret tt }.

(** [DiskMonitor] *)
Definition DEFAULT_STAT_FILE_PATHS : list string :=
  ["/sys/block/sda/stat"; "/sys/block/vda/stat"].

Definition DEFAULT_FEATURES : list string :=
  ["reads_completed"; "reads_merged"; "read_sectors"; "read_time"; "write_completed";
   "write_merged"; "written_sectors"; "write_time"; "io_in_progress"; "io_time";
   "weighted_io_time"; "discards_completed"; "discards_merged"; "sectors_discarded";
   "discards_time"].

Record DiskMonitor : Type :=
  { _file : string;
    _num_features : nat;
    _start_data : list Z;
    _end_data : list Z }.

(** The loop that finds the statistics file: the last path that is a file
    stays in [self._file], which is unset when none is. *)
Definition find_stat_file : option string :=
  foldl (fun found file => if isfile machine file then Some file else found)
    None DEFAULT_STAT_FILE_PATHS.

(** [DiskMonitor.__init__] *)
Definition DiskMonitor_init : M DiskMonitor :=
  match find_stat_file with
  | None => raise (PyError (AttributeError "_file"))
  | Some file =>
      line ← read_stat file;
      let num_features := length line in
      if (num_features =? 0)%nat then raise IOEventsNotSupportedException
      else mret {| _file := file;
                   _num_features := num_features;
                   _start_data := repeat 0 num_features;
                   _end_data := repeat 0 num_features |}
  end.

#[global] Instance DiskMonitor_monitor : IterativeMonitor DiskMonitor :=
  { before_iteration := fun self =>
      line ← read_stat (_file self);
      _ ← assertM (length line =? _num_features self)%nat;
      mret {| _file := _file self; _num_features := _num_features self;
              _start_data := line; _end_data := _end_data self |};
    after_iteration := fun self =>
      line ← read_stat (_file self);
      _ ← assertM (length line =? _num_features self)%nat;
      mret {| _file := _file self; _num_features := _num_features self;
              _start_data := _start_data self; _end_data := line |};
    header := fun self => take (_num_features self) DEFAULT_FEATURES;
    last_measurement := fun self =>
      mret (zip_with (fun start end_ => end_ - start) (_start_data self) (_end_data self));
    finish := fun _ => mret tt }.

(** [CpuMonitor]; [_counters] is unset until the first [after_iteration]. *)
Record CpuMonitor : Type :=
  { _event_names : list string;
    _counters : option (list Z) }.

Definition DEFAULT_EVENTS : list string :=
  ["PAPI_REF_CYC"; "PAPI_TOT_INS"; "PAPI_BR_INS"; "PAPI_L1_DCM"].

(** The part of [CpuMonitor.__init__] under [try]: an event that
    [papi_events] does not have (AttributeError) and events that PAPI does
    not take (PapiNoEventError) end in CPUEventsNotSupportedException. *)
Definition start_events (names : list string) : M CpuMonitor :=
  match mapM (papi_event machine) names with
  | None => raise CPUEventsNotSupportedException
  | Some events =>
      if start_counters machine events
      then mret {| _event_names := names; _counters := None |}
      else raise CPUEventsNotSupportedException
  end.

(** [CpuMonitor.__init__] *)
Definition CpuMonitor_init (cpu_events : option (list string)) : M CpuMonitor :=
  if (num_counters machine =? 0)%nat then raise CPUEventsNotSupportedException
  else
    match cpu_events with
    | None => start_events DEFAULT_EVENTS
    | Some cpu_events =>
        _ ← assertM (0 <? length cpu_events)%nat;
        start_events cpu_events
    end.

#[global] Instance CpuMonitor_monitor : IterativeMonitor CpuMonitor :=
  { before_iteration := fun self => _ ← papi_read_counters; mret self;
    after_iteration := fun self =>
      counters ← papi_read_counters;
      mret {| _event_names := _event_names self; _counters := Some counters |};
    header := fun self => _event_names self;
    last_measurement := fun self =>
      match _counters self with
      | Some counters => mret counters
      | None => raise (PyError (AttributeError "_counters"))
      end;
    finish := fun _ => mret tt }.   (* [papi_high.stop_counters()] *)

(** The monitors that a collector holds. *)
Inductive Monitor : Type :=
| OfTime (m : TimeMonitor)
| OfDisk (m : DiskMonitor)
| OfCpu (m : CpuMonitor).

#[global] Instance Monitor_monitor : IterativeMonitor Monitor :=
  { before_iteration := fun self =>
      match self with
      | OfTime m => OfTime <$> before_iteration m
      | OfDisk m => OfDisk <$> before_iteration m
      | OfCpu m => OfCpu <$> before_iteration m
      end;
    after_iteration := fun self =>
      match self with
      | OfTime m => OfTime <$> after_iteration m
      | OfDisk m => OfDisk <$> after_iteration m
      | OfCpu m => OfCpu <$> after_iteration m
      end;
    header := fun self =>
      match self with
      | OfTime m => header m
      | OfDisk m => header m
      | OfCpu m => header m
      end;
    last_measurement := fun self =>
      match self with
      | OfTime m => last_measurement m
      | OfDisk m => last_measurement m
      | OfCpu m => last_measurement m
      end;
    finish := fun self =>
      match self with
      | OfTime m => finish m
      | OfDisk m => finish m
      | OfCpu m => finish m
      end }.

(** ** DataCollector *)

Definition SEPARATOR : string := ";".
Definition RESULTS_DIR : string := "./probes/".
Definition newline : string := String (ascii_of_nat 10) EmptyString.

(** [DataCollector.get_results_header_file], [get_results_data_file] *)
Definition get_results_header_file (probe_name : string) : string :=
  String.append RESULTS_DIR (String.append probe_name ".header").

Definition get_results_data_file (probe_name : string) : string :=
  String.append RESULTS_DIR (String.append probe_name ".data").

(** The collector; [_data_file] is the path of the file it holds open. *)
Record DataCollector : Type :=
  { _monitors : list Monitor;
    _header : list string;
    _data_file : string }.

(** The monitors that [DataCollector.__init__] creates. *)
Definition create_monitors (cpu_events : option (list string)) (production : bool)
  : M (list Monitor) :=
  if negb production then
    let time := TimeMonitor_init in
    disk ← DiskMonitor_init;
    cpu ← CpuMonitor_init cpu_events;
    mret [OfTime time; OfDisk disk; OfCpu cpu]
  else mret [OfTime TimeMonitor_init].

(** [DataCollector.__init__] *)
Definition DataCollector_init (probe_name : string) (cpu_events : option (list string))
    (production : bool) : M DataCollector :=
  monitors ← create_monitors cpu_events production;
  let header_ := foldl (fun h monitor => h ++ header monitor) [] monitors in
  _ ← assertM (0 <? length header_)%nat;
  _ ← ensure_dir RESULTS_DIR;
  _ ← open_w (get_results_header_file probe_name);
  _ ← write (get_results_header_file probe_name) (String.concat SEPARATOR header_);
  _ ← close (get_results_header_file probe_name);
  _ ← open_w (get_results_data_file probe_name);
  mret {| _monitors := monitors;
          _header := header_;
          _data_file := get_results_data_file probe_name |}.

(** [DataCollector.before_iteration] *)
Definition collector_before_iteration (self : DataCollector) : M DataCollector :=
  monitors ← forM before_iteration (_monitors self);
  mret {| _monitors := monitors; _header := _header self; _data_file := _data_file self |}.

(** The loop [data = data + monitor.last_measurement]. *)
Fixpoint collect (monitors : list Monitor) (data : list Z) : M (list Z) :=
  match monitors with
  | [] => mret data
  | monitor :: rest => m ← last_measurement monitor; collect rest (data ++ m)
  end.

(** [DataCollector.after_iteration]; [print] ends the line. *)
Definition collector_after_iteration (self : DataCollector) : M DataCollector :=
  monitors ← forM after_iteration (_monitors self);
  data ← collect monitors [];
  _ ← assertM (length data =? length (_header self))%nat;
  _ ← write (_data_file self)
        (String.append (String.concat SEPARATOR (map pretty data)) newline);
  mret {| _monitors := monitors; _header := _header self; _data_file := _data_file self |}.

(** [DataCollector.finish] *)
Definition collector_finish (self : DataCollector) : M unit :=
  _ ← forM (fun monitor => _ ← finish monitor; mret monitor) (_monitors self);
  close (_data_file self).

(** ** ProbeMonitor *)

(** An executable is known by its identity; [_workload_thread] is unset
    until the first workload is started and then holds the executable that
    the last thread was started with. *)
Record ProbeMonitor : Type :=
  { _workload_enabled : bool;
    _probes : gmap string nat;
    _production : bool;
    _workload_thread : option nat }.

(** [ProbeMonitor.__init__] *)
Definition ProbeMonitor_init (production : bool) : ProbeMonitor :=
  {| _workload_enabled := false; _probes := ∅; _production := production;
     _workload_thread := None |}.

(** The measured loop of [execute_probe]; the collector changes with it. *)
Fixpoint measure (n : nat) (executable : nat) (collector : DataCollector)
  : M DataCollector :=
  match n with
  | O => mret collector
  | S n' =>
      collector ← collector_before_iteration collector;
      _ ← call executable;
      collector ← collector_after_iteration collector;
      measure n' executable collector
  end.

(** [ProbeMonitor.execute_probe] *)
Definition execute_probe (self : ProbeMonitor) (probe_name : string)
    (warm_up_cycles measured_cycles : Z) (cpu_events : option (list string)) : M Z :=
  _ ← assertM (negb (_workload_enabled self));
  collector ← DataCollector_init probe_name cpu_events (_production self);
  match _probes self !! probe_name with
  | None => raise (PyError (KeyError probe_name))
  | Some executable =>
      _ ← repeatM (Z.to_nat warm_up_cycles) (call executable);
      start ← now_ms;
      collector ← measure (Z.to_nat measured_cycles) executable collector;
      _ ← collector_finish collector;
      stop ← now_ms;
      mret (stop - start)
  end.

End Machine.

(** [ProbeMonitor.has_workload] *)
Definition has_workload (self : ProbeMonitor) : bool := _workload_enabled self.

(** The methods below change the monitor only; the monitor is kept as it is
    when they raise. *)
Definition set_workload (enabled : bool) (thread : option nat) (self : ProbeMonitor)
  : ProbeMonitor :=
  {| _workload_enabled := enabled; _probes := _probes self;
     _production := _production self; _workload_thread := thread |}.

(** [ProbeMonitor.start_probe_workload]: the flag is set before the
    executable is looked up. *)
Definition start_probe_workload (probe_name : string) (self : ProbeMonitor)
  : (unit + error) * ProbeMonitor :=
  if _workload_enabled self then (inr (PyError AssertionError), self)
  else
    let self := set_workload true (_workload_thread self) self in
    match _probes self !! probe_name with
    | None => (inr (PyError (KeyError probe_name)), self)
    | Some executable => (inl tt, set_workload true (Some executable) self)
    end.

(** [ProbeMonitor.stop_probe_workload]: the flag is cleared before the
    thread is joined. *)
Definition stop_probe_workload (self : ProbeMonitor) : (unit + error) * ProbeMonitor :=
  if negb (_workload_enabled self) then (inr (PyError AssertionError), self)
  else
    let self := set_workload false (_workload_thread self) self in
    match _workload_thread self with
    | None => (inr (PyError (AttributeError "_workload_thread")), self)
    | Some _ => (inl tt, self)
    end.

(** [ProbeMonitor.add_probe], [has_probe] *)
Definition add_probe (name : string) (executable : nat) (self : ProbeMonitor)
  : ProbeMonitor :=
  {| _workload_enabled := _workload_enabled self;
     _probes := <[name := executable]> (_probes self);
     _production := _production self;
     _workload_thread := _workload_thread self |}.

Definition has_probe (probe_name : string) (self : ProbeMonitor) : bool :=
  bool_decide (is_Some (_probes self !! probe_name)).

(** ** What the properties say *)

(** The result files of a probe can be written: the results directory
    exists or can be made, and both files can be opened once it exists. *)
Definition results_writable (machine : Machine) (probe_name : string) (s : State) : Prop :=
  (RESULTS_DIR ∈ dirs s ∨ makedirs_error machine RESULTS_DIR = None)
  ∧ open_error machine ({[ RESULTS_DIR ]} ∪ dirs s) (get_results_header_file probe_name)
    = None
  ∧ open_error machine ({[ RESULTS_DIR ]} ∪ dirs s) (get_results_data_file probe_name)
    = None.

(** An empty machine state. *)
Definition State_init : State :=
  {| clock_reads := 0; stat_reads := 0; counter_reads := 0; dirs := ∅; files := ∅;
     open_files := []; calls := [] |}.

(** The header of a collector that holds a [TimeMonitor] only. *)
Definition time_header : list string := ["start_time"; "end_time"; "elapsed"].

(** The row that the collector prints for one measurement. *)
Definition row (data : list Z) : string :=
  String.append (String.concat SEPARATOR (map pretty data)) newline.

(** The text of a file that holds these rows. *)
Definition rows (data : list (list Z)) : string :=
  foldr (fun r text => String.append (row r) text) "" data.

(** The rows of [n] iterations timed from clock reading [k] on: every
    iteration reads the clock twice. *)
Fixpoint time_rows (machine : Machine) (k n : nat) : list (list Z) :=
  match n with
  | O => []
  | S n' =>
      [perf_counter machine k; perf_counter machine (S k);
       perf_counter machine (S k) - perf_counter machine k]
      :: time_rows machine (S (S k)) n'
  end.

(** The directory of a path: the path up to and with its last separator. *)
Fixpoint dirname (path : string) : string :=
  match path with
  | EmptyString => EmptyString
  | String c rest =>
      match String.index 0 "/" rest with
      | Some _ => String c (dirname rest)
      | None => if Ascii.eqb c "/"%char then String c EmptyString else EmptyString
      end
  end.

(** A file system that makes every directory and opens every file whose
    directory exists. *)
Definition open_in_directory (ds : gset string) (path : string) : option string :=
  if bool_decide (dirname path ∈ ds) then None else Some "FileNotFoundError".

(** A machine whose clock shows 10, 20, 30, ... and that has neither block
    device statistics nor counters. *)
Definition plain_machine : Machine :=
  {| perf_counter := fun n => 10 * Z.of_nat (S n);
     isfile := fun _ => false;
     stat := fun _ _ => [];
     num_counters := 0;
     papi_event := fun _ => None;
     start_counters := fun _ => false;
     read_counters := fun _ => [];
     makedirs_error := fun _ => None;
     open_error := open_in_directory |}.

(** A machine whose block device [sda] reports 17 statistics and whose
    PAPI has four counters and takes every event. *)
Definition wide_machine : Machine :=
  {| perf_counter := fun n => 10 * Z.of_nat (S n);
     isfile := fun file => String.eqb file "/sys/block/sda/stat";
     stat := fun _ n => repeat (Z.of_nat n) 17;
     num_counters := 4;
     papi_event := fun name => Some (String.length name);
     start_counters := fun _ => true;
     read_counters := fun n => repeat (Z.of_nat n) 4;
     makedirs_error := fun _ => None;
     open_error := open_in_directory |}.

End ProbeMonitor.


(** * Properties of assessment/model.py *)

Module AssessmentFacts.
Import Assessment.

(** ** publish_new_architectures *)

Lemma publish_loop_spec apps acc :
  publish_loop apps acc =
  (map (fun kv => (fst kv, if accepted (snd kv) then published (snd kv) else snd kv)) apps,
   acc ++ map (fun kv => architecture (snd kv)) (List.filter (fun kv => accepted (snd kv)) apps)).
Proof.
  revert acc. induction apps as [|[k e] rest IH]; intros acc; simpl.
  - by rewrite app_nil_r.
  - unfold publish_entry. fold (accepted e).
    destruct (accepted e) eqn:He; rewrite IH; simpl.
    + by rewrite <- app_assoc.
    + by rewrite app_nil_r.
Qed.

Lemma published_not_accepted e :
  accepted (if accepted e then published e else e) = false.
Proof. destruct (accepted e) eqn:He; [reflexivity | exact He]. Qed.

Lemma accepted_status e : accepted e = true ↔ status e = ACCEPTED.
Proof. unfold accepted, AppStatus_eqb. destruct (status e); simpl; split; congruence. Qed.

(** C10.  One call of [publish_new_architectures] returns exactly the stored
    architectures of the entries whose status was ACCEPTED (in the order of
    the database), turns each of these entries into a PUBLISHED entry with
    no architecture, leaves every other entry and the rest of the database
    as they were, and a second call right after it returns the empty list. *)
Theorem publish_new_architectures_once db :
  let archs := fst (publish_new_architectures db) in
  let db' := snd (publish_new_architectures db) in
  archs = map (fun kv => architecture (snd kv))
              (List.filter (fun kv => bool_decide (status (snd kv) = ACCEPTED)) (_apps db))
  ∧ length (_apps db') = length (_apps db)
  ∧ (∀ i k e, _apps db !! i = Some (k, e) →
       _apps db' !! i =
         Some (k, if bool_decide (status e = ACCEPTED)
                  then {| architecture := None; name := name e; status := PUBLISHED |}
                  else e))
  ∧ _app_removal_cache db' = _app_removal_cache db
  ∧ probes_by_alias db' = probes_by_alias db
  ∧ fst (publish_new_architectures db') = [].
Proof.
  assert (Hacc : ∀ e, bool_decide (status e = ACCEPTED) = accepted e).
  { intros e. unfold accepted, AppStatus_eqb. by destruct (status e). }
  unfold publish_new_architectures. rewrite publish_loop_spec. simpl.
  rewrite publish_loop_spec. simpl.
  repeat split.
  - f_equal. apply filter_ext. intros kv. by rewrite Hacc.
  - by rewrite length_map.
  - intros i k e Hi. rewrite list_lookup_fmap, Hi. simpl. by rewrite Hacc.
  - induction (_apps db) as [|[k e] rest IH]; simpl; [done|].
    rewrite published_not_accepted. exact IH.
Qed.

(** ** _generate_alias *)

#[local] Arguments random_choice : simpl never.

Lemma ascii_uppercase_upper : forallb is_uppercase ascii_uppercase = true.
Proof. reflexivity. Qed.

Lemma random_choice_upper r :
  is_uppercase (fst (random_choice ascii_uppercase r)) = true.
Proof.
  unfold random_choice. cbn [fst].
  pose proof ascii_uppercase_upper as H.
  rewrite forallb_forall in H. apply H. apply nth_In.
  apply Nat.mod_upper_bound. discriminate.
Qed.

Lemma random_letters_length n r :
  String.length (fst (random_letters n r)) = n.
Proof.
  revert r. induction n as [|n IH]; intros r; [done|].
  cbn [random_letters].
  destruct (random_choice ascii_uppercase r) as [c r1] eqn:Hc.
  specialize (IH r1). destruct (random_letters n r1) as [s r2].
  cbn [fst String.length] in *. by rewrite IH.
Qed.

Lemma random_letters_upper n r :
  forallb is_uppercase (list_ascii_of_string (fst (random_letters n r))) = true.
Proof.
  revert r. induction n as [|n IH]; intros r; [done|].
  cbn [random_letters].
  pose proof (random_choice_upper r) as Hu.
  destruct (random_choice ascii_uppercase r) as [c r1] eqn:Hc.
  specialize (IH r1). destruct (random_letters n r1) as [s r2].
  cbn [fst list_ascii_of_string forallb] in *. by rewrite Hu, IH.
Qed.

Lemma random_letters_is_alias r : is_alias (fst (random_letters 4 r)) = true.
Proof.
  unfold is_alias. rewrite random_letters_length, random_letters_upper. done.
Qed.

Lemma random_letters_skip n r : snd (random_letters n r) = skip n r.
Proof.
  revert r. induction n as [|n IH]; intros r.
  - unfold skip. destruct r as [d c]. cbn. f_equal. lia.
  - cbn [random_letters]. unfold random_choice.
    specialize (IH {| draws := draws r; cursor := S (cursor r) |}).
    destruct (random_letters n _) as [s r2]. cbn [snd] in *. subst r2.
    unfold skip. cbn. f_equal. lia.
Qed.

#[local] Arguments random_letters : simpl never.

Lemma alias_loop_spec fuel id_ r m a r' :
  is_alias id_ = true →
  alias_loop fuel id_ r m = Some (a, r') →
  is_alias a = true ∧ m !! a = None.
Proof.
  revert id_ r. induction fuel as [|fuel IH]; intros id_ r Hid; cbn [alias_loop];
    unfold alias_taken; destruct (m !! id_) eqn:Hm; try discriminate.
  - intros [= <- <-]. done.
  - destruct (random_letters 4 r) as [id' r1] eqn:Hr. apply IH.
    by rewrite <- (random_letters_is_alias r), Hr.
  - intros [= <- <-]. done.
Qed.

Lemma _generate_alias_spec fuel r db a r' db' :
  _generate_alias fuel r db = Some (a, r', db') →
  is_alias a = true
  ∧ probes_by_alias db !! a = None
  ∧ probes_by_alias db' = <[a := None]> (probes_by_alias db)
  ∧ _apps db' = _apps db
  ∧ _app_removal_cache db' = _app_removal_cache db.
Proof.
  unfold _generate_alias.
  destruct (random_letters 4 r) as [id_ r1] eqn:Hr.
  destruct (alias_loop fuel id_ r1 (probes_by_alias db)) as [[a' r2]|] eqn:Hl;
    [|discriminate].
  intros [= <- <- <-]. simpl.
  apply alias_loop_spec in Hl as [? ?]; [done|].
  by rewrite <- (random_letters_is_alias r), Hr.
Qed.

(** The loop ends as soon as the generator yields a candidate that is not
    taken: with [k] taken candidates before it, [k] iterations are enough. *)
Lemma alias_loop_returns k : ∀ fuel r m,
  (k <= fuel)%nat →
  alias_taken (candidate r k) m = false →
  is_Some (alias_loop fuel (candidate r 0) (skip 4 r) m).
Proof.
  induction k as [|k IH]; intros fuel r m Hk Hfree.
  - destruct fuel; cbn [alias_loop]; rewrite Hfree; eauto.
  - destruct fuel as [|fuel]; [lia|]. cbn [alias_loop].
    destruct (alias_taken (candidate r 0) m); [|eauto].
    pose proof (random_letters_skip 4 (skip 4 r)) as Hs.
    destruct (random_letters 4 (skip 4 r)) as [id' r'] eqn:Hr. simpl in Hs. subst r'.
    specialize (IH fuel (skip 4 r) m).
    assert (Hc0 : candidate (skip 4 r) 0 = id').
    { unfold candidate. replace (skip (4 * 0) (skip 4 r)) with (skip 4 r).
      - by rewrite Hr.
      - unfold skip. simpl. f_equal. lia. }
    rewrite Hc0 in IH. apply IH; [lia|].
    replace (candidate (skip 4 r) k) with (candidate r (S k)); [done|].
    unfold candidate. f_equal. f_equal. unfold skip. simpl. f_equal. lia.
Qed.

Lemma _generate_alias_returns fuel r db k :
  (k <= fuel)%nat →
  alias_taken (candidate r k) (probes_by_alias db) = false →
  is_Some (_generate_alias fuel r db).
Proof.
  intros Hk Hfree. unfold _generate_alias.
  pose proof (random_letters_skip 4 r) as Hs.
  pose proof (alias_loop_returns k fuel r (probes_by_alias db) Hk Hfree) as [[a r2] Hl].
  unfold candidate in Hl at 1.
  replace (skip (4 * 0) r) with r in Hl
    by (unfold skip; destruct r; simpl; f_equal; lia).
  destruct (random_letters 4 r) as [id_ r1]. simpl in *. subst r1.
  rewrite Hl. eauto.
Qed.

Lemma generate_aliases_spec fuel n : ∀ r db aliases r' db',
  generate_aliases fuel n r db = Some (aliases, r', db') →
  Forall (fun a => is_alias a = true) aliases
  ∧ Forall (fun a => probes_by_alias db !! a = None) aliases
  ∧ NoDup aliases
  ∧ (∀ a, is_Some (probes_by_alias db' !! a) ↔
          a ∈ aliases ∨ is_Some (probes_by_alias db !! a)).
Proof.
  induction n as [|n IH]; intros r db aliases r' db'; simpl.
  - intros [= <- <- <-]. split_and!; try constructor.
    + by right.
    + intros [Hin|Hin]; [by apply elem_of_nil in Hin | done].
  - destruct (_generate_alias fuel r db) as [[[a r1] db1]|] eqn:Hg; [|discriminate].
    destruct (generate_aliases fuel n r1 db1) as [[[l r2] db2]|] eqn:Hn; [|discriminate].
    intros [= <- <- <-].
    apply _generate_alias_spec in Hg as (Ha & Hfresh & Hm & _ & _).
    apply IH in Hn as (Hall & Hnew & Hnd & Hdom).
    rewrite Hm in Hnew, Hdom.
    assert (Hnotin : a ∉ l).
    { intros Hin. rewrite Forall_forall in Hnew.
      specialize (Hnew a Hin). by rewrite lookup_insert_eq in Hnew. }
    split_and!.
    + by constructor.
    + constructor; [done|].
      eapply Forall_impl; [exact Hnew|]. intros x Hx. simpl in Hx.
      destruct (decide (a = x)) as [->|Hne].
      * by rewrite lookup_insert_eq in Hx.
      * by rewrite lookup_insert_ne in Hx.
    + by constructor.
    + intros x. rewrite Hdom, elem_of_cons.
      destruct (decide (a = x)) as [->|Hne].
      * rewrite lookup_insert_eq. split; [intros _; left; by left | intros _; right; eauto].
      * rewrite lookup_insert_ne by done. intuition congruence.
Qed.

(** C8.  Every alias that [_generate_alias] returns is a string of four
    uppercase ASCII letters that was not in [probes_by_alias] before the
    call and is recorded there afterwards; hence the aliases returned by any
    run of successive calls on one database are new with respect to the
    database they started from and pairwise different. *)
Theorem generated_aliases_unique fuel n r db aliases r' db' :
  generate_aliases fuel n r db = Some (aliases, r', db') →
  Forall (fun a => is_alias a = true) aliases
  ∧ Forall (fun a => probes_by_alias db !! a = None) aliases
  ∧ NoDup aliases
  ∧ Forall (fun a => is_Some (probes_by_alias db' !! a)) aliases.
Proof.
  intros H. apply generate_aliases_spec in H as (Ha & Hnew & Hnd & Hdom).
  split_and!; try done.
  apply Forall_forall. intros a Hin. apply Hdom. by left.
Qed.

Lemma generated_aliases_unique_witness :
  generate_aliases 1 2 counting_random db_with_ABCD
    = Some (["EFGH"; "IJKL"], skip 12 counting_random,
            {| _apps := []; _app_removal_cache := [];
               probes_by_alias :=
                 <["IJKL" := None]> (<["EFGH" := None]> {[ "ABCD" := None ]}) |})
  ∧ Forall (fun a => is_alias a = true) ["EFGH"; "IJKL"]
  ∧ NoDup ["EFGH"; "IJKL"].
Proof.
  assert (H : generate_aliases 1 2 counting_random db_with_ABCD
    = Some (["EFGH"; "IJKL"], skip 12 counting_random,
            {| _apps := []; _app_removal_cache := [];
               probes_by_alias :=
                 <["IJKL" := None]> (<["EFGH" := None]> {[ "ABCD" := None ]}) |}))
    by (vm_compute; reflexivity).
  split; [exact H|].
  pose proof (generated_aliases_unique _ _ _ _ _ _ _ H) as (Ha & _ & Hnd & _).
  split; [exact Ha | exact Hnd].
Defined.

End AssessmentFacts.

(** * Properties of tasks/middleware.py *)

Module TasksFacts.
Import KnowledgeModel Tasks.

(** Whatever [update_model] does, it does to the object filed under the id
    of the component: the index of the actual state is kept, no phase is
    lowered, and any other object is left as it was. *)
Lemma update_model_frame t k k' :
  update_model t k = Ok k' →
  actual_state k' = actual_state k
  ∧ ∀ l c, objects k !! l = Some c →
      ∃ c', objects k' !! l = Some c'
        ∧ CompinPhase_value (compin_phase c) <= CompinPhase_value (compin_phase c')
        ∧ (get_compin (actual_state k) (comp_application_name (_component t))
             (comp_name (_component t)) (comp_id (_component t)) ≠ Some l → c' = c).
Proof.
  unfold update_model.
  destruct (get_compin _ _ _ _) as [l0|] eqn:Hg; [|discriminate].
  destruct (objects k !! l0) as [c0|] eqn:Hc0; [|discriminate].
  destruct (_ <? _) eqn:Hlt; intros [= <-]; (split; [done|]); intros l c Hl.
  - simpl. destruct (decide (l0 = l)) as [->|Hne].
    + rewrite lookup_insert_eq. eexists; split; [done|].
      assert (c = c0) as -> by congruence. simpl.
      apply Z.ltb_lt in Hlt. simpl in Hlt. split; [lia | congruence].
    + rewrite lookup_insert_ne by done. exists c. split_and!; [done | lia | done].
  - exists c. split_and!; [done | lia | done].
Qed.

(** The method body, on an object whose attributes are set as [__init__]
    would assign them: [update_model] of the task for instance inst-1 of
    component comp (whose id is app_comp) does not touch inst-1.  On an
    actual state that holds inst-1 in phase READY, it raises and inst-1
    stays READY; when some instance is filed under the id of the component,
    that instance is moved to FINALIZING instead and inst-1 still stays
    READY. *)
Theorem update_model_misses_instance :
  update_model finalize_inst_1 one_instance = Raise (AttributeError "phase")
  ∧ phase_of one_instance "app" "comp" "inst-1" = Some READY
  ∧ ∃ k', update_model finalize_inst_1 two_instances = Ok k'
      ∧ phase_of k' "app" "comp" "inst-1" = Some READY
      ∧ phase_of k' "app" "comp" "app_comp" = Some FINALIZING.
Proof.
  split_and!; [by vm_compute | by vm_compute |].
  eexists. split_and!; by vm_compute.
Qed.


End TasksFacts.

(** * Properties of analysis/analyzer.py *)

Module AnalysisFacts.
Import KnowledgeModel Analysis.

Lemma marks_refl h : marks h h.
Proof. intros l. by left. Qed.

Lemma marks_trans h1 h2 h3 : marks h1 h2 → marks h2 h3 → marks h1 h3.
Proof.
  intros H12 H23 l. destruct (H12 l) as [E12|E12], (H23 l) as [E23|E23];
    rewrite E23, E12; auto.
  right. by destruct (h1 !! l).
Qed.

Lemma marks_alter h d : marks h (alter set_force_keep d h).
Proof.
  intros l. destruct (decide (d = l)) as [->|Hne].
  - right. by rewrite lookup_alter_eq.
  - left. by rewrite lookup_alter_ne.
Qed.

Lemma mark_dependencies_marks deps : ∀ h, marks h (mark_dependencies deps h).
Proof.
  unfold mark_dependencies. induction deps as [|d deps IH]; intros h; simpl.
  - apply marks_refl.
  - eapply marks_trans; [apply marks_alter | apply IH].
Qed.

Lemma mark_client_marks desired h client : marks h (mark_client desired h client).
Proof.
  destruct client as [[app component] id]. unfold mark_client.
  destruct (get_compin desired app component id) as [l|]; [|apply marks_refl].
  destruct (h !! l) as [c|]; [apply mark_dependencies_marks | apply marks_refl].
Qed.

Lemma _mark_force_keep_compins_marks clients desired :
  ∀ h, marks h (_mark_force_keep_compins clients desired h).
Proof.
  unfold _mark_force_keep_compins. induction clients as [|cl clients IH]; intros h; simpl.
  - apply marks_refl.
  - eapply marks_trans; [apply mark_client_marks | apply IH].
Qed.

(** An object that is marked stays marked, and marking changes nothing but
    the marker. *)
Lemma marks_keep h h' l c :
  marks h h' → h !! l = Some c → compin_force_keep c = true → h' !! l = Some c.
Proof.
  intros Hm Hl Hk. destruct (Hm l) as [E|E]; rewrite E, Hl; [done|].
  simpl. f_equal. destruct c; simpl in *. by subst.
Qed.

Lemma marks_lookup h h' l c :
  marks h h' → h !! l = Some c →
  h' !! l = Some c ∨ h' !! l = Some (set_force_keep c).
Proof. intros Hm Hl. destruct (Hm l) as [E|E]; rewrite E, Hl; auto. Qed.

Lemma mark_dependencies_marked deps : ∀ h d c,
  d ∈ deps → h !! d = Some c →
  mark_dependencies deps h !! d = Some (set_force_keep c).
Proof.
  unfold mark_dependencies. induction deps as [|d0 deps IH]; intros h d c Hin Hd.
  - by apply elem_of_nil in Hin.
  - simpl. destruct (decide (d0 = d)) as [->|Hne].
    + eapply marks_keep; [apply mark_dependencies_marks | | done].
      by rewrite lookup_alter_eq, Hd.
    + apply elem_of_cons in Hin as [->|Hin]; [done|].
      apply IH; [done|]. by rewrite lookup_alter_ne.
Qed.

Lemma _mark_force_keep_compins_marked clients desired : ∀ h app component id l c d o,
  (app, component, id) ∈ clients →
  get_compin desired app component id = Some l →
  h !! l = Some c →
  d ∈ compin_dependencies c →
  h !! d = Some o →
  _mark_force_keep_compins clients desired h !! d = Some (set_force_keep o).
Proof.
  unfold _mark_force_keep_compins.
  induction clients as [|cl clients IH]; intros h app component id l c d o Hin Hg Hl Hd Ho.
  - by apply elem_of_nil in Hin.
  - simpl. apply elem_of_cons in Hin as [<-|Hin].
    + eapply marks_keep; [apply _mark_force_keep_compins_marks | | done].
      unfold mark_client. rewrite Hg, Hl. by apply mark_dependencies_marked.
    + pose proof (mark_client_marks desired h cl) as Hm.
      destruct (marks_lookup _ _ _ _ Hm Hl) as [El|El],
               (marks_lookup _ _ _ _ Hm Ho) as [Eo|Eo].
      * exact (IH _ app component id l c d o Hin Hg El Hd Eo).
      * rewrite (IH _ app component id l c d _ Hin Hg El Hd Eo). by destruct o.
      * exact (IH _ app component id l (set_force_keep c) d o Hin Hg El Hd Eo).
      * rewrite (IH _ app component id l (set_force_keep c) d _ Hin Hg El Hd Eo).
        by destruct o.
Qed.

(** C6.  In the state that [find_new_assignment] returns, every new client
    that the state holds keeps its list of dependencies, and every object on
    that list is marked force_keep after the call (and is otherwise as it
    was). *)
Theorem find_new_assignment_force_keep c a k desired a' k' :
  find_new_assignment c a k = (desired, a', k') →
  ∀ app component id l client,
    (app, component, id) ∈ new_clients c →
    get_compin desired app component id = Some l →
    objects k !! l = Some client →
    (∃ client', objects k' !! l = Some client'
       ∧ compin_dependencies client' = compin_dependencies client)
    ∧ ∀ d o, d ∈ compin_dependencies client → objects k !! d = Some o →
        ∃ o', objects k' !! d = Some o'
          ∧ compin_force_keep o' = true
          ∧ o' = set_force_keep o.
Proof.
  unfold find_new_assignment.
  destruct (match solver_result c with
            | None => longterm_fallback c a
            | Some d => (Some d, a)
            end) as [ds a1].
  intros [= <- <- <-] app component id l client Hin Hg Hl. simpl.
  set (desired := match ds with Some d => d | None => _last_desired_state a1 end) in *.
  split.
  - destruct (marks_lookup _ _ _ _
                (_mark_force_keep_compins_marks (new_clients c) desired (objects k)) Hl)
      as [E|E]; rewrite E; eauto.
  - intros d o Hd Ho. exists (set_force_keep o). split_and!; [|done|done].
    eapply _mark_force_keep_compins_marked; eauto.
Qed.

Lemma find_new_assignment_force_keep_witness :
  ∃ o', objects (snd (find_new_assignment new_client_cycle Analyzer_init client_server))
          !! 1%nat = Some o'
        ∧ compin_id o' = "srv"
        ∧ compin_force_keep o' = true.
Proof.
  destruct (find_new_assignment new_client_cycle Analyzer_init client_server)
    as [[desired a'] k'] eqn:E.
  assert (Hd : desired = client_server_state) by (by injection E).
  destruct (find_new_assignment_force_keep _ _ _ _ _ _ E
              "app" "client" "cl" 0%nat
              {| compin_id := "cl"; compin_managed := false;
                 compin_phase := READY; compin_force_keep := false;
                 compin_dependencies := [1%nat] |})
    as [_ H].
  - simpl. constructor.
  - rewrite Hd. by vm_compute.
  - by vm_compute.
  - destruct (H 1%nat {| compin_id := "srv"; compin_managed := true;
                         compin_phase := READY; compin_force_keep := false;
                         compin_dependencies := [] |})
      as (o' & Ho' & Hk & ->).
    + simpl. constructor.
    + by vm_compute.
    + exists (set_force_keep
                {| compin_id := "srv"; compin_managed := true;
                   compin_phase := READY; compin_force_keep := false;
                   compin_dependencies := [] |}).
      split_and!; [exact Ho' | reflexivity | reflexivity].
Defined.

(** C3 (amended).  When the solver returns no solution: with no long-term
    search running, exactly one search is handed to the pool, its future is
    kept, and the call returns the last desired state (the empty CloudState
    of the constructor when no call has stored one); with a search running
    whose result is ready, the future is dropped and its result is returned
    when it is a state, the last desired state otherwise; with a search
    running that is not ready, nothing is spawned, the future is kept and
    the last desired state is returned.  In each case the returned state is
    stored as the last desired state. *)
Theorem find_new_assignment_no_solution c a k :
  solver_result c = None →
  let desired := fst (fst (find_new_assignment c a k)) in
  let a' := snd (fst (find_new_assignment c a k)) in
  _last_desired_state a' = desired
  ∧ _last_desired_state Analyzer_init = CloudState_init
  ∧ match _longterm_result_future a with
    | None =>
        _pool a' = S (_pool a)
        ∧ is_Some (_longterm_result_future a')
        ∧ desired = _last_desired_state a
    | Some f =>
        _pool a' = _pool a
        ∧ if future_ready c
          then _longterm_result_future a' = None
               ∧ desired = default (_last_desired_state a) (future_get c)
          else _longterm_result_future a' = Some f
               ∧ desired = _last_desired_state a
    end.
Proof.
  intros Hs. unfold find_new_assignment, longterm_fallback. rewrite Hs.
  destruct (_longterm_result_future a) as [f|] eqn:Hf.
  - destruct (future_ready c); simpl.
    + by destruct (future_get c).
    + done.
  - simpl. split_and!; eauto.
Qed.

Lemma find_new_assignment_no_solution_witness :
  let a' := snd (fst (find_new_assignment no_solution Analyzer_init Tasks.one_instance)) in
  _pool a' = 1%nat ∧ is_Some (_longterm_result_future a').
Proof.
  pose proof (find_new_assignment_no_solution no_solution Analyzer_init
                Tasks.one_instance eq_refl) as (_ & _ & Hp & Hf & _).
  split; [exact Hp | exact Hf].
Defined.

(** C3 as stated does not hold: on a fresh analyzer (no previous desired
    state) with an instance in the actual state and no solution from the
    solver, the call returns the empty CloudState and not the actual state. *)
Lemma find_new_assignment_not_actual_state :
  solver_result no_solution = None
  ∧ _longterm_result_future Analyzer_init = None
  ∧ fst (fst (find_new_assignment no_solution Analyzer_init Tasks.one_instance))
      = CloudState_init
  ∧ fst (fst (find_new_assignment no_solution Analyzer_init Tasks.one_instance))
      ≠ actual_state Tasks.one_instance.
Proof.
  split_and!; try reflexivity.
  intros H. apply (f_equal (fun m => m !! ("app", "comp", "inst-1"))) in H.
  vm_compute in H. discriminate.
Qed.

End AnalysisFacts.

(** * Properties of aggregator/performance_data_aggregator.py *)

Module AggregatorFacts.
Import KnowledgeModel Aggregator.

(** ** Loops that may raise *)

Lemma result_mapM_Ok {A B : Type} (f : A → result B) l ys :
  result_mapM f l = Ok ys → Forall2 (fun x y => f x = Ok y) l ys.
Proof.
  revert ys. induction l as [|x l IH]; intros ys; simpl.
  - intros [= <-]. constructor.
  - destruct (f x) as [y|e] eqn:Hx; [|discriminate].
    destruct (result_mapM f l) as [ys'|e]; [|discriminate].
    intros [= <-]. constructor; auto.
Qed.

Lemma result_mapM_total {A B : Type} (f : A → result B) l :
  (∀ x, x ∈ l → ∃ y, f x = Ok y) → ∃ ys, result_mapM f l = Ok ys.
Proof.
  induction l as [|x l IH]; intros H; simpl; [eauto|].
  destruct (H x) as [y ->]; [by left|].
  destruct IH as [ys ->]; [|eauto].
  intros z Hz. apply H. by right.
Qed.

Lemma fmap_Ok {A B : Type} (f : A → B) (m : result A) b :
  f <$> m = Ok b → ∃ a, m = Ok a ∧ b = f a.
Proof. destruct m as [a|e]; [|discriminate]. intros [= <-]. eauto. Qed.

Lemma elem_of_concat {A : Type} (x : A) (ls : list (list A)) :
  x ∈ concat ls ↔ ∃ l, l ∈ ls ∧ x ∈ l.
Proof.
  rewrite list_elem_of_In, in_concat. split; intros (l & H1 & H2); exists l;
    by rewrite ?list_elem_of_In in *.
Qed.

Lemma Forall2_elem_of_r {A B : Type} (P : A → B → Prop) l k y :
  Forall2 P l k → y ∈ k → ∃ x, x ∈ l ∧ P x y.
Proof.
  induction 1 as [|x y' l k HP _ IH]; intros Hy.
  - by apply elem_of_nil in Hy.
  - apply elem_of_cons in Hy as [->|Hy].
    + exists x. split; [by left | done].
    + destruct (IH Hy) as (x' & ? & ?). exists x'. split; [by right | done].
Qed.

(** ** _generate_combinations *)

Lemma generate_probe_combinations_spec probes : ∀ size combination x,
  x ∈ generate_probe_combinations probes size combination →
  ∃ b, x = combination ++ b
       ∧ Z.of_nat (length x) = size
       ∧ ∀ p, p ∈ b → p ∈ probes.
Proof.
  induction probes as [|p probes IH]; intros size combination x; simpl;
    destruct (Z.of_nat (length combination) =? size) eqn:Hlen.
  - intros ->%list_elem_of_singleton. exists []. rewrite app_nil_r.
    apply Z.eqb_eq in Hlen. split_and!; [done | done |]. intros q Hq.
    by apply elem_of_nil in Hq.
  - intros H. by apply elem_of_nil in H.
  - intros ->%list_elem_of_singleton. exists []. rewrite app_nil_r.
    apply Z.eqb_eq in Hlen. split_and!; [done | done |]. intros q Hq.
    by apply elem_of_nil in Hq.
  - intros (i & Hx & _)%list_elem_of_bind.
    destruct (Z.of_nat (length combination + i) <=? size);
      [|by apply elem_of_nil in Hx].
    apply IH in Hx as (b & -> & Hsize & Hb).
    exists (repeat p i ++ b). split_and!; [by rewrite <- app_assoc | done |].
    intros q [Hq|Hq]%elem_of_app.
    + apply list_elem_of_In, repeat_spec in Hq as ->. by left.
    + right. by apply Hb.
Qed.

Lemma generate_component_combinations_spec pbc main_component cs :
  ∀ combination l x,
  generate_component_combinations pbc cs combination main_component = Ok l →
  x ∈ l →
  ∃ blocks, x = combination ++ concat blocks
            ∧ Forall2 (block_ok pbc main_component) cs blocks.
Proof.
  induction cs as [|[component count] rest IH]; intros combination l x; simpl.
  - intros [= <-] ->%list_elem_of_singleton. exists []. simpl.
    rewrite app_nil_r. split; [done | constructor].
  - destruct (pbc !! component) as [probes|] eqn:Hp; [|discriminate].
    intros (ls & Hm & ->)%fmap_Ok (l' & Hl' & Hx)%elem_of_concat.
    apply result_mapM_Ok in Hm.
    destruct (Forall2_elem_of_r _ _ _ _ Hm Hl') as (pc & Hpc & Hrec).
    apply generate_probe_combinations_spec in Hpc as (b & -> & Hlen & Hb).
    destruct (IH _ _ _ Hrec Hx) as (blocks & -> & Hblocks).
    exists (b :: blocks). simpl. rewrite <- app_assoc. split; [done|].
    constructor; [|done]. split; [exact Hlen|]. simpl. eauto.
Qed.

Lemma generate_component_combinations_total pbc main_component cs :
  (∀ c, c ∈ dict_keys cs → is_Some (pbc !! c)) →
  ∀ combination,
  ∃ l, generate_component_combinations pbc cs combination main_component = Ok l.
Proof.
  induction cs as [|[component count] rest IH]; intros Hreg combination; simpl; [eauto|].
  destruct (Hreg component) as [probes ->]; [by left|].
  edestruct (result_mapM_total
    (fun probe_combination =>
       generate_component_combinations pbc rest
         (combination ++ probe_combination) main_component)) as [ys ->].
  - intros pc _. apply IH. intros c Hc. apply Hreg. by right.
  - simpl. eauto.
Qed.

(** The blocks of one combination add up to the counts, less one for the
    main component when it is a key. *)
Lemma blocks_length_other pbc main_component cs blocks :
  Forall2 (block_ok pbc main_component) cs blocks →
  main_component ∉ dict_keys cs →
  Z.of_nat (length (concat blocks)) = total_count cs.
Proof.
  induction 1 as [|[c n] b cs blocks [Hlen _] _ IH]; intros Hnotin; simpl; [done|].
  rewrite length_app, Nat2Z.inj_add, Hlen, IH.
  - simpl. destruct (String.eqb_spec c main_component) as [->|Hne]; [|done].
    exfalso. apply Hnotin. by left.
  - intros Hin. apply Hnotin. by right.
Qed.

Lemma blocks_length_main pbc main_component cs blocks :
  Forall2 (block_ok pbc main_component) cs blocks →
  NoDup (dict_keys cs) →
  main_component ∈ dict_keys cs →
  Z.of_nat (length (concat blocks)) = total_count cs - 1.
Proof.
  induction 1 as [|[c n] b cs blocks [Hlen _] Hrest IH]; intros Hnd Hin; simpl.
  - by apply elem_of_nil in Hin.
  - simpl in Hnd. apply NoDup_cons in Hnd as [Hc Hnd].
    rewrite length_app, Nat2Z.inj_add, Hlen. simpl.
    destruct (String.eqb_spec c main_component) as [->|Hne].
    + rewrite (blocks_length_other _ _ _ _ Hrest Hc). lia.
    + apply elem_of_cons in Hin as [->|Hin]; [done|].
      rewrite (IH Hnd Hin). lia.
Qed.

Lemma combinations_with_main_spec pbc assignment component l x :
  combinations_with_main pbc assignment component = Ok l →
  x ∈ l →
  ∃ probes probe_id blocks,
    pbc !! component = Some probes
    ∧ probe_id ∈ probes
    ∧ x = probe_id :: concat blocks
    ∧ Forall2 (block_ok pbc component) assignment blocks.
Proof.
  unfold combinations_with_main.
  destruct (generate_component_combinations pbc assignment [] component)
    as [fulls|e] eqn:Hf; [|discriminate].
  simpl. intros (ls & Hm & ->)%fmap_Ok (l' & Hl' & Hx)%elem_of_concat.
  apply result_mapM_Ok in Hm.
  destruct (Forall2_elem_of_r _ _ _ _ Hm Hl') as (full & Hfull & Hrec).
  destruct (pbc !! component) as [probes|] eqn:Hp; [|discriminate].
  injection Hrec as <-.
  apply list_elem_of_fmap in Hx as (probe_id & -> & Hprobe).
  destruct (generate_component_combinations_spec _ _ _ _ _ _ Hf Hfull)
    as (blocks & -> & Hblocks).
  exists probes, probe_id, blocks. done.
Qed.

Lemma combinations_with_main_total pbc assignment component :
  (∀ c, c ∈ dict_keys assignment → is_Some (pbc !! c)) →
  component ∈ dict_keys assignment →
  ∃ l, combinations_with_main pbc assignment component = Ok l.
Proof.
  intros Hreg Hin. unfold combinations_with_main.
  destruct (generate_component_combinations_total pbc component assignment Hreg [])
    as [fulls ->].
  simpl. destruct (Hreg component Hin) as [probes ->].
  edestruct (result_mapM_total
    (fun full_combination : list string =>
       Ok (map (fun probe_id => probe_id :: full_combination) probes)))
    as [ys ->]; [eauto|]. simpl. eauto.
Qed.

(** C2.  For an assignment whose components are registered,
    [_generate_combinations] yields its list of combinations, and every
    combination in it has as many probe ids as the counts add up to, starts
    with a probe of the main component chosen for it, and continues with one
    block per component in the order of the assignment: the block of a
    component is drawn from the probe set of that component and has the
    length of its count, less one for the main component. *)
Theorem _generate_combinations_shape pbc assignment :
  NoDup (dict_keys assignment) →
  (∀ c, c ∈ dict_keys assignment → is_Some (pbc !! c)) →
  ∃ l, _generate_combinations pbc assignment = Ok l
    ∧ ∀ x, x ∈ l →
        Z.of_nat (length x) = total_count assignment
        ∧ ∃ main_component probes probe_id blocks,
            main_component ∈ dict_keys assignment
            ∧ pbc !! main_component = Some probes
            ∧ probe_id ∈ probes
            ∧ x = probe_id :: concat blocks
            ∧ Forall2 (block_ok pbc main_component) assignment blocks.
Proof.
  intros Hnd Hreg. unfold _generate_combinations.
  destruct (result_mapM_total (combinations_with_main pbc assignment)
              (dict_keys assignment)) as [ls Hls].
  { intros c Hc. by apply combinations_with_main_total. }
  rewrite Hls. simpl. eexists; split; [done|].
  intros x (l' & Hl' & Hx)%elem_of_concat.
  apply result_mapM_Ok in Hls.
  destruct (Forall2_elem_of_r _ _ _ _ Hls Hl') as (main_component & Hmain & Hrec).
  destruct (combinations_with_main_spec _ _ _ _ _ Hrec Hx)
    as (probes & probe_id & blocks & Hp & Hprobe & -> & Hblocks).
  split.
  - simpl length. rewrite Nat2Z.inj_succ.
    rewrite (blocks_length_main _ _ _ _ Hblocks Hnd Hmain). lia.
  - exists main_component, probes, probe_id, blocks. done.
Qed.

Lemma _generate_combinations_shape_witness :
  _generate_combinations two_components [("c", 1); ("d", 2)]
    = Ok [["A"; "X"; "X"]; ["B"; "X"; "X"]; ["X"; "B"; "X"]; ["X"; "A"; "X"]]
  ∧ Z.of_nat (length ["X"; "B"; "X"]) = total_count [("c", 1); ("d", 2)].
Proof.
  assert (Hnd : NoDup (dict_keys [("c", 1); ("d", 2)])).
  { simpl. apply (bool_decide_unpack _). by vm_compute. }
  assert (Hreg : ∀ c, c ∈ dict_keys [("c", 1); ("d", 2)] → is_Some (two_components !! c)).
  { intros c Hc. simpl in Hc.
    apply elem_of_cons in Hc as [->|Hc]; [by eexists; vm_compute|].
    apply list_elem_of_singleton in Hc as ->. by eexists; vm_compute. }
  destruct (_generate_combinations_shape two_components [("c", 1); ("d", 2)] Hnd Hreg)
    as (l & Hl & Hshape).
  assert (Hl' : _generate_combinations two_components [("c", 1); ("d", 2)]
    = Ok [["A"; "X"; "X"]; ["B"; "X"; "X"]; ["X"; "B"; "X"]; ["X"; "A"; "X"]])
    by (by vm_compute).
  split; [exact Hl'|].
  rewrite Hl' in Hl. injection Hl as <-.
  apply Hshape. do 2 right. left.
Defined.

(** ** Predict *)




(** C7.  For a ThroughputContract requirement, the prediction that [Predict]
    computes is true exactly when the mean is at most the contract's
    mean_request_time: the stored mean of the measurement on the isolation
    path, the predicted mean of the combination on the statistical path. *)
Theorem predict_requirement_throughput self hw_id combination measurement measured
    mean_request_time :
  predict_requirement self hw_id combination measurement measured
    (ThroughputContract mean_request_time) = true
  ↔ ((if measured
      then mean_running_time (_single_process_predictor self) measurement
      else mp_mean_request_time (_predictor self) hw_id combination)
     <= inject_Z mean_request_time)%Q.
Proof.
  unfold predict_requirement, predict_throughput, mp_predict_throughput.
  destruct measured; apply Qle_bool_iff.
Qed.

Lemma _generate_combinations_nonempty pbc assignment l x :
  _generate_combinations pbc assignment = Ok l → x ∈ l → x ≠ [].
Proof.
  unfold _generate_combinations.
  intros (ls & Hm & ->)%fmap_Ok (l' & Hl' & Hx)%elem_of_concat.
  apply result_mapM_Ok in Hm.
  destruct (Forall2_elem_of_r _ _ _ _ Hm Hl') as (main_component & _ & Hrec).
  destruct (combinations_with_main_spec _ _ _ _ _ Hrec Hx)
    as (probes & probe_id & blocks & _ & _ & -> & _).
  discriminate.
Qed.

(** The loop of [Predict] with statistical prediction disabled: it ends at
    the first combination that has no measurement or does not pass. *)
Lemma predict_loop_stops cfg self hw combinations :
  STATISTICAL_PREDICTION_ENABLED cfg = false →
  (∀ x, x ∈ combinations → x ≠ []) →
  (∀ x probe_id, x ∈ combinations → combination_measured self hw x = true →
     head x = Some probe_id → is_Some (_probes_by_id self !! probe_id)) →
  (∃ c, c ∈ combinations ∧ combination_measured self hw c = false) →
  ∃ l1 c' l2 probe_id,
    combinations = l1 ++ c' :: l2
    ∧ head c' = Some probe_id
    ∧ Forall (fun x => combination_measured self hw x = true
                       ∧ combination_passes self hw x = true) l1
    ∧ (combination_measured self hw c' = false
       ∨ combination_passes self hw c' = false)
    ∧ predict_loop cfg self hw combinations
      = Ok (false, increase_count hw probe_id (length c') self).
Proof.
  intros Hstat. induction combinations as [|x rest IH]; intros Hne Hknown (c & Hc & Hmiss).
  - by apply elem_of_nil in Hc.
  - destruct x as [|probe_id x']; [by destruct (Hne [] ltac:(by left))|].
    cbn [predict_loop]. rewrite Hstat. cbn [negb andb].
    fold (combination_measured self hw (probe_id :: x')).
    destruct (combination_measured self hw (probe_id :: x')) eqn:Hmeas; cbn [negb].
    + destruct (Hknown (probe_id :: x') probe_id ltac:(by left) Hmeas eq_refl)
        as [probe Hprobe].
      rewrite Hprobe.
      destruct (forallb _ (probe_requirements probe)) eqn:Hpass.
      * destruct IH as (l1 & c' & l2 & pid & -> & Hhd & Hl1 & Hc' & Hloop).
        { intros y Hy. apply Hne. by right. }
        { intros y pid Hy. apply Hknown. by right. }
        { apply elem_of_cons in Hc as [->|Hc]; [congruence|]. eauto. }
        exists ((probe_id :: x') :: l1), c', l2, pid. split_and!; try done.
        constructor; [|done]. split; [done|].
        unfold combination_passes. by rewrite Hprobe, Hmeas.
      * exists [], (probe_id :: x'), rest, probe_id. split_and!; try done.
        right. unfold combination_passes. by rewrite Hprobe, Hmeas.
    + exists [], (probe_id :: x'), rest, probe_id. split_and!; try done. by left.
Qed.

(** C4 (amended).  For a request that is not the single-instance
    default-hardware case, with statistical prediction disabled, registered
    components and known controlled probes: if some generated combination
    has no recorded measurement, [Predict] returns false and requests exactly
    one scenario, for the first combination in generation order that has no
    measurement or whose controlled probe fails a requirement on its stored
    measurement (the controlled probe and the size are those of that
    combination). *)
Theorem Predict_missing_measurement cfg request self hw assignment combinations c :
  STATISTICAL_PREDICTION_ENABLED cfg = false →
  single_default_instance cfg request = false →
  assignment_from_pb self request = Ok (hw, assignment) →
  _generate_combinations (_probes_by_component self) assignment = Ok combinations →
  (∀ x probe_id, x ∈ combinations → combination_measured self hw x = true →
     head x = Some probe_id → is_Some (_probes_by_id self !! probe_id)) →
  c ∈ combinations →
  combination_measured self hw c = false →
  ∃ l1 c' l2 probe_id,
    combinations = l1 ++ c' :: l2
    ∧ head c' = Some probe_id
    ∧ Forall (fun x => combination_measured self hw x = true
                       ∧ combination_passes self hw x = true) l1
    ∧ (combination_measured self hw c' = false
       ∨ combination_passes self hw c' = false)
    ∧ Predict cfg request self
      = Ok (false, increase_count hw probe_id (length c') self).
Proof.
  intros Hstat Hsingle Hasg Hgen Hknown Hc Hmiss.
  unfold Predict. rewrite Hsingle, Hasg. simpl. rewrite Hgen. simpl.
  apply predict_loop_stops; eauto.
  intros x Hx. eapply _generate_combinations_nonempty; eauto.
Qed.

Lemma Predict_missing_measurement_witness :
  ∃ probe_id n,
    Predict settings (request 2) (registered {[ "app_c" := ["A"; "B"] ]})
      = Ok (false, increase_count "hw0" probe_id n
                     (registered {[ "app_c" := ["A"; "B"] ]})).
Proof.
  destruct (Predict_missing_measurement settings (request 2)
              (registered {[ "app_c" := ["A"; "B"] ]}) "hw0" [("app_c", 2)]
              [["A"; "B"]; ["B"; "B"]; ["A"; "A"]; ["B"; "A"]] ["B"; "B"])
    as (l1 & c' & l2 & probe_id & _ & _ & _ & _ & H).
  - reflexivity.
  - reflexivity.
  - by vm_compute.
  - by vm_compute.
  - intros x probe_id Hx _ Hhd.
    repeat (apply elem_of_cons in Hx as [->|Hx];
            [injection Hhd as <-; eexists; by vm_compute|]).
    by apply elem_of_nil in Hx.
  - right. left.
  - by vm_compute.
  - exists probe_id, (length c'). exact H.
Defined.

(** C4 as stated does not hold: with hw0-A-B measured and failing the
    contract of probe A, and the combinations B-B and B-A not measured,
    [Predict] requests a scenario for controlled probe A, which is the
    controlled probe of no combination that lacks a measurement. *)
Lemma Predict_requests_measured_combination :
  let self := registered {[ "app_c" := ["A"; "B"] ]} in
  STATISTICAL_PREDICTION_ENABLED settings = false
  ∧ single_default_instance settings (request 2) = false
  ∧ _generate_combinations (_probes_by_component self) [("app_c", 2)]
      = Ok [["A"; "B"]; ["B"; "B"]; ["A"; "A"]; ["B"; "A"]]
  ∧ combination_measured self "hw0" ["B"; "B"] = false
  ∧ Forall (fun c => combination_measured self "hw0" c = false → head c ≠ Some "A")
      [["A"; "B"]; ["B"; "B"]; ["A"; "A"]; ["B"; "A"]]
  ∧ Predict settings (request 2) self = Ok (false, increase_count "hw0" "A" 2 self).
Proof.
  split_and!; try by vm_compute.
  repeat constructor; vm_compute; congruence.
Qed.

(** ** JudgeApp *)

Lemma find_app_first {A : Type} (f : A → bool) l1 l2 :
  List.find f (l1 ++ l2)
  = match List.find f l1 with Some x => Some x | None => List.find f l2 end.
Proof. induction l1 as [|x l1 IH]; simpl; [done|]. by destruct (f x). Qed.

Lemma last_bound_app probe l1 l2 :
  last_bound probe (l1 ++ l2) = last_bound (last_bound probe l1) l2.
Proof. unfold last_bound. rewrite last_app. by destruct (last l2), (last l1). Qed.

Lemma judge_probes_spec cfg self probes : ∀ probe,
  judge_probes cfg self probes probe
  = match first_offender cfg self probes with
    | Some p => Return (if probe_measured cfg self p then REJECTED else NEEDS_DATA)
    | None => Continue (last_bound probe probes)
    end.
Proof.
  unfold first_offender.
  induction probes as [|p rest IH]; intros probe; [done|].
  cbn [judge_probes List.find]. unfold probe_passes at 1.
  fold (isolation_name cfg self p). fold (probe_measured cfg self p).
  destruct (probe_measured cfg self p) eqn:Hm; cbn [negb andb]; [|by rewrite Hm].
  destruct (forallb _ (probe_requirements p)); cbn [negb]; [|by rewrite Hm].
  rewrite IH. destruct (List.find _ rest); [done|].
  f_equal. unfold last_bound. rewrite last_cons. by destruct (last rest).
Qed.

Lemma judge_components_spec cfg self cs : ∀ probe,
  judge_components cfg self cs probe
  = match first_offender cfg self (concat (map comp_probes cs)) with
    | Some p => Return (if probe_measured cfg self p then REJECTED else NEEDS_DATA)
    | None => Continue (last_bound probe (concat (map comp_probes cs)))
    end.
Proof.
  induction cs as [|c cs IH]; intros probe; [done|].
  cbn [judge_components map concat]. rewrite judge_probes_spec.
  unfold first_offender in *. rewrite find_app_first.
  destruct (List.find _ (comp_probes c)); [done|].
  rewrite IH, last_bound_app. done.
Qed.

(** The verdict of [JudgeApp] is the one of the first offending probe. *)
Lemma JudgeApp_scan cfg app self :
  JudgeApp cfg app self
  = match applications self !! app_name app with
    | None => Ok (NEEDS_DATA, self)
    | Some _ =>
        match first_offender cfg self (all_probes app) with
        | Some p =>
            Ok (if probe_measured cfg self p then REJECTED else NEEDS_DATA, self)
        | None =>
            if app_is_complete app
            then accept app (last (all_probes app)) self
            else Ok (MEASURED, self)
        end
    end.
Proof.
  unfold JudgeApp, all_probes. destruct (applications self !! app_name app); [|done].
  rewrite judge_components_spec.
  destruct (first_offender _ _ _); [done|].
  destruct (app_is_complete app); [|done]. cbn [negb].
  unfold last_bound. by destruct (last _).
Qed.

Lemma reregister_probes_single cid probes : ∀ pbc pbi probe s,
  (∀ p, p ∈ probes →
     probe_component_id p = cid ∧ is_Some (pbi !! probe_alias p)) →
  pbc !! cid = Some s →
  reregister_probes probes pbc pbi probe
  = Ok (<[cid := foldl (fun s p => set_add (probe_alias p) s) s probes]> pbc,
        foldl (fun m p => <[probe_alias p := p]> m) pbi probes,
        last_bound probe probes).
Proof.
  induction probes as [|p rest IH]; intros pbc pbi probe s Hwf Hs.
  - simpl. by rewrite insert_id.
  - cbn [reregister_probes foldl].
    destruct (Hwf p ltac:(by left)) as [Hcid [q Hq]]. rewrite Hq, Hcid, Hs.
    rewrite (IH _ _ _ (set_add (probe_alias p) s)).
    + rewrite insert_insert_eq. do 2 f_equal.
      unfold last_bound. rewrite last_cons. by destruct (last rest).
    + intros p' Hp'. destruct (Hwf p' ltac:(by right)) as [? ?]. split; [done|].
      destruct (decide (probe_alias p = probe_alias p')) as [->|Hne].
      * rewrite lookup_insert_eq. eauto.
      * by rewrite lookup_insert_ne.
    + by rewrite lookup_insert_eq.
Qed.

Lemma accept_single_component app k c self :
  app_components app = [(k, c)] →
  comp_probes c ≠ [] →
  (∀ p, p ∈ comp_probes c →
     probe_component_id p = comp_id c
     ∧ is_Some (_probes_by_id self !! probe_alias p)) →
  accept app (last (all_probes app)) self = Ok (ACCEPTED, reregistered app c self).
Proof.
  intros Hcs Hne Hwf. unfold accept, all_probes. rewrite Hcs.
  cbn [dict_values map snd concat]. rewrite app_nil_r.
  destruct (last (comp_probes c)) as [stale|] eqn:Hlast;
    [|by apply last_None in Hlast].
  cbn [reregister_components].
  assert (Hstale : probe_component_id stale = comp_id c).
  { apply Hwf. apply last_Some in Hlast as [l' ->]. apply elem_of_app. right. by left. }
  rewrite Hstale.
  rewrite (reregister_probes_single (comp_id c) _ _ _ _ [] Hwf)
    by (by rewrite lookup_insert_eq).
  simpl. rewrite insert_insert_eq. done.
Qed.

(** X30.  [JudgeApp] returns NEEDS_DATA for an application that is
    not registered.  Otherwise it goes through the probes of the components
    in order and the first probe that lacks an isolation measurement at the
    default hardware id, or has a requirement that fails its isolation
    prediction, decides: NEEDS_DATA when it lacks the measurement, REJECTED
    when it is measured.  When there is no such probe, the verdict is
    MEASURED for an application that is not complete, and otherwise the
    re-registration runs and ACCEPTED is returned when it completes; it
    completes for an application with one component that has at least one
    probe, all probes known by alias, and then every probe is stored under
    its alias and the probe set of the component holds the aliases. *)
Theorem JudgeApp_verdict cfg app self :
  JudgeApp cfg app self
  = match applications self !! app_name app with
    | None => Ok (NEEDS_DATA, self)
    | Some _ =>
        match first_offender cfg self (all_probes app) with
        | Some p =>
            Ok (if probe_measured cfg self p then REJECTED else NEEDS_DATA, self)
        | None =>
            if app_is_complete app
            then accept app (last (all_probes app)) self
            else Ok (MEASURED, self)
        end
    end
  ∧ ∀ k c,
      is_Some (applications self !! app_name app) →
      first_offender cfg self (all_probes app) = None →
      app_is_complete app = true →
      app_components app = [(k, c)] →
      comp_probes c ≠ [] →
      (∀ p, p ∈ comp_probes c →
         probe_component_id p = comp_id c
         ∧ is_Some (_probes_by_id self !! probe_alias p)) →
      JudgeApp cfg app self = Ok (ACCEPTED, reregistered app c self).
Proof.
  split; [apply JudgeApp_scan|].
  intros k c [a Ha] Hnone Hcomplete Hcs Hne Hwf.
  rewrite JudgeApp_scan, Ha, Hnone, Hcomplete.
  by eapply accept_single_component.
Qed.

Lemma JudgeApp_verdict_witness :
  JudgeApp settings (application [probe_A 10] true) (registered ∅)
  = Ok (ACCEPTED,
        reregistered (application [probe_A 10] true) (component_c [probe_A 10])
          (registered ∅)).
Proof.
  apply (proj2 (JudgeApp_verdict settings (application [probe_A 10] true)
                  (registered ∅)) "c" (component_c [probe_A 10])).
  - eexists. by vm_compute.
  - by vm_compute.
  - reflexivity.
  - reflexivity.
  - discriminate.
  - intros p Hp. apply list_elem_of_singleton in Hp as ->.
    split; [reflexivity|]. eexists. by vm_compute.
Defined.

(** C1.  The comment above the loop of [JudgeApp] has all isolation
    measurements finished before the application is judged, but the loop
    judges each probe as soon as it has seen its measurement: for a
    registered application whose first probe is measured and fails its
    contract and whose second probe has no isolation measurement,
    [JudgeApp] returns REJECTED, not NEEDS_DATA. *)
Lemma JudgeApp_rejects_before_missing_data :
  let app := application [probe_A 1; probe_B] true in
  is_Some (applications (registered ∅) !! app_name app)
  ∧ probe_B ∈ all_probes app
  ∧ probe_measured settings (registered ∅) probe_B = false
  ∧ JudgeApp settings app (registered ∅) = Ok (REJECTED, registered ∅)
  ∧ JudgeApp settings app (registered ∅) ≠ Ok (NEEDS_DATA, registered ∅).
Proof.
  assert (H : JudgeApp settings (application [probe_A 1; probe_B] true) (registered ∅)
              = Ok (REJECTED, registered ∅)) by (by vm_compute).
  split_and!.
  - eexists. by vm_compute.
  - simpl. right. left.
  - by vm_compute.
  - exact H.
  - rewrite H. discriminate.
Qed.

End AggregatorFacts.

(** * More on assessment/model.py: the life of an application *)

Module DatabaseFacts.
Import Assessment.

(** ** Insertion-ordered dictionaries *)

Lemma dict_get_set_eq {V : Type} k (v : V) d : dict_get k (dict_set k v d) = Some v.
Proof.
  induction d as [|[k' v'] d IH]; simpl.
  - by rewrite String.eqb_refl.
  - destruct (String.eqb k k') eqn:E; simpl; rewrite ?String.eqb_refl, ?E; done.
Qed.

Lemma dict_get_set_ne {V : Type} k k' (v : V) d :
  k' ≠ k → dict_get k' (dict_set k v d) = dict_get k' d.
Proof.
  intros Hne. induction d as [|[k0 v0] d IH]; simpl.
  - destruct (String.eqb k' k) eqn:E; [|done]. by apply String.eqb_eq in E.
  - destruct (String.eqb k k0) eqn:E; simpl.
    + apply String.eqb_eq in E as <-.
      destruct (String.eqb k' k) eqn:E'; [|done]. by apply String.eqb_eq in E'.
    + by rewrite IH.
Qed.

Lemma dict_get_del_eq {V : Type} k (d : list (string * V)) :
  dict_get k (dict_del k d) = None.
Proof.
  unfold dict_del. induction d as [|[k' v'] d IH]; simpl; [done|].
  destruct (String.eqb k k') eqn:E; simpl; [done|]. by rewrite E.
Qed.

Lemma dict_get_del_ne {V : Type} k k' (d : list (string * V)) :
  k' ≠ k → dict_get k' (dict_del k d) = dict_get k' d.
Proof.
  intros Hne. unfold dict_del. induction d as [|[k0 v0] d IH]; simpl; [done|].
  destruct (String.eqb k k0) eqn:E; simpl.
  - apply String.eqb_eq in E as <-.
    destruct (String.eqb k' k) eqn:E'; [|done]. by apply String.eqb_eq in E'.
  - by rewrite IH.
Qed.

Lemma dict_get_elem_of {V : Type} k (v : V) d : dict_get k d = Some v → (k, v) ∈ d.
Proof.
  induction d as [|[k' v'] d IH]; simpl; [done|].
  destruct (String.eqb k k') eqn:E.
  - apply String.eqb_eq in E as <-. intros [= <-]. by left.
  - intros H. right. auto.
Qed.

Lemma elem_of_dict_set {V : Type} k (v : V) d k' v' :
  (k', v') ∈ dict_set k v d → (k', v') = (k, v) ∨ (k', v') ∈ d.
Proof.
  induction d as [|[k0 v0] d IH]; simpl.
  - intros H. apply list_elem_of_singleton in H. by left.
  - destruct (String.eqb k k0) eqn:E.
    + intros H. apply elem_of_cons in H as [H|H]; [by left|]. right. by right.
    + intros H. apply elem_of_cons in H as [H|H].
      * right. rewrite H. by left.
      * destruct (IH H) as [?|?]; [by left|]. right. by right.
Qed.

Lemma elem_of_dict_del {V : Type} k (d : list (string * V)) kv :
  kv ∈ dict_del k d → kv ∈ d.
Proof.
  unfold dict_del. rewrite !list_elem_of_In, filter_In. by intros [? _].
Qed.

(** ** remove_app and publish_new_removals *)

(** X1.  [remove_app] raises KeyError exactly for a name that the database
    does not hold.  Otherwise the entry is gone afterwards, every other
    entry is as before, the name is appended to the removal cache exactly
    when the application was PUBLISHED, and the aliases stay taken. *)
Theorem remove_app_forgets n db :
  match get_app_status n db with
  | None => remove_app n db = Raise (KeyError n)
  | Some s =>
      ∃ db', remove_app n db = Ok db'
        ∧ get_app_status n db' = None
        ∧ contains n db' = false
        ∧ (∀ m, m ≠ n → dict_get m (_apps db') = dict_get m (_apps db))
        ∧ _app_removal_cache db'
          = _app_removal_cache db ++ (if bool_decide (s = PUBLISHED) then [n] else [])
        ∧ probes_by_alias db' = probes_by_alias db
  end.
Proof.
  unfold get_app_status, remove_app, contains.
  destruct (dict_get n (_apps db)) as [e|] eqn:He; [|done].
  eexists. split; [done|]. simpl. rewrite dict_get_del_eq.
  split_and!; try done.
  - intros m Hm. by apply dict_get_del_ne.
  - unfold AppStatus_eqb. destruct (status e); simpl; by rewrite ?app_nil_r.
Qed.

Lemma remove_app_Ok n db db' :
  remove_app n db = Ok db' →
  ∃ s, get_app_status n db = Some s
    ∧ _apps db' = dict_del n (_apps db)
    ∧ _app_removal_cache db'
      = _app_removal_cache db ++ (if bool_decide (s = PUBLISHED) then [n] else []).
Proof.
  unfold remove_app, get_app_status.
  destruct (dict_get n (_apps db)) as [e|]; [|discriminate].
  intros [= <-]. exists (status e). split_and!; try done. simpl.
  unfold AppStatus_eqb. destruct (status e); simpl; by rewrite ?app_nil_r.
Qed.

Lemma remove_app_status n db db' m :
  remove_app n db = Ok db' →
  get_app_status m db' = if String.eqb m n then None else get_app_status m db.
Proof.
  intros Hr. apply remove_app_Ok in Hr as (s & _ & Happs & _).
  unfold get_app_status. rewrite Happs.
  destruct (String.eqb m n) eqn:E.
  - apply String.eqb_eq in E as ->. by rewrite dict_get_del_eq.
  - rewrite dict_get_del_ne; [done|]. intros ->. by rewrite String.eqb_refl in E.
Qed.

Lemma remove_apps_held names : ∀ db db',
  remove_apps names db = Ok db' →
  Forall (fun n => is_Some (get_app_status n db)) names ∧ NoDup names.
Proof.
  induction names as [|n rest IH]; intros db db'; simpl.
  - intros _. split; constructor.
  - destruct (remove_app n db) as [db1|] eqn:H1; [|discriminate]. simpl.
    intros Hrest. destruct (IH _ _ Hrest) as [Hall Hnd].
    assert (Hheld : ∀ m, m ∈ rest → m ≠ n ∧ is_Some (get_app_status m db)).
    { intros m Hm. rewrite Forall_forall in Hall. specialize (Hall m Hm).
      rewrite (remove_app_status _ _ _ m H1) in Hall.
      destruct (String.eqb m n) eqn:E; [by destruct Hall|].
      split; [|done]. intros ->. by rewrite String.eqb_refl in E. }
    split.
    + constructor.
      * apply remove_app_Ok in H1 as (s & -> & _). eauto.
      * apply Forall_forall. intros m Hm. by apply Hheld.
    + constructor; [|done]. intros Hin. by destruct (Hheld n Hin).
Qed.

Lemma remove_apps_cache names : ∀ db db',
  remove_apps names db = Ok db' →
  _app_removal_cache db'
  = _app_removal_cache db
    ++ List.filter (fun n => bool_decide (get_app_status n db = Some PUBLISHED)) names.
Proof.
  induction names as [|n rest IH]; intros db db'; simpl.
  - intros [= <-]. by rewrite app_nil_r.
  - destruct (remove_app n db) as [db1|] eqn:H1; [|discriminate]. simpl.
    intros Hrest. rewrite (IH _ _ Hrest).
    destruct (remove_apps_held _ _ _ Hrest) as [Hall _].
    assert (Hf : List.filter (fun m => bool_decide (get_app_status m db1 = Some PUBLISHED)) rest
                 = List.filter (fun m => bool_decide (get_app_status m db = Some PUBLISHED)) rest).
    { apply filter_ext_in. intros m Hm. apply list_elem_of_In in Hm.
      rewrite Forall_forall in Hall. specialize (Hall m Hm).
      rewrite (remove_app_status _ _ _ m H1) in Hall |- *.
      destruct (String.eqb m n); [by destruct Hall | done]. }
    rewrite Hf.
    apply remove_app_Ok in H1 as (s & -> & _ & ->). rewrite <- app_assoc. f_equal.
    by destruct s.
Qed.

(** X2.  After a run of successful removals, [publish_new_removals] returns
    what the cache held before, followed by the removed names whose
    application was PUBLISHED, in the order of removal; no name can be
    removed twice; and a second call right after returns the empty list. *)
Theorem publish_new_removals_once names db db' :
  remove_apps names db = Ok db' →
  fst (publish_new_removals db')
  = _app_removal_cache db
    ++ List.filter (fun n => bool_decide (get_app_status n db = Some PUBLISHED)) names
  ∧ NoDup names
  ∧ _apps (snd (publish_new_removals db')) = _apps db'
  ∧ fst (publish_new_removals (snd (publish_new_removals db'))) = [].
Proof.
  intros H. unfold publish_new_removals. simpl.
  split_and!; [by apply remove_apps_cache | | done | done].
  by destruct (remove_apps_held _ _ _ H).
Qed.

Lemma publish_new_removals_once_witness :
  ∃ db', remove_apps ["a"; "b"] db_a_b = Ok db'
    ∧ fst (publish_new_removals db') = ["a"]
    ∧ fst (publish_new_removals (snd (publish_new_removals db'))) = [].
Proof.
  eexists. split; [reflexivity|].
  destruct (publish_new_removals_once ["a"; "b"] db_a_b _ eq_refl) as (H1 & _ & _ & H2).
  split; [exact H1 | exact H2].
Defined.

(** ** add_app *)

Lemma add_app_probes_spec fuel ps : ∀ r db ps' r' db',
  add_app_probes fuel ps r db = Some (Ok (ps', r', db')) →
  _apps db' = _apps db
  ∧ _app_removal_cache db' = _app_removal_cache db
  ∧ map probe_name ps' = map probe_name ps
  ∧ Forall (fun a => is_alias a = true) (map alias ps')
  ∧ Forall (fun a => probes_by_alias db !! a = None) (map alias ps')
  ∧ NoDup (map alias ps')
  ∧ (∀ a, is_Some (probes_by_alias db' !! a) ↔
          a ∈ map alias ps' ∨ is_Some (probes_by_alias db !! a)).
Proof.
  induction ps as [|p ps IH]; intros r db ps' r' db'; simpl.
  - intros [= <- <- <-]. split_and!; try done; try constructor.
    + by right.
    + intros [Hin|Hin]; [by apply elem_of_nil in Hin | done].
  - destruct (String.eqb (alias p) "") eqn:Hp; [|discriminate].
    destruct (_generate_alias fuel r db) as [[[a r1] db1]|] eqn:Hg; [|discriminate].
    destruct (add_app_probes fuel ps r1 db1) as [[[[l r2] db2]|e]|] eqn:Hn;
      [|discriminate|discriminate].
    intros [= <- <- <-].
    apply AssessmentFacts._generate_alias_spec in Hg as (Ha & Hfresh & Hm & Happs & Hcache).
    apply IH in Hn as (Happs' & Hcache' & Hnames & Hall & Hnew & Hnd & Hdom).
    rewrite Hm in Hnew, Hdom. simpl.
    assert (Hnotin : a ∉ map alias l).
    { intros Hin. rewrite Forall_forall in Hnew.
      specialize (Hnew a Hin). by rewrite lookup_insert_eq in Hnew. }
    split_and!.
    + congruence.
    + congruence.
    + by rewrite Hnames.
    + by constructor.
    + constructor; [done|].
      eapply Forall_impl; [exact Hnew|]. intros x Hx. simpl in Hx.
      destruct (decide (a = x)) as [->|Hne].
      * by rewrite lookup_insert_eq in Hx.
      * by rewrite lookup_insert_ne in Hx.
    + by constructor.
    + intros x. rewrite Hdom, elem_of_cons.
      destruct (decide (a = x)) as [->|Hne].
      * rewrite lookup_insert_eq. split; [intros _; left; by left | intros _; right; eauto].
      * rewrite lookup_insert_ne by done. intuition congruence.
Qed.

Lemma add_app_components_spec fuel cs : ∀ r db cs' r' db',
  add_app_components fuel cs r db = Some (Ok (cs', r', db')) →
  let a := {| arch_name := ""; components := cs |} in
  let a' := {| arch_name := ""; components := cs' |} in
  _apps db' = _apps db
  ∧ _app_removal_cache db' = _app_removal_cache db
  ∧ arch_shape a' = arch_shape a
  ∧ Forall (fun x => is_alias x = true) (arch_aliases a')
  ∧ Forall (fun x => probes_by_alias db !! x = None) (arch_aliases a')
  ∧ NoDup (arch_aliases a')
  ∧ (∀ x, is_Some (probes_by_alias db' !! x) ↔
          x ∈ arch_aliases a' ∨ is_Some (probes_by_alias db !! x)).
Proof.
  unfold arch_shape, arch_aliases. simpl.
  induction cs as [|[k c] cs IH]; intros r db cs' r' db'; simpl.
  - intros [= <- <- <-]. simpl. split_and!; try done; try constructor.
    + by right.
    + intros [Hin|Hin]; [by apply elem_of_nil in Hin | done].
  - destruct (add_app_probes fuel (probes c) r db) as [[[[ps' r1] db1]|e]|] eqn:Hp;
      [|discriminate|discriminate].
    destruct (add_app_components fuel cs r1 db1) as [[[[l r2] db2]|e]|] eqn:Hn;
      [|discriminate|discriminate].
    intros [= <- <- <-]. simpl.
    apply add_app_probes_spec in Hp as (Happs & Hcache & Hnames & Hall & Hnew & Hnd & Hdom).
    apply IH in Hn as (Happs' & Hcache' & Hshape & Hall' & Hnew' & Hnd' & Hdom').
    assert (Hold : ∀ x, x ∈ concat (map (fun kc => map alias (probes kc.2)) l) →
                        probes_by_alias db !! x = None ∧ x ∉ map alias ps').
    { intros x Hx. rewrite Forall_forall in Hnew'. specialize (Hnew' x Hx).
      destruct (probes_by_alias db !! x) eqn:E.
      - assert (is_Some (probes_by_alias db1 !! x)) as [? ?] by (apply Hdom; right; eauto).
        congruence.
      - split; [done|]. intros Hin.
        assert (is_Some (probes_by_alias db1 !! x)) as [? ?] by (apply Hdom; by left).
        congruence. }
    split_and!.
    + congruence.
    + congruence.
    + by rewrite Hnames, Hshape.
    + by apply Forall_app.
    + apply Forall_app. split; [done|].
      apply Forall_forall. intros x Hx. by apply Hold.
    + apply NoDup_app. split_and!; [done| |done].
      intros x Hx Hx'. by destruct (Hold x Hx').
    + intros x. rewrite Hdom', Hdom, elem_of_app. tauto.
Qed.

Lemma add_app_inv fuel a r db r' db' :
  add_app fuel a r db = Some (Ok (r', db')) →
  ∃ cs' db1,
    add_app_components fuel (components a) r db = Some (Ok (cs', r', db1))
    ∧ _apps db'
      = dict_set (arch_name a)
          (AppEntry_init {| arch_name := arch_name a; components := cs' |}) (_apps db1)
    ∧ _app_removal_cache db' = _app_removal_cache db1
    ∧ probes_by_alias db' = probes_by_alias db1.
Proof.
  unfold add_app.
  destruct (add_app_components fuel (components a) r db) as [[[[cs' r1] db1]|e]|];
    [|discriminate|discriminate].
  intros [= <- <-]. by exists cs', db1.
Qed.

Lemma add_app_getitem fuel a r db r' db' :
  add_app fuel a r db = Some (Ok (r', db')) →
  ∃ a', getitem (arch_name a) db' = Ok (AppEntry_init a').
Proof.
  intros H. apply add_app_inv in H as (cs' & db1 & _ & Happs & _).
  unfold getitem. rewrite Happs, dict_get_set_eq. eauto.
Qed.

(** X3.  A successful [add_app] files a RECEIVED entry under the name of the
    architecture, whatever was filed there before; the stored architecture
    has the components and probes of the submitted one, in the same order;
    every other entry and the removal cache are as before. *)
Theorem add_app_stores fuel a r db r' db' :
  add_app fuel a r db = Some (Ok (r', db')) →
  ∃ a', getitem (arch_name a) db' = Ok (AppEntry_init a')
    ∧ arch_name a' = arch_name a
    ∧ arch_shape a' = arch_shape a
    ∧ get_app_status (arch_name a) db' = Some RECEIVED
    ∧ contains (arch_name a) db' = true
    ∧ (∀ m, m ≠ arch_name a → dict_get m (_apps db') = dict_get m (_apps db))
    ∧ _app_removal_cache db' = _app_removal_cache db.
Proof.
  intros H. apply add_app_inv in H as (cs' & db1 & Hc & Happs & Hcache & _).
  apply add_app_components_spec in Hc as (Happs1 & Hcache1 & Hshape & _).
  unfold getitem, get_app_status, contains. rewrite Happs, dict_get_set_eq.
  eexists. split_and!; try done.
  - intros m Hm. by rewrite dict_get_set_ne, Happs1.
  - congruence.
Qed.

Lemma add_app_stores_witness :
  ∃ r' db', add_app 0 arch_b counting_random db_a_b = Some (Ok (r', db'))
    ∧ get_app_status "b" db' = Some RECEIVED
    ∧ get_app_status "a" db' = Some PUBLISHED.
Proof.
  destruct (add_app 0 arch_b counting_random db_a_b) as [[[r' db']|e]|] eqn:E;
    [|by vm_compute in E|by vm_compute in E].
  exists r', db'. split; [reflexivity|].
  destruct (add_app_stores _ _ _ _ _ _ E) as (a' & _ & _ & _ & Hs & _ & Hother & _).
  split; [exact Hs|].
  unfold get_app_status. rewrite (Hother "a") by discriminate. reflexivity.
Defined.

(** X4.  The probes of the architecture that a successful [add_app] stores
    carry aliases of four uppercase letters that are pairwise different,
    were not taken before the call and are taken after it; the call takes
    no other alias. *)
Theorem add_app_aliases fuel a r db r' db' e :
  add_app fuel a r db = Some (Ok (r', db')) →
  getitem (arch_name a) db' = Ok e →
  ∃ a', architecture e = Some a'
    ∧ Forall (fun x => is_alias x = true) (arch_aliases a')
    ∧ Forall (fun x => probes_by_alias db !! x = None) (arch_aliases a')
    ∧ NoDup (arch_aliases a')
    ∧ (∀ x, is_Some (probes_by_alias db' !! x) ↔
            x ∈ arch_aliases a' ∨ is_Some (probes_by_alias db !! x)).
Proof.
  intros H. apply add_app_inv in H as (cs' & db1 & Hc & Happs & _ & Hpba).
  unfold getitem. rewrite Happs, dict_get_set_eq, Hpba. intros [= <-].
  apply add_app_components_spec in Hc as (_ & _ & _ & Hall & Hnew & Hnd & Hdom).
  eexists. split; [reflexivity|]. done.
Qed.

Lemma add_app_aliases_witness :
  ∃ r' db' e a', add_app 0 arch_b counting_random db_a_b = Some (Ok (r', db'))
    ∧ getitem "b" db' = Ok e
    ∧ architecture e = Some a'
    ∧ NoDup (arch_aliases a').
Proof.
  destruct (add_app 0 arch_b counting_random db_a_b) as [[[r' db']|e]|] eqn:E;
    [|by vm_compute in E|by vm_compute in E].
  destruct (add_app_getitem _ _ _ _ _ _ E) as (a0 & Hget).
  destruct (add_app_aliases _ _ _ _ _ _ _ E Hget) as (a' & Ha' & _ & _ & Hnd & _).
  exists r', db', (AppEntry_init a0), a'.
  split_and!; [reflexivity | exact Hget | exact Ha' | exact Hnd].
Defined.

(** X5.  Removing an application does not free its aliases: an application
    added after the removal gets aliases that differ from every alias of the
    removed one. *)
Theorem aliases_outlive_removal fuel a1 a2 r db r1 db1 db2 r3 db3 e1 e2 :
  add_app fuel a1 r db = Some (Ok (r1, db1)) →
  getitem (arch_name a1) db1 = Ok e1 →
  remove_app (arch_name a1) db1 = Ok db2 →
  add_app fuel a2 r1 db2 = Some (Ok (r3, db3)) →
  getitem (arch_name a2) db3 = Ok e2 →
  ∃ a1' a2', architecture e1 = Some a1' ∧ architecture e2 = Some a2'
    ∧ get_app_status (arch_name a1) db2 = None
    ∧ ∀ x, x ∈ arch_aliases a1' → x ∉ arch_aliases a2'.
Proof.
  intros H1 G1 Hrm H2 G2.
  apply add_app_inv in H1 as (cs1 & d1 & Hc1 & Happs1 & _ & Hpba1).
  apply add_app_inv in H2 as (cs2 & d2 & Hc2 & Happs2 & _ & Hpba2).
  unfold getitem in G1, G2.
  rewrite Happs1, dict_get_set_eq in G1. rewrite Happs2, dict_get_set_eq in G2.
  injection G1 as <-. injection G2 as <-.
  apply add_app_components_spec in Hc1 as (_ & _ & _ & _ & _ & _ & Hdom1).
  apply add_app_components_spec in Hc2 as (_ & _ & _ & _ & Hnew2 & _ & _).
  pose proof (remove_app_status _ _ _ (arch_name a1) Hrm) as Hgone.
  rewrite String.eqb_refl in Hgone.
  assert (Hkeep : probes_by_alias db2 = probes_by_alias db1).
  { unfold remove_app in Hrm. destruct (dict_get _ _); [|discriminate].
    by injection Hrm as <-. }
  eexists _, _. split_and!; try reflexivity; [done|].
  intros x Hx Hx'. simpl in *.
  rewrite Forall_forall in Hnew2. specialize (Hnew2 x Hx').
  rewrite Hkeep, Hpba1 in Hnew2.
  assert (is_Some (probes_by_alias d1 !! x)) as [? ?] by (apply Hdom1; by left).
  congruence.
Qed.

Lemma aliases_outlive_removal_witness :
  ∃ r1 db1 db2 r3 db3 e2 a2',
    add_app 0 arch_b counting_random db_a_b = Some (Ok (r1, db1))
    ∧ remove_app "b" db1 = Ok db2
    ∧ add_app 0 arch_b r1 db2 = Some (Ok (r3, db3))
    ∧ getitem "b" db3 = Ok e2
    ∧ architecture e2 = Some a2'
    ∧ "ABCD" ∉ arch_aliases a2'.
Proof.
  destruct (add_app 0 arch_b counting_random db_a_b) as [[[r1 db1]|e]|] eqn:E1;
    pose proof E1 as C1; vm_compute in C1; try discriminate.
  injection C1 as <- <-.
  match type of E1 with _ = Some (Ok (?r, ?d)) => set (r1 := r) in *; set (db1 := d) in * end.
  destruct (getitem "b" db1) as [e1|] eqn:G1;
    pose proof G1 as D1; vm_compute in D1; try discriminate.
  injection D1 as <-.
  destruct (remove_app "b" db1) as [db2|] eqn:Hrm;
    pose proof Hrm as C2; vm_compute in C2; try discriminate.
  injection C2 as <-.
  match type of Hrm with _ = Ok ?d => set (db2 := d) in * end.
  destruct (add_app 0 arch_b r1 db2) as [[[r3 db3]|e]|] eqn:E2;
    pose proof E2 as C3; vm_compute in C3; try discriminate.
  injection C3 as <- <-.
  match type of E2 with _ = Some (Ok (?r, ?d)) => set (r3 := r) in *; set (db3 := d) in * end.
  destruct (getitem "b" db3) as [e2|] eqn:G2;
    pose proof G2 as D2; vm_compute in D2; try discriminate.
  injection D2 as <-.
  destruct (aliases_outlive_removal _ _ _ _ _ _ _ _ _ _ _ _ E1 G1 Hrm E2 G2)
    as (a1' & a2' & Ha1 & Ha2 & _ & Hdisj).
  eexists r1, db1, db2, r3, db3, _, a2'.
  split_and!; try reflexivity; [exact Ha2|].
  apply Hdisj. injection Ha1 as <-. vm_compute. left.
Defined.

(** ** update_app_status and the life of an entry *)

Lemma set_status_spec n s apps :
  match dict_get n apps with
  | None => set_status n s apps = None
  | Some e =>
      ∃ apps', set_status n s apps = Some apps'
        ∧ dict_get n apps' = Some (with_status s e)
        ∧ (∀ m, m ≠ n → dict_get m apps' = dict_get m apps)
        ∧ dict_keys apps' = dict_keys apps
        ∧ (∀ kv, kv ∈ apps' → kv ∈ apps ∨ kv.2 = with_status s e)
  end.
Proof.
  induction apps as [|[k e0] apps IH]; simpl; [done|].
  destruct (String.eqb n k) eqn:E.
  - eexists. split; [done|]. simpl. rewrite E. split_and!; try done.
    + intros m Hm. destruct (String.eqb m k) eqn:E'; [|done].
      apply String.eqb_eq in E, E'. congruence.
    + intros kv Hkv. apply elem_of_cons in Hkv as [->|Hkv]; [by right|]. left. by right.
  - destruct (dict_get n apps) as [e|]; [|by rewrite IH].
    destruct IH as (apps' & -> & Hget & Hother & Hkeys & Hin). simpl.
    eexists. split; [done|]. simpl. rewrite E. split_and!; try done.
    + intros m Hm. destruct (String.eqb m k); [done|]. by apply Hother.
    + unfold dict_keys in *. simpl. by rewrite Hkeys.
    + intros kv Hkv. apply elem_of_cons in Hkv as [->|Hkv]; [left; by left|].
      destruct (Hin kv Hkv) as [?|?]; [left; by right | by right].
Qed.

(** X6.  [update_app_status] raises KeyError exactly for a name that the
    database does not hold.  Otherwise the entry of that name gets the new
    status and keeps its architecture, [get_app_status] reports the new
    status, and every other entry, the order of the names, the removal cache
    and the aliases are as before. *)
Theorem update_app_status_sets n s db :
  match getitem n db with
  | Raise _ => update_app_status n s db = Raise (KeyError n)
  | Ok e =>
      ∃ db', update_app_status n s db = Ok db'
        ∧ getitem n db' = Ok (with_status s e)
        ∧ get_app_status n db' = Some s
        ∧ (∀ m, m ≠ n → dict_get m (_apps db') = dict_get m (_apps db))
        ∧ dict_keys (_apps db') = dict_keys (_apps db)
        ∧ _app_removal_cache db' = _app_removal_cache db
        ∧ probes_by_alias db' = probes_by_alias db
  end.
Proof.
  unfold getitem, update_app_status, get_app_status.
  pose proof (set_status_spec n s (_apps db)) as H.
  destruct (dict_get n (_apps db)) as [e|]; [|by rewrite H].
  destruct H as (apps' & -> & Hget & Hother & Hkeys & _).
  eexists. split; [done|]. simpl. by rewrite Hget.
Qed.

Lemma dict_get_map {V : Type} (f : V → V) n (d : list (string * V)) :
  dict_get n (map (fun kv => (kv.1, f kv.2)) d) = f <$> dict_get n d.
Proof.
  induction d as [|[k v] d IH]; simpl; [done|]. by destruct (String.eqb n k).
Qed.

(** X7.  The life of an application: once added and then set to ACCEPTED,
    the next [publish_new_architectures] returns its architecture (with the
    aliases that [add_app] gave) and leaves it PUBLISHED; removing it then
    succeeds, and the next [publish_new_removals] reports its name. *)
Theorem accepted_app_is_published fuel a r db r1 db1 :
  add_app fuel a r db = Some (Ok (r1, db1)) →
  ∃ a' db2 db4,
    getitem (arch_name a) db1 = Ok (AppEntry_init a')
    ∧ update_app_status (arch_name a) ACCEPTED db1 = Ok db2
    ∧ Some a' ∈ fst (publish_new_architectures db2)
    ∧ get_app_status (arch_name a) (snd (publish_new_architectures db2)) = Some PUBLISHED
    ∧ remove_app (arch_name a) (snd (publish_new_architectures db2)) = Ok db4
    ∧ arch_name a ∈ fst (publish_new_removals db4).
Proof.
  intros H. destruct (add_app_getitem _ _ _ _ _ _ H) as (a' & Hget).
  unfold getitem in Hget.
  pose proof (set_status_spec (arch_name a) ACCEPTED (_apps db1)) as Hset.
  destruct (dict_get (arch_name a) (_apps db1)) as [e|] eqn:He; [|discriminate].
  injection Hget as ->.
  destruct Hset as (apps' & Hset & Hget' & _).
  unfold update_app_status, getitem. rewrite He, Hset.
  eexists _, _, _. split; [reflexivity|]. split; [reflexivity|].
  unfold publish_new_architectures. rewrite AssessmentFacts.publish_loop_spec. simpl.
  unfold remove_app, get_app_status. simpl.
  rewrite (dict_get_map (fun e => if accepted e then published e else e)), Hget'. simpl.
  split_and!; try reflexivity.
  - apply dict_get_elem_of in Hget'.
    apply list_elem_of_fmap. eexists (arch_name a, _). split; [|
      apply list_elem_of_In, filter_In; split; [apply list_elem_of_In; exact Hget' | done]].
    done.
  - simpl. apply elem_of_app. right. by left.
Qed.

Lemma accepted_app_is_published_witness :
  ∃ r1 db1 db2,
    add_app 0 arch_b counting_random db_a_b = Some (Ok (r1, db1))
    ∧ update_app_status "b" ACCEPTED db1 = Ok db2
    ∧ get_app_status "b" (snd (publish_new_architectures db2)) = Some PUBLISHED.
Proof.
  destruct (add_app 0 arch_b counting_random db_a_b) as [[[r1 db1]|e]|] eqn:E;
    [|by vm_compute in E|by vm_compute in E].
  destruct (accepted_app_is_published _ _ _ _ _ _ E) as (a' & db2 & db4 & _ & Hu & _ & Hs & _).
  exists r1, db1, db2. split_and!; [reflexivity | exact Hu | exact Hs].
Defined.

(** ** Entries without architecture *)

Lemma published_only_subset db db' :
  (∀ kv, kv ∈ _apps db' → kv ∈ _apps db ∨ (architecture kv.2 = None → status kv.2 = PUBLISHED)) →
  published_only db → published_only db'.
Proof.
  intros Hsub Hdb k e Hin Hnone.
  destruct (Hsub (k, e) Hin) as [Hold|Hnew]; [by eapply Hdb | by apply Hnew].
Qed.

(** X8.  [publish_new_architectures] returns a missing architecture (None)
    exactly when some entry is ACCEPTED and has no architecture.  This cannot
    happen as long as every entry without architecture is PUBLISHED, which
    holds for the empty database and is kept by [add_app], [remove_app],
    [publish_new_architectures], [publish_new_removals], and by
    [update_app_status] when it sets PUBLISHED or the entry still has its
    architecture. *)
Theorem published_only_kept :
  published_only AppDatabase_init
  ∧ (∀ fuel a r db r' db',
       published_only db → add_app fuel a r db = Some (Ok (r', db')) → published_only db')
  ∧ (∀ n db db', published_only db → remove_app n db = Ok db' → published_only db')
  ∧ (∀ db, published_only db → published_only (snd (publish_new_architectures db)))
  ∧ (∀ db, published_only db → published_only (snd (publish_new_removals db)))
  ∧ (∀ n s db db' e,
       published_only db → getitem n db = Ok e →
       s = PUBLISHED ∨ is_Some (architecture e) →
       update_app_status n s db = Ok db' → published_only db')
  ∧ (∀ db, None ∈ fst (publish_new_architectures db)
           ↔ ∃ k e, (k, e) ∈ _apps db ∧ status e = ACCEPTED ∧ architecture e = None)
  ∧ (∀ db, published_only db → None ∉ fst (publish_new_architectures db)).
Proof.
  assert (Hiff : ∀ db, None ∈ fst (publish_new_architectures db)
           ↔ ∃ k e, (k, e) ∈ _apps db ∧ status e = ACCEPTED ∧ architecture e = None).
  { intros db. unfold publish_new_architectures.
    rewrite AssessmentFacts.publish_loop_spec. simpl.
    rewrite list_elem_of_fmap. split.
    - intros ([k e] & Hnone & Hin). apply list_elem_of_In, filter_In in Hin as [Hin Hacc].
      exists k, e. split_and!; [by apply list_elem_of_In | | done].
      by apply AssessmentFacts.accepted_status.
    - intros (k & e & Hin & Hs & Hnone). exists (k, e). split; [done|].
      apply list_elem_of_In, filter_In. split; [by apply list_elem_of_In|].
      by apply AssessmentFacts.accepted_status. }
  split_and!.
  - intros k e Hin. by apply elem_of_nil in Hin.
  - intros fuel a r db r' db' Hdb H.
    apply add_app_inv in H as (cs' & db1 & Hc & Happs & _).
    apply add_app_components_spec in Hc as (Happs1 & _).
    eapply published_only_subset; [|exact Hdb].
    intros [k e] Hin. rewrite Happs in Hin.
    apply elem_of_dict_set in Hin as [Heq|Hin]; [|left; congruence].
    injection Heq as -> ->. by right.
  - intros n db db' Hdb H. apply remove_app_Ok in H as (s & _ & Happs & _).
    eapply published_only_subset; [|exact Hdb].
    intros kv Hin. rewrite Happs in Hin. left. by eapply elem_of_dict_del.
  - intros db Hdb. eapply published_only_subset; [|exact Hdb].
    intros kv. unfold publish_new_architectures.
    rewrite AssessmentFacts.publish_loop_spec. simpl. rewrite list_elem_of_fmap.
    intros ([k e] & -> & Hin). simpl.
    destruct (accepted e); [by right | by left].
  - intros db Hdb. exact Hdb.
  - intros n s db db' e Hdb Hget Hs Hup.
    unfold getitem in Hget. unfold update_app_status in Hup.
    pose proof (set_status_spec n s (_apps db)) as Hset.
    destruct (dict_get n (_apps db)) as [e0|]; [|discriminate]. injection Hget as ->.
    destruct Hset as (apps' & Hset & _ & _ & _ & Hin). rewrite Hset in Hup.
    injection Hup as <-.
    eapply published_only_subset; [|exact Hdb].
    intros kv Hkv. simpl in Hkv. destruct (Hin kv Hkv) as [? | ->]; [by left|].
    right. simpl. intros Hnone. destruct Hs as [-> | [? ?]]; [done | congruence].
  - exact Hiff.
  - intros db Hdb Hnone. apply Hiff in Hnone as (k & e & Hin & Hs & Hnone).
    specialize (Hdb k e Hin Hnone). congruence.
Qed.

(** ** add_app and probes that come with an alias *)

Lemma add_app_probes_blank fuel ps : ∀ r db,
  match add_app_probes fuel ps r db with
  | Some (Ok _) => Forall (fun p => alias p = "") ps
  | Some (Raise e) => e = AssertionError ∧ Exists (fun p => alias p ≠ "") ps
  | None => True
  end.
Proof.
  induction ps as [|p ps IH]; intros r db; simpl; [constructor|].
  destruct (String.eqb (alias p) "") eqn:Hp.
  - apply String.eqb_eq in Hp.
    destruct (_generate_alias fuel r db) as [[[a r1] db1]|]; [|done].
    specialize (IH r1 db1).
    destruct (add_app_probes fuel ps r1 db1) as [[[[l r2] db2]|e]|]; [|  |done].
    + by constructor.
    + destruct IH as [-> Hex]. split; [done|]. by right.
  - split; [done|]. left. intros Heq. by rewrite Heq in Hp.
Qed.

Lemma add_app_components_blank fuel cs : ∀ r db,
  match add_app_components fuel cs r db with
  | Some (Ok _) => Forall (fun kc => Forall (fun p => alias p = "") (probes kc.2)) cs
  | Some (Raise e) =>
      e = AssertionError ∧ Exists (fun kc => Exists (fun p => alias p ≠ "") (probes kc.2)) cs
  | None => True
  end.
Proof.
  induction cs as [|[k c] cs IH]; intros r db; simpl; [constructor|].
  pose proof (add_app_probes_blank fuel (probes c) r db) as Hp.
  destruct (add_app_probes fuel (probes c) r db) as [[[[ps' r1] db1]|e]|]; [| |done].
  - specialize (IH r1 db1).
    destruct (add_app_components fuel cs r1 db1) as [[[[l r2] db2]|e]|]; [| |done].
    + by constructor.
    + destruct IH as [-> Hex]. split; [done|]. by right.
  - destruct Hp as [-> Hex]. split; [done|]. by left.
Qed.

(** X9.  [add_app] accepts only architectures whose probes come without an
    alias: when it returns, every submitted probe had the empty alias, and
    when it raises, the exception is AssertionError and some submitted probe
    had an alias. *)
Theorem add_app_blank_aliases fuel a r db :
  match add_app fuel a r db with
  | Some (Ok _) => Forall (fun x => x = "") (arch_aliases a)
  | Some (Raise e) => e = AssertionError ∧ Exists (fun x => x ≠ "") (arch_aliases a)
  | None => True
  end.
Proof.
  unfold add_app, arch_aliases.
  pose proof (add_app_components_blank fuel (components a) r db) as H.
  destruct (add_app_components fuel (components a) r db) as [[[[cs' r1] db1]|e]|]; [| |done].
  - apply Forall_concat, Forall_fmap. eapply Forall_impl; [exact H|].
    intros kc Hkc. simpl. by apply Forall_fmap.
  - destruct H as [-> Hex]. split; [done|].
    apply Exists_exists in Hex as (kc & Hkc & Hex).
    apply Exists_exists in Hex as (p & Hp & Hne).
    apply Exists_exists. exists (alias p). split; [|done].
    apply list_elem_of_In, in_concat. exists (map alias (probes kc.2)).
    split; apply list_elem_of_In, list_elem_of_fmap; eauto.
Qed.

End DatabaseFacts.

(** * More on analysis/analyzer.py: successive cycles *)

Module AnalyzerRuns.
Import KnowledgeModel Analysis.

Lemma find_new_assignment_analyzer c a k :
  snd (fst (find_new_assignment c a k))
  = {| _last_desired_state := fst (fst (find_new_assignment c a k));
       _longterm_result_future :=
         match solver_result c with
         | Some _ => _longterm_result_future a
         | None => _longterm_result_future (snd (longterm_fallback c a))
         end;
       _pool :=
         match solver_result c with
         | Some _ => _pool a
         | None => _pool (snd (longterm_fallback c a))
         end |}.
Proof.
  unfold find_new_assignment.
  destruct (solver_result c); [done|]. by destruct (longterm_fallback c a).
Qed.

Lemma find_new_assignment_step c a k :
  latest_pending a →
  let a' := snd (fst (find_new_assignment c a k)) in
  latest_pending a'
  ∧ (_pool a' = _pool a
     ∨ (_pool a' = S (_pool a) ∧ solver_result c = None
        ∧ _longterm_result_future a = None)).
Proof.
  intros Ha. simpl. rewrite find_new_assignment_analyzer.
  unfold latest_pending in *. simpl.
  destruct (solver_result c); [by split; [|left]|].
  unfold longterm_fallback.
  destruct (_longterm_result_future a) as [f|] eqn:Hf.
  - destruct (future_ready c); simpl; rewrite ?Hf; by split; [|left].
  - simpl. split; [done|]. by right.
Qed.

Lemma analyses_step cycles : ∀ a,
  latest_pending a →
  let a' := snd (analyses cycles a) in
  latest_pending a'
  ∧ (_pool a <= _pool a' <= _pool a + length (failed cycles))%nat
  ∧ length (fst (analyses cycles a)) = length cycles.
Proof.
  induction cycles as [|[c k] rest IH]; intros a Ha; simpl.
  - split; [done|]. split; [lia | done].
  - pose proof (find_new_assignment_step c a k Ha) as [Ha1 Hp]. simpl in Ha1, Hp.
    destruct (find_new_assignment c a k) as [[d a1] k1] eqn:E. simpl in *.
    specialize (IH a1 Ha1). simpl in IH.
    destruct (analyses rest a1) as [ds a2]. simpl in *.
    destruct IH as (Ha2 & Hpool & Hlen).
    split; [done|]. split; [|by rewrite Hlen].
    unfold failed in *. simpl.
    destruct Hp as [Hp|(Hp & Hs & _)].
    + destruct (bool_decide _); simpl; lia.
    + rewrite Hs. simpl. lia.
Qed.

(** X10.  In every cycle of any run of a fresh analyzer, a long-term search
    is handed to the pool exactly when the solver found nothing and the
    analyzer holds no future: the new search then is the future it holds.
    In every other cycle nothing is handed to the pool; a cycle in which the
    solver found nothing and the future it holds is ready drops that future,
    and any other cycle keeps it.  The future that the analyzer holds is
    always that of the search started last. *)
Theorem one_longterm_search before c k :
  let a := snd (analyses before Analyzer_init) in
  let a' := snd (fst (find_new_assignment c a k)) in
  (∀ f, _longterm_result_future a = Some f → S f = _pool a)
  ∧ match solver_result c, _longterm_result_future a with
    | None, None =>
        _pool a' = S (_pool a) ∧ _longterm_result_future a' = Some (_pool a)
    | None, Some f =>
        _pool a' = _pool a
        ∧ _longterm_result_future a' = if future_ready c then None else Some f
    | Some _, held =>
        _pool a' = _pool a ∧ _longterm_result_future a' = held
    end.
Proof.
  simpl. split.
  - destruct (analyses_step before Analyzer_init) as (H & _); [done|].
    unfold latest_pending in H. simpl in H. intros f Hf. by rewrite Hf in H.
  - rewrite find_new_assignment_analyzer. cbn.
    destruct (solver_result c); [done|].
    unfold longterm_fallback.
    destruct (_longterm_result_future (analyses before Analyzer_init).2) as [f|] eqn:Hf;
      [|done].
    destruct (future_ready c); cbn; by rewrite ?Hf.
Qed.

(** X11.  What [find_new_assignment] does to the knowledge: the actual state
    is kept, no object is added or removed, an object changes at most by
    getting the force_keep mark, a mark that is set stays, and with no new
    clients the knowledge is left as it was. *)
Theorem find_new_assignment_frame c a k :
  let k' := snd (find_new_assignment c a k) in
  actual_state k' = actual_state k
  ∧ (∀ l, objects k' !! l = objects k !! l
          ∨ objects k' !! l = set_force_keep <$> objects k !! l)
  ∧ (∀ l o, objects k !! l = Some o → compin_force_keep o = true →
            objects k' !! l = Some o)
  ∧ (∀ l o', objects k' !! l = Some o' →
       ∃ o, objects k !! l = Some o
         ∧ compin_id o' = compin_id o
         ∧ compin_managed o' = compin_managed o
         ∧ compin_phase o' = compin_phase o
         ∧ compin_dependencies o' = compin_dependencies o)
  ∧ (new_clients c = [] → k' = k).
Proof.
  unfold find_new_assignment.
  destruct (match solver_result c with
            | None => longterm_fallback c a
            | Some d => (Some d, a)
            end) as [ds a1].
  simpl.
  set (desired := match ds with Some d => d | None => _last_desired_state a1 end).
  pose proof (AnalysisFacts._mark_force_keep_compins_marks (new_clients c) desired (objects k))
    as Hm.
  split_and!.
  - done.
  - exact Hm.
  - intros l o Hl Hk. by eapply AnalysisFacts.marks_keep.
  - intros l o' Hl. destruct (Hm l) as [E|E]; rewrite E in Hl.
    + by exists o'.
    + destruct (objects k !! l) as [o|]; [|discriminate].
      injection Hl as <-. by exists o.
  - intros ->. simpl. by destruct k.
Qed.

(** X12.  A desired state found by the solver does not cancel a pending
    long-term search.  When the solver fails in the next cycle, the state
    just found is returned again, unless the search that was pending before
    has finished with a state: then that older result is returned. *)
Theorem find_new_assignment_after_success c1 c2 a k1 k2 d1 :
  solver_result c1 = Some d1 →
  solver_result c2 = None →
  let a1 := snd (fst (find_new_assignment c1 a k1)) in
  fst (fst (find_new_assignment c1 a k1)) = d1
  ∧ _longterm_result_future a1 = _longterm_result_future a
  ∧ _pool a1 = _pool a
  ∧ fst (fst (find_new_assignment c2 a1 k2))
    = match _longterm_result_future a with
      | Some _ => if future_ready c2 then default d1 (future_get c2) else d1
      | None => d1
      end.
Proof.
  intros H1 H2. simpl.
  assert (E1 : fst (fst (find_new_assignment c1 a k1)) = d1).
  { unfold find_new_assignment. by rewrite H1. }
  rewrite (find_new_assignment_analyzer c1), H1, E1.
  split_and!; try done.
  unfold find_new_assignment, longterm_fallback. rewrite H2. simpl.
  destruct (_longterm_result_future a); [|done].
  destruct (future_ready c2); [|done]. by destruct (future_get c2).
Qed.

Lemma find_new_assignment_after_success_witness :
  let a := snd (fst (find_new_assignment no_solution Analyzer_init Tasks.one_instance)) in
  let a1 := snd (fst (find_new_assignment new_client_cycle a client_server)) in
  fst (fst (find_new_assignment (longterm_done CloudState_init) a1 client_server))
  = CloudState_init.
Proof.
  simpl.
  destruct (find_new_assignment_after_success new_client_cycle
              (longterm_done CloudState_init)
              (snd (fst (find_new_assignment no_solution Analyzer_init Tasks.one_instance)))
              client_server client_server client_server_state eq_refl eq_refl)
    as (_ & _ & _ & H).
  exact H.
Defined.

End AnalyzerRuns.

(** * More on the aggregator: the combinations of probes *)

Module CombinationFacts.
Import KnowledgeModel Aggregator.

(** ** generate_probe_combinations *)

Lemma copies_zero probes : copies probes (repeat 0%nat (length probes)) = [].
Proof. unfold copies. induction probes as [|p probes IH]; simpl; done. Qed.

Lemma sum_list_repeat_zero n : sum_list (repeat 0%nat n) = 0%nat.
Proof. induction n; simpl; done. Qed.

Lemma copies_nil probes counts :
  length counts = length probes → sum_list counts = 0%nat → copies probes counts = [].
Proof.
  unfold copies. revert counts. induction probes as [|p probes IH]; intros [|c counts]; simpl;
    try done.
  intros [= Hlen] Hsum. assert (c = 0%nat) as -> by lia. simpl. apply IH; [done | lia].
Qed.

Lemma generate_probe_combinations_sound probes : ∀ size combination x,
  x ∈ generate_probe_combinations probes size combination →
  ∃ counts, length counts = length probes
    ∧ Z.of_nat (length combination + sum_list counts) = size
    ∧ x = combination ++ copies probes counts.
Proof.
  induction probes as [|p probes IH]; intros size combination x; simpl;
    destruct (Z.of_nat (length combination) =? size) eqn:Hlen.
  - intros ->%list_elem_of_singleton. exists []. apply Z.eqb_eq in Hlen.
    simpl. rewrite app_nil_r. split_and!; [done | lia | done].
  - intros H. by apply elem_of_nil in H.
  - intros ->%list_elem_of_singleton. apply Z.eqb_eq in Hlen.
    exists (0%nat :: repeat 0%nat (length probes)). simpl.
    rewrite repeat_length, sum_list_repeat_zero.
    change (copies (p :: probes) (0%nat :: ?l)) with (copies probes l).
    rewrite copies_zero, app_nil_r. split_and!; [done | lia | done].
  - intros (i & Hx & _)%list_elem_of_bind.
    destruct (Z.of_nat (length combination + i) <=? size);
      [|by apply elem_of_nil in Hx].
    apply IH in Hx as (counts & Hcounts & Hsize & ->).
    exists (i :: counts). simpl.
    rewrite length_app, repeat_length in Hsize.
    split_and!; [by rewrite Hcounts | lia |].
    unfold copies. simpl. by rewrite <- app_assoc.
Qed.

Lemma generate_probe_combinations_complete probes : ∀ size combination counts,
  length counts = length probes →
  Z.of_nat (length combination + sum_list counts) = size →
  combination ++ copies probes counts ∈ generate_probe_combinations probes size combination.
Proof.
  induction probes as [|p probes IH]; intros size combination [|c counts]; simpl; try done.
  - intros _ Hsize. rewrite app_nil_r.
    replace (Z.of_nat (length combination) =? size) with true
      by (symmetry; apply Z.eqb_eq; lia).
    by left.
  - intros [= Hlen] Hsize.
    destruct (Z.of_nat (length combination) =? size) eqn:E.
    + apply Z.eqb_eq in E. rewrite copies_nil; [|simpl; by rewrite Hlen|simpl; lia].
      rewrite app_nil_r. by left.
    + apply list_elem_of_bind. exists c. split.
      * replace (Z.of_nat (length combination + c) <=? size) with true
          by (symmetry; apply Z.leb_le; lia).
        unfold copies. simpl. rewrite app_assoc. apply IH; [done|].
        rewrite length_app, repeat_length. lia.
      * apply elem_of_seq. lia.
Qed.

Lemma count_occ_copies_other p probes : ∀ counts,
  p ∉ probes → count_occ string_dec (copies probes counts) p = 0%nat.
Proof.
  unfold copies. induction probes as [|q probes IH]; intros [|c counts] Hp; simpl; try done.
  rewrite count_occ_app, IH by (intros ?; apply Hp; by right).
  rewrite Nat.add_0_r. apply count_occ_not_In. intros Hin%repeat_spec.
  apply Hp. rewrite Hin. by left.
Qed.

Lemma count_occ_repeat_eq p n : count_occ string_dec (repeat p n) p = n.
Proof. induction n; simpl; [done|]. destruct (string_dec p p); [by f_equal | done]. Qed.

Lemma generate_probe_combinations_NoDup probes : ∀ size combination,
  NoDup probes → NoDup (generate_probe_combinations probes size combination).
Proof.
  induction probes as [|p probes IH]; intros size combination Hnd; simpl;
    destruct (Z.of_nat (length combination) =? size); try apply NoDup_singleton;
    try apply NoDup_nil_2.
  apply NoDup_cons in Hnd as [Hp Hnd].
  apply NoDup_bind.
  - intros i1 i2 y _ _ H1 H2.
    destruct (Z.of_nat (length combination + i1) <=? size); [|by apply elem_of_nil in H1].
    destruct (Z.of_nat (length combination + i2) <=? size); [|by apply elem_of_nil in H2].
    apply generate_probe_combinations_sound in H1 as (counts1 & _ & _ & ->).
    apply generate_probe_combinations_sound in H2 as (counts2 & _ & _ & E).
    rewrite <- !app_assoc in E. apply app_inv_head in E.
    apply (f_equal (fun l => count_occ string_dec l p)) in E.
    rewrite !count_occ_app, !count_occ_repeat_eq, !count_occ_copies_other in E by done.
    lia.
  - intros i _. destruct (Z.of_nat (length combination + i) <=? size);
      [by apply IH | apply NoDup_nil_2].
  - apply NoDup_seq.
Qed.

(** X13.  [generate_probe_combinations] started on the empty combination
    yields exactly the multisets of the given size over the probes, each
    written probe by probe in the order of the probes, and yields none of
    them twice when the probes are pairwise different.  A negative size
    yields nothing. *)
Theorem generate_probe_combinations_multisets probes size :
  (∀ x, x ∈ generate_probe_combinations probes size [] ↔
        ∃ counts, length counts = length probes
          ∧ Z.of_nat (sum_list counts) = size
          ∧ x = copies probes counts)
  ∧ (NoDup probes → NoDup (generate_probe_combinations probes size []))
  ∧ (size < 0 → generate_probe_combinations probes size [] = []).
Proof.
  split_and!.
  - intros x. split.
    + intros H. apply generate_probe_combinations_sound in H as (counts & ? & ? & ->).
      by exists counts.
    + intros (counts & Hlen & Hsize & ->).
      by apply (generate_probe_combinations_complete probes size [] counts).
  - apply generate_probe_combinations_NoDup.
  - intros Hneg. destruct (generate_probe_combinations probes size []) as [|x l] eqn:E; [done|].
    assert (Hx : x ∈ generate_probe_combinations probes size []) by (rewrite E; by left).
    apply generate_probe_combinations_sound in Hx as (counts & _ & Hsize & _). simpl in Hsize. lia.
Qed.

Lemma generate_probe_combinations_multisets_witness :
  NoDup (generate_probe_combinations ["A"; "B"] 2 [])
  ∧ ["A"; "B"] ∈ generate_probe_combinations ["A"; "B"] 2 [].
Proof.
  destruct (generate_probe_combinations_multisets ["A"; "B"] 2) as (Hiff & Hnd & _).
  split.
  - apply Hnd. apply (bool_decide_unpack _). by vm_compute.
  - apply Hiff. exists [1%nat; 1%nat]. split_and!; reflexivity.
Defined.

End CombinationFacts.

(** * More on the aggregator: assignment_from_pb and Predict *)

Module PredictFacts.
Import KnowledgeModel Aggregator.
Import AggregatorFacts.

(** ** assignment_from_pb *)

Lemma dict_keys_set {V : Type} k (v : V) d :
  dict_keys (dict_set k v d)
  = if bool_decide (k ∈ dict_keys d) then dict_keys d else dict_keys d ++ [k].
Proof.
  unfold dict_keys. induction d as [|[k' v'] d IH]; simpl; [done|].
  destruct (String.eqb_spec k k') as [-> |Hne]; simpl.
  - rewrite bool_decide_eq_true_2; [done | by left].
  - rewrite IH. destruct (bool_decide (k ∈ map fst d)) eqn:E.
    + rewrite bool_decide_eq_true_2; [done|]. right. by apply bool_decide_eq_true in E.
    + rewrite bool_decide_eq_false_2; [done|]. apply bool_decide_eq_false in E.
      intros [? |?]%elem_of_cons; done.
Qed.

Lemma dict_get_set {V : Type} k k' (v : V) d :
  dict_get k' (dict_set k v d) = if String.eqb k' k then Some v else dict_get k' d.
Proof.
  induction d as [|[k0 v0] d IH]; simpl.
  - done.
  - destruct (String.eqb_spec k k0) as [-> |Hne]; simpl.
    + destruct (String.eqb k' k0); done.
    + rewrite IH. destruct (String.eqb_spec k' k0) as [-> |Hne'].
      * destruct (String.eqb_spec k0 k); [congruence | done].
      * done.
Qed.

Lemma assignment_from_pb_loop_spec self cs : ∀ acc,
  match assignment_from_pb_loop self cs acc with
  | Ok assignment =>
      (NoDup (dict_keys acc) → NoDup (dict_keys assignment))
      ∧ (∀ c, c ∈ dict_keys assignment ↔
              c ∈ dict_keys acc ∨ ∃ pb, pb ∈ cs ∧ component_id pb = c)
      ∧ (∀ pb, pb ∈ cs → is_Some (_probes_by_component self !! component_id pb))
      ∧ (∀ c, dict_get c assignment
              = match last (entries_of c cs) with
                | Some pb => Some (count pb)
                | None => dict_get c acc
                end)
  | Raise e =>
      e = AssertionError
      ∧ ∃ pb, pb ∈ cs ∧ _probes_by_component self !! component_id pb = None
  end.
Proof.
  induction cs as [|pb cs IH]; intros acc; simpl.
  - split_and!; try done.
    + intros c. split; [by left|]. intros [? |(pb & Hpb & _)]; [done|].
      by apply elem_of_nil in Hpb.
    + intros pb Hpb. by apply elem_of_nil in Hpb.
  - destruct (_probes_by_component self !! component_id pb) as [probes|] eqn:Hreg.
    2:{ split; [done|]. exists pb. split; [by left | done]. }
    specialize (IH (dict_set (component_id pb) (count pb) acc)).
    destruct (assignment_from_pb_loop self cs _) as [assignment|e].
    + destruct IH as (Hnd & Hkeys & Hregs & Hget). split_and!.
      * intros Hacc. apply Hnd. rewrite dict_keys_set.
        destruct (bool_decide (component_id pb ∈ dict_keys acc)) eqn:E; [done|].
        apply bool_decide_eq_false in E. apply NoDup_app. split_and!; [done| |apply NoDup_singleton].
        intros x Hx ->%list_elem_of_singleton. done.
      * intros c. rewrite Hkeys, dict_keys_set.
        destruct (bool_decide (component_id pb ∈ dict_keys acc)) eqn:E.
        -- apply bool_decide_eq_true in E. split.
           ++ intros [? |(pb' & Hpb' & <-)]; [by left|]. right. exists pb'. split; [by right|done].
           ++ intros [? |(pb' & Hpb' & <-)]; [by left|].
              apply elem_of_cons in Hpb' as [-> |Hpb']; [by left|]. right. eauto.
        -- rewrite elem_of_app, list_elem_of_singleton. split.
           ++ intros [[? | ->]|(pb' & Hpb' & <-)]; [by left| |].
              ** right. exists pb. split; [by left|done].
              ** right. exists pb'. split; [by right|done].
           ++ intros [? |(pb' & Hpb' & <-)]; [left; by left|].
              apply elem_of_cons in Hpb' as [-> |Hpb']; [left; by right|]. right. eauto.
      * intros pb' [-> |Hpb']%elem_of_cons; [eauto | by apply Hregs].
      * intros c. rewrite Hget. unfold entries_of. simpl.
        destruct (String.eqb_spec (component_id pb) c) as [<-|Hne].
        -- rewrite last_cons. destruct (last _); [done|].
           by rewrite dict_get_set, String.eqb_refl.
        -- destruct (last _); [done|]. rewrite dict_get_set.
           destruct (String.eqb_spec c (component_id pb)); [congruence|done].
    + destruct IH as (-> & pb' & Hpb' & Hnone). split; [done|].
      exists pb'. split; [by right | done].
Qed.

(** X14.  [assignment_from_pb] fails its assertion exactly when the request
    names a component that is not registered.  Otherwise it returns the
    hardware id of the request and an assignment with one entry for every
    component id that the request names: when an id comes more than once,
    the entries are merged and the count given last is the one kept (the
    counts are not added up). *)
Theorem assignment_from_pb_merges self request :
  match assignment_from_pb self request with
  | Ok (hw, assignment) =>
      hw = hw_id request
      ∧ NoDup (dict_keys assignment)
      ∧ (∀ c, c ∈ dict_keys assignment ↔ ∃ pb, pb ∈ components request ∧ component_id pb = c)
      ∧ (∀ c, c ∈ dict_keys assignment → is_Some (_probes_by_component self !! c))
      ∧ (∀ c, dict_get c assignment = count <$> last (entries_of c (components request)))
  | Raise e =>
      e = AssertionError
      ∧ ∃ pb, pb ∈ components request
          ∧ _probes_by_component self !! component_id pb = None
  end.
Proof.
  unfold assignment_from_pb.
  pose proof (assignment_from_pb_loop_spec self (components request) []) as H.
  destruct (assignment_from_pb_loop self (components request) []) as [assignment|e]; simpl;
    [|done].
  destruct H as (Hnd & Hkeys & Hregs & Hget). split_and!.
  - done.
  - apply Hnd. constructor.
  - intros c. rewrite Hkeys. split; [|by right].
    intros [Hin|?]; [by apply elem_of_nil in Hin | done].
  - intros c Hc. apply Hkeys in Hc as [Hin|(pb & Hpb & <-)];
      [by apply elem_of_nil in Hin | by apply Hregs].
  - intros c. rewrite Hget. by destruct (last _).
Qed.

(** ** Predict *)

Lemma assignment_from_pb_Ok self request hw assignment :
  assignment_from_pb self request = Ok (hw, assignment) →
  hw = hw_id request
  ∧ NoDup (dict_keys assignment)
  ∧ (∀ c, c ∈ dict_keys assignment →
       ∃ pb, pb ∈ components request ∧ component_id pb = c
         ∧ is_Some (_probes_by_component self !! c)).
Proof.
  unfold assignment_from_pb.
  pose proof (assignment_from_pb_loop_spec self (components request) []) as H.
  destruct (assignment_from_pb_loop self (components request) []) as [a|e]; simpl;
    [|discriminate].
  intros [= <- <-]. destruct H as (Hnd & Hkeys & Hregs & _).
  split_and!; [done | apply Hnd; constructor |].
  intros c Hc. apply Hkeys in Hc as [Hin|(pb & Hpb & <-)]; [by apply elem_of_nil in Hin|].
  exists pb. split_and!; [done | done | by apply Hregs].
Qed.

Lemma assignment_from_pb_Raise self request e :
  assignment_from_pb self request = Raise e →
  e = AssertionError
  ∧ ∃ pb, pb ∈ components request ∧ _probes_by_component self !! component_id pb = None.
Proof.
  unfold assignment_from_pb.
  pose proof (assignment_from_pb_loop_spec self (components request) []) as H.
  destruct (assignment_from_pb_loop self (components request) []) as [a|e']; simpl;
    [discriminate|].
  by intros [= <-].
Qed.

(** The combinations of an assignment with distinct, registered keys. *)
Lemma _generate_combinations_elems pbc assignment :
  NoDup (dict_keys assignment) →
  (∀ c, c ∈ dict_keys assignment → is_Some (pbc !! c)) →
  ∃ l, _generate_combinations pbc assignment = Ok l
    ∧ ∀ x, x ∈ l →
        Z.of_nat (length x) = total_count assignment
        ∧ ∃ main_component probes probe_id rest,
            main_component ∈ dict_keys assignment
            ∧ pbc !! main_component = Some probes
            ∧ probe_id ∈ probes
            ∧ x = probe_id :: rest.
Proof.
  intros Hnd Hreg. unfold _generate_combinations.
  destruct (result_mapM_total (combinations_with_main pbc assignment)
              (dict_keys assignment)) as [ls Hls].
  { intros c Hc. by apply combinations_with_main_total. }
  rewrite Hls. simpl. eexists; split; [done|].
  intros x (l' & Hl' & Hx)%elem_of_concat.
  apply result_mapM_Ok in Hls.
  destruct (Forall2_elem_of_r _ _ _ _ Hls Hl') as (main_component & Hmain & Hrec).
  destruct (combinations_with_main_spec _ _ _ _ _ Hrec Hx)
    as (probes & probe_id & blocks & Hp & Hprobe & -> & Hblocks).
  split.
  - simpl length. rewrite Nat2Z.inj_succ.
    rewrite (blocks_length_main _ _ _ _ Hblocks Hnd Hmain). lia.
  - exists main_component, probes, probe_id, (concat blocks). done.
Qed.

Lemma predict_loop_outcomes cfg self hw combinations :
  match predict_loop cfg self hw combinations with
  | Ok (true, self') =>
      self' = self ∧ Forall (fun c => combination_ok cfg self hw c = true) combinations
  | Ok (false, self') =>
      ∃ l1 probe_id rest l2,
        combinations = l1 ++ (probe_id :: rest) :: l2
        ∧ Forall (fun c => combination_ok cfg self hw c = true) l1
        ∧ combination_ok cfg self hw (probe_id :: rest) = false
        ∧ self' = increase_count hw probe_id (length (probe_id :: rest)) self
  | Raise e =>
      (e = IndexError ∧ [] ∈ combinations)
      ∨ ∃ probe_id rest,
          (probe_id :: rest) ∈ combinations
          ∧ e = KeyError probe_id
          ∧ _probes_by_id self !! probe_id = None
  end.
Proof.
  induction combinations as [|x l IH]; [by split|].
  cbn [predict_loop]. destruct x as [|probe_id rest].
  { left. split; [done | by left]. }
  fold (combination_measured self hw (probe_id :: rest)).
  assert (Hok : combination_ok cfg self hw (probe_id :: rest)
    = (STATISTICAL_PREDICTION_ENABLED cfg || combination_measured self hw (probe_id :: rest))
      && match _probes_by_id self !! probe_id with
         | None => false
         | Some probe =>
             forallb (predict_requirement self hw (probe_id :: rest)
                        (compose_measurement_name (_single_process_predictor self) hw
                           (probe_id :: rest))
                        (combination_measured self hw (probe_id :: rest)))
               (probe_requirements probe)
         end) by done.
  destruct (negb (STATISTICAL_PREDICTION_ENABLED cfg)
            && negb (combination_measured self hw (probe_id :: rest))) eqn:Hskip.
  { exists [], probe_id, rest, l. split_and!; try done.
    rewrite Hok. apply andb_true_iff in Hskip as [H1 H2].
    apply negb_true_iff in H1, H2. by rewrite H1, H2. }
  assert (Huse : STATISTICAL_PREDICTION_ENABLED cfg
                 || combination_measured self hw (probe_id :: rest) = true).
  { destruct (STATISTICAL_PREDICTION_ENABLED cfg), (combination_measured self hw _); done. }
  rewrite Huse in Hok. simpl in Hok.
  destruct (_probes_by_id self !! probe_id) as [probe|] eqn:Hprobe.
  2:{ right. exists probe_id, rest. split_and!; [by left | done | done]. }
  destruct (forallb _ (probe_requirements probe)) eqn:Hpass.
  - destruct (predict_loop cfg self hw l) as [[[] self']|e].
    + destruct IH as [-> Hall]. split; [done|]. by constructor.
    + destruct IH as (l1 & p & r & l2 & -> & Hl1 & Hbad & ->).
      exists ((probe_id :: rest) :: l1), p, r, l2. split_and!; try done. by constructor.
    + destruct IH as [[-> Hin]|(p & r & Hin & -> & Hnone)].
      * left. split; [done | by right].
      * right. exists p, r. split_and!; [by right | done | done].
  - exists [], probe_id, rest, l. split_and!; try done.
Qed.

(** X15.  What a call of [Predict] can do.  It either returns true and
    leaves the aggregator as it was; or returns false after exactly one
    [increase_count], for a probe of a requested component and a size that
    is the sum of the merged counts; or fails its assertion because a
    requested component is not registered; or raises KeyError for a probe of
    a requested component that [_probes_by_id] does not know.  It raises
    nothing else: the generation of the combinations cannot fail once the
    components are registered. *)
Theorem Predict_outcomes cfg request self :
  match Predict cfg request self with
  | Ok (true, self') => self' = self
  | Ok (false, self') =>
      ∃ probe_id n assignment,
        self' = increase_count (hw_id request) probe_id n self
        ∧ requested_probe self request probe_id
        ∧ assignment_from_pb self request = Ok (hw_id request, assignment)
        ∧ Z.of_nat n = total_count assignment
  | Raise e =>
      (e = AssertionError
       ∧ ∃ pb, pb ∈ components request
           ∧ _probes_by_component self !! component_id pb = None)
      ∨ ∃ probe_id,
          e = KeyError probe_id
          ∧ _probes_by_id self !! probe_id = None
          ∧ requested_probe self request probe_id
  end.
Proof.
  unfold Predict. destruct (single_default_instance cfg request) eqn:Hsingle.
  { unfold single_default_instance in Hsingle.
    destruct (components request) as [|c [|? ?]] eqn:Hc; try discriminate.
    destruct (_probes_by_component self !! component_id c) eqn:Hreg; [done|].
    left. split; [done|]. exists c. split; [by left | done]. }
  destruct (assignment_from_pb self request) as [[hw assignment]|e] eqn:Hasg; simpl.
  2:{ left. by apply assignment_from_pb_Raise. }
  destruct (assignment_from_pb_Ok _ _ _ _ Hasg) as (-> & Hnd & Hkeys).
  destruct (_generate_combinations_elems (_probes_by_component self) assignment Hnd)
    as (combinations & -> & Helems).
  { intros c Hc. by destruct (Hkeys c Hc) as (? & ? & ? & ?). }
  simpl.
  assert (Hreq : ∀ probe_id rest, (probe_id :: rest) ∈ combinations →
            requested_probe self request probe_id
            ∧ Z.of_nat (length (probe_id :: rest)) = total_count assignment).
  { intros probe_id rest Hin.
    destruct (Helems _ Hin) as (Hlen & main & probes & p & r & Hmain & Hp & Hprobe & [= -> ->]).
    split; [|done]. destruct (Hkeys main Hmain) as (pb & Hpb & <- & _).
    by exists pb, probes. }
  pose proof (predict_loop_outcomes cfg self (hw_id request) combinations) as H.
  destruct (predict_loop cfg self (hw_id request) combinations) as [[[] self']|e].
  - by destruct H.
  - destruct H as (l1 & probe_id & rest & l2 & Hc & _ & _ & ->).
    destruct (Hreq probe_id rest) as [? ?].
    { rewrite Hc. apply elem_of_app. right. by left. }
    by exists probe_id, (length (probe_id :: rest)), assignment.
  - destruct H as [[_ Hin]|(probe_id & rest & Hin & -> & Hnone)].
    + destruct (Helems _ Hin) as (_ & ? & ? & ? & ? & _ & _ & _ & ?). discriminate.
    + right. exists probe_id. split_and!; [done | done |]. by destruct (Hreq _ _ Hin).
Qed.

(** X16.  Outside the single-instance case, [Predict] returns true exactly
    when every generated combination has a measurement or may go to the
    statistical predictor, has a controlled probe known by id, and every
    requirement of that probe is predicted to hold.  In particular a request
    that yields no combination is predicted true. *)
Theorem Predict_true_iff cfg request self hw assignment combinations :
  single_default_instance cfg request = false →
  assignment_from_pb self request = Ok (hw, assignment) →
  _generate_combinations (_probes_by_component self) assignment = Ok combinations →
  Predict cfg request self = Ok (true, self)
  ↔ Forall (fun c => combination_ok cfg self hw c = true) combinations.
Proof.
  intros Hsingle Hasg Hgen. unfold Predict. rewrite Hsingle, Hasg. simpl. rewrite Hgen. simpl.
  pose proof (predict_loop_outcomes cfg self hw combinations) as H.
  destruct (predict_loop cfg self hw combinations) as [[[] self']|e].
  - destruct H as [-> Hall]. done.
  - destruct H as (l1 & probe_id & rest & l2 & -> & _ & Hbad & _). split; [discriminate|].
    intros Hall. apply Forall_app in Hall as [_ Hall]. apply Forall_cons in Hall as [Hok _].
    congruence.
  - split; [discriminate|]. intros Hall. rewrite Forall_forall in Hall.
    destruct H as [[_ Hin]|(probe_id & rest & Hin & _ & Hnone)].
    + specialize (Hall _ Hin). unfold combination_ok, combination_passes in Hall.
      by rewrite andb_false_r in Hall.
    + specialize (Hall _ Hin). unfold combination_ok, combination_passes in Hall.
      by rewrite Hnone, andb_false_r in Hall.
Qed.

Lemma Predict_true_iff_witness :
  Predict settings empty_request (registered ∅) = Ok (true, registered ∅).
Proof.
  apply (Predict_true_iff settings empty_request (registered ∅) "hw1" [] []);
    [reflexivity | reflexivity | reflexivity | constructor].
Defined.

End PredictFacts.

(** * More on the aggregator: RegisterApp and JudgeApp *)

Module RegistrationFacts.
Import KnowledgeModel Aggregator.
Import AggregatorFacts.

Section Registration.
Variable signal_set : Probe → string.
Variable sg_register_probe : list (string * string * nat) → Probe → list (string * string * nat).
Variable report_measurements : MeasurementAggregator → Probe → MeasurementAggregator.

Abbreviation register_app_probe := (register_app_probe signal_set sg_register_probe report_measurements).
Abbreviation RegisterApp := (RegisterApp signal_set sg_register_probe report_measurements).

Lemma register_app_probe_fields cfg self probe :
  let self' := register_app_probe cfg self probe in
  applications self' = applications self
  ∧ _probes_by_component self' = _probes_by_component self
  ∧ _predictor self' = _predictor self
  ∧ _probes_by_id self' = <[probe_alias probe := probe]> (_probes_by_id self).
Proof.
  unfold register_app_probe. simpl. by destruct (_ && _).
Qed.

Lemma register_app_probes_fields cfg probes : ∀ self,
  let self' := foldl (register_app_probe cfg) self probes in
  applications self' = applications self
  ∧ _probes_by_component self' = _probes_by_component self
  ∧ _predictor self' = _predictor self
  ∧ ∀ a, _probes_by_id self' !! a
         = match last (with_alias a probes) with
           | Some p => Some p
           | None => _probes_by_id self !! a
           end.
Proof.
  induction probes as [|p probes IH]; intros self; simpl; [done|].
  destruct (register_app_probe_fields cfg self p) as (Ha & Hc & Hp & Hi).
  destruct (IH (register_app_probe cfg self p)) as (Ha' & Hc' & Hp' & Hi').
  split_and!; try congruence.
  intros a. rewrite Hi', Hi. unfold with_alias. simpl.
  destruct (String.eqb_spec (probe_alias p) a) as [<-|Hne].
  - rewrite last_cons, lookup_insert_eq. by destruct (last _).
  - rewrite lookup_insert_ne by done. done.
Qed.

Lemma with_alias_app a l1 l2 : with_alias a (l1 ++ l2) = with_alias a l1 ++ with_alias a l2.
Proof. unfold with_alias. apply List.filter_app. Qed.

Lemma register_components_fields cfg cs : ∀ self,
  let self' :=
    foldl (fun self component => foldl (register_app_probe cfg) self (comp_probes component))
      self cs in
  applications self' = applications self
  ∧ _probes_by_component self' = _probes_by_component self
  ∧ _predictor self' = _predictor self
  ∧ ∀ a, _probes_by_id self' !! a
         = match last (with_alias a (concat (map comp_probes cs))) with
           | Some p => Some p
           | None => _probes_by_id self !! a
           end.
Proof.
  induction cs as [|c cs IH]; intros self; simpl; [done|].
  destruct (register_app_probes_fields cfg (comp_probes c) self) as (Ha & Hc & Hp & Hi).
  destruct (IH (foldl (register_app_probe cfg) self (comp_probes c))) as (Ha' & Hc' & Hp' & Hi').
  split_and!; try congruence.
  intros a. rewrite Hi', Hi, with_alias_app, last_app. by destruct (last _).
Qed.

Lemma RegisterApp_fields cfg app self :
  let self' := RegisterApp cfg app self in
  applications self' = <[app_name app := app]> (applications self)
  ∧ _probes_by_component self' = _probes_by_component self
  ∧ _predictor self' = _predictor self
  ∧ (∀ a, _probes_by_id self' !! a
          = match last (with_alias a (all_probes app)) with
            | Some p => Some p
            | None => _probes_by_id self !! a
            end).
Proof.
  unfold RegisterApp, all_probes. simpl.
  match goal with |- context [foldl ?f ?s ?l] =>
    destruct (register_components_fields cfg l s) as (Ha & Hc & Hp & Hi) end.
  done.
Qed.

Lemma RegisterApp_pbc cfg app self :
  _probes_by_component (RegisterApp cfg app self) = _probes_by_component self.
Proof. by destruct (RegisterApp_fields cfg app self) as (_ & ? & _). Qed.

Lemma RegisterApp_registered cfg app self :
  applications (RegisterApp cfg app self) !! app_name app = Some app
  ∧ ∀ p, p ∈ all_probes app →
      is_Some (_probes_by_id (RegisterApp cfg app self) !! probe_alias p).
Proof.
  destruct (RegisterApp_fields cfg app self) as (Ha & _ & _ & Hi). simpl in *.
  split.
  - by rewrite Ha, lookup_insert_eq.
  - intros p Hp'. rewrite Hi.
    destruct (last (with_alias (probe_alias p) (all_probes app))) eqn:E; [by eexists|].
    apply last_None in E.
    assert (Hin : p ∈ with_alias (probe_alias p) (all_probes app)).
    { apply list_elem_of_In, filter_In. split; [by apply list_elem_of_In|].
      apply String.eqb_refl. }
    rewrite E in Hin. by apply elem_of_nil in Hin.
Qed.

(** X17.  Whatever the scenario generator and the measurement aggregator do
    with what they are told, [RegisterApp] files the application under its
    name and every probe of it under its alias (of two probes with one alias
    the later one stays); it leaves every other alias, the predictor and, in
    particular, [_probes_by_component] as they were: the probes are not
    indexed by component. *)
Theorem RegisterApp_indexes cfg app self :
  let self' := RegisterApp cfg app self in
  applications self' = <[app_name app := app]> (applications self)
  ∧ _probes_by_component self' = _probes_by_component self
  ∧ _predictor self' = _predictor self
  ∧ (∀ a, _probes_by_id self' !! a
          = match last (with_alias a (all_probes app)) with
            | Some p => Some p
            | None => _probes_by_id self !! a
            end)
  ∧ (∀ p, p ∈ all_probes app → is_Some (_probes_by_id self' !! probe_alias p)).
Proof.
  destruct (RegisterApp_fields cfg app self) as (Ha & Hc & Hp & Hi).
  destruct (RegisterApp_registered cfg app self) as [_ Hknown].
  simpl. split_and!; assumption.
Qed.

(** X18.  Registration alone does not make an application predictable: on
    an aggregator that has no entry for the first component of a request,
    [Predict] still fails its assertion after any [RegisterApp]. *)
Theorem RegisterApp_then_Predict cfg app self request pb rest :
  components request = pb :: rest →
  _probes_by_component self !! component_id pb = None →
  Predict cfg request (RegisterApp cfg app self) = Raise AssertionError.
Proof.
  intros Hc Hnone. unfold Predict, single_default_instance, assignment_from_pb.
  rewrite Hc. simpl. rewrite !RegisterApp_pbc, Hnone.
  destruct rest; [|done]. by destruct (_ && _).
Qed.

(** X19.  Registration, judgement and prediction in a row, for a complete
    application with one component whose probes (at least one) name that
    component: when the isolation measurements are there and every
    requirement holds on them, [JudgeApp] after [RegisterApp] returns
    ACCEPTED, the component then has its probe set, and one instance of it
    on the default hardware is predicted true. *)
Theorem RegisterApp_JudgeApp_Predict cfg app self k c :
  app_components app = [(k, c)] →
  comp_probes c ≠ [] →
  (∀ p, p ∈ comp_probes c → probe_component_id p = comp_id c) →
  app_is_complete app = true →
  first_offender cfg (RegisterApp cfg app self) (all_probes app) = None →
  ∃ self2,
    JudgeApp cfg app (RegisterApp cfg app self) = Ok (ACCEPTED, self2)
    ∧ _probes_by_component self2 !! comp_id c
      = Some (foldl (fun s p => set_add (probe_alias p) s) [] (comp_probes c))
    ∧ Predict cfg (one_instance_of cfg c) self2 = Ok (true, self2).
Proof.
  intros Hcs Hne Hcid Hcomplete Hnone.
  destruct (RegisterApp_registered cfg app self) as [Happ Hids].
  rewrite JudgeApp_scan, Happ, Hnone, Hcomplete.
  rewrite (accept_single_component app k c _ Hcs Hne).
  2:{ intros p Hp. split; [by apply Hcid|]. apply Hids.
      unfold all_probes. rewrite Hcs. simpl. by rewrite app_nil_r. }
  eexists. split; [done|].
  assert (Hset : _probes_by_component (reregistered app c (RegisterApp cfg app self)) !! comp_id c
                 = Some (foldl (fun s p => set_add (probe_alias p) s) [] (comp_probes c))).
  { simpl. by rewrite lookup_insert_eq. }
  split; [exact Hset|].
  unfold Predict, single_default_instance, one_instance_of.
  cbn [components hw_id count component_id]. rewrite String.eqb_refl. cbn [Z.eqb andb Pos.eqb].
  by rewrite Hset.
Qed.

End Registration.

Lemma RegisterApp_JudgeApp_Predict_witness :
  let self1 :=
    RegisterApp (fun _ => "") (fun g _ => g) (fun m _ => m) settings
      (application [probe_A 10] true)
      (PerformanceDataAggregator_init measurements predictor) in
  ∃ self2,
    JudgeApp settings (application [probe_A 10] true) self1 = Ok (ACCEPTED, self2)
    ∧ Predict settings (one_instance_of settings (component_c [probe_A 10])) self2
      = Ok (true, self2).
Proof.
  simpl.
  destruct (RegisterApp_JudgeApp_Predict (fun _ => "") (fun g _ => g) (fun m _ => m)
              settings (application [probe_A 10] true)
              (PerformanceDataAggregator_init measurements predictor)
              "c" (component_c [probe_A 10]))
    as (self2 & HJ & _ & HP).
  - reflexivity.
  - discriminate.
  - intros p Hp. apply list_elem_of_singleton in Hp as ->. reflexivity.
  - reflexivity.
  - by vm_compute.
  - exists self2. split; [exact HJ | exact HP].
Defined.

Lemma RegisterApp_then_Predict_witness :
  Predict settings (request 1)
    (RegisterApp (fun _ => "") (fun g _ => g) (fun m _ => m) settings
       (application [probe_A 10] true)
       (PerformanceDataAggregator_init measurements predictor))
  = Raise AssertionError.
Proof.
  apply (RegisterApp_then_Predict (fun _ => "") (fun g _ => g) (fun m _ => m) settings
           (application [probe_A 10] true)
           (PerformanceDataAggregator_init measurements predictor)
           (request 1) {| component_id := "app_c"; count := 1 |} []).
  - reflexivity.
  - reflexivity.
Defined.

End RegistrationFacts.

Module JudgeFacts.
Import KnowledgeModel Aggregator.
Import AggregatorFacts.

Lemma reregister_probes_raises probes : ∀ pbc pbi probe e,
  reregister_probes probes pbc pbi probe = Raise e →
  e = AssertionError ∨ ∃ key, e = KeyError key.
Proof.
  induction probes as [|p probes IH]; intros pbc pbi probe e; simpl; [discriminate|].
  destruct (pbi !! probe_alias p); [|intros [= <-]; by left].
  destruct (pbc !! probe_component_id p); [apply IH|].
  intros [= <-]. right. eauto.
Qed.

Lemma reregister_components_raises cs : ∀ pbc pbi probe e,
  reregister_components cs pbc pbi probe = Raise e →
  e = AssertionError ∨ (∃ key, e = KeyError key) ∨ e = UnboundLocalError "probe".
Proof.
  induction cs as [|c cs IH]; intros pbc pbi probe e; simpl; [discriminate|].
  destruct probe as [stale|]; [|intros [= <-]; by right; right].
  destruct (reregister_probes _ _ _ _) as [[[pbc' pbi'] probe']|e'] eqn:E; simpl.
  - apply IH.
  - intros [= <-]. apply reregister_probes_raises in E as [?|?]; [by left | right; by left].
Qed.

(** X20.  When [JudgeApp] returns NEEDS_DATA, REJECTED or MEASURED, the
    aggregator is as before.  When it returns ACCEPTED, the application is
    registered and complete, no probe lacks its measurement or fails a
    requirement, the application is stored under its name, and the
    predictors and the scenario generator are as before.  It raises only in
    the re-registration that follows a successful judgement of a registered,
    complete application, and then one of AssertionError, KeyError and
    UnboundLocalError; what the aggregator holds after a raise is not
    stated here. *)
Theorem JudgeApp_returns_frame cfg app self :
  match JudgeApp cfg app self with
  | Ok (ACCEPTED, self') =>
      app_is_complete app = true
      ∧ first_offender cfg self (all_probes app) = None
      ∧ is_Some (applications self !! app_name app)
      ∧ applications self' = <[app_name app := app]> (applications self)
      ∧ _single_process_predictor self' = _single_process_predictor self
      ∧ _predictor self' = _predictor self
      ∧ _scenario_generator self' = _scenario_generator self
  | Ok (_, self') => self' = self
  | Raise e =>
      app_is_complete app = true
      ∧ first_offender cfg self (all_probes app) = None
      ∧ is_Some (applications self !! app_name app)
      ∧ (e = AssertionError ∨ (∃ key, e = KeyError key) ∨ e = UnboundLocalError "probe")
  end.
Proof.
  rewrite JudgeApp_scan.
  destruct (applications self !! app_name app) as [a|] eqn:Ha; [|done].
  destruct (first_offender cfg self (all_probes app)) as [p|] eqn:Hp.
  { by destruct (probe_measured cfg self p). }
  destruct (app_is_complete app); [|done].
  unfold accept.
  destruct (reregister_components _ _ _ _) as [[[pbc pbi] probe]|e] eqn:E; simpl.
  - split_and!; eauto.
  - split_and!; eauto. by eapply reregister_components_raises.
Qed.

(** X21.  A complete, registered application without any probe: with no
    component it is accepted; with a component, the re-registration reads
    the loop variable [probe] that no loop has bound, and [JudgeApp] raises
    UnboundLocalError. *)
Theorem JudgeApp_without_probes cfg app self :
  is_Some (applications self !! app_name app) →
  app_is_complete app = true →
  all_probes app = [] →
  JudgeApp cfg app self
  = match app_components app with
    | [] =>
        Ok (ACCEPTED,
            {| _single_process_predictor := _single_process_predictor self;
               _predictor := _predictor self;
               applications := <[app_name app := app]> (applications self);
               _probes_by_component := _probes_by_component self;
               _probes_by_id := _probes_by_id self;
               _scenario_generator := _scenario_generator self |})
    | _ :: _ => Raise (UnboundLocalError "probe")
    end.
Proof.
  intros [a Ha] Hcomplete Hnone. rewrite JudgeApp_scan, Ha, Hnone, Hcomplete. simpl.
  unfold accept. by destruct (app_components app) as [|[k c] rest].
Qed.

Lemma JudgeApp_without_probes_witness :
  JudgeApp settings (application [] true) (registered ∅) = Raise (UnboundLocalError "probe").
Proof.
  apply (JudgeApp_without_probes settings (application [] true) (registered ∅)).
  - eexists. by vm_compute.
  - reflexivity.
  - reflexivity.
Defined.

(** X22.  An application whose judgement succeeds, whose first component
    has a probe, and whose last probe belongs to another component, cannot
    be accepted while the component of that first probe has no entry in
    [_probes_by_component]: the re-registration empties the probe set of the
    component of the last probe and then looks up the set of the first one,
    which raises KeyError.  On an aggregator that has accepted nothing yet,
    this is every application with probes in two components. *)
Theorem JudgeApp_two_components cfg app self k1 c1 rest p1 ps stale :
  is_Some (applications self !! app_name app) →
  app_is_complete app = true →
  first_offender cfg self (all_probes app) = None →
  app_components app = (k1, c1) :: rest →
  comp_probes c1 = p1 :: ps →
  last (all_probes app) = Some stale →
  probe_component_id stale ≠ probe_component_id p1 →
  is_Some (_probes_by_id self !! probe_alias p1) →
  _probes_by_component self !! probe_component_id p1 = None →
  JudgeApp cfg app self = Raise (KeyError (probe_component_id p1)).
Proof.
  intros [a Ha] Hcomplete Hnone Hcs Hp1 Hlast Hne [q Hq] Hpbc.
  rewrite JudgeApp_scan, Ha, Hnone, Hcomplete, Hlast.
  unfold accept. rewrite Hcs. cbn [dict_values map snd reregister_components].
  rewrite Hp1. cbn [reregister_probes]. rewrite Hq.
  rewrite lookup_insert_ne by done. by rewrite Hpbc.
Qed.

Lemma JudgeApp_two_components_witness :
  JudgeApp settings two_component_app
    {| _single_process_predictor := all_measured;
       _predictor := predictor;
       applications := {[ "app" := two_component_app ]};
       _probes_by_component := ∅;
       _probes_by_id := {[ "A" := probe_A 10; "X" := probe_X ]};
       _scenario_generator := [] |}
  = Raise (KeyError "app_c").
Proof.
  apply (JudgeApp_two_components settings two_component_app _ "c" (component_c [probe_A 10])
           [("d", component_d)] (probe_A 10) [] probe_X).
  - eexists. by vm_compute.
  - reflexivity.
  - by vm_compute.
  - reflexivity.
  - reflexivity.
  - reflexivity.
  - discriminate.
  - eexists. by vm_compute.
  - by vm_compute.
Defined.

End JudgeFacts.

(** * Properties of middleware/probe_monitor.py *)

Module ProbeMonitorFacts.
Import ProbeMonitor.

(** ** The workload flag *)

(** X23.  The workload of a probe monitor: [start_probe_workload] for a known
    probe on an idle monitor succeeds and sets [has_workload], and
    [stop_probe_workload] then succeeds and clears it.  While a workload
    runs, another start and [execute_probe] fail their assertion and change
    nothing; on an idle monitor, [stop_probe_workload] fails its assertion
    and changes nothing. *)
Theorem workload_protocol self :
  (∀ name executable,
     _workload_enabled self = false →
     _probes self !! name = Some executable →
     let self1 := snd (start_probe_workload name self) in
     fst (start_probe_workload name self) = inl tt
     ∧ has_workload self1 = true
     ∧ _probes self1 = _probes self
     ∧ fst (stop_probe_workload self1) = inl tt
     ∧ has_workload (snd (stop_probe_workload self1)) = false)
  ∧ (∀ name,
       _workload_enabled self = true →
       start_probe_workload name self = (inr (PyError AssertionError), self))
  ∧ (∀ machine name warm_up_cycles measured_cycles cpu_events s,
       _workload_enabled self = true →
       execute_probe machine self name warm_up_cycles measured_cycles cpu_events s
       = (inr (PyError AssertionError), s))
  ∧ (_workload_enabled self = false →
     stop_probe_workload self = (inr (PyError AssertionError), self)).
Proof.
  split_and!.
  - intros name executable Hidle Hprobe. unfold start_probe_workload, stop_probe_workload.
    rewrite Hidle. simpl. rewrite Hprobe. done.
  - intros name Hbusy. unfold start_probe_workload. by rewrite Hbusy.
  - intros machine name w m e s Hbusy. unfold execute_probe. by rewrite Hbusy.
  - intros Hidle. unfold stop_probe_workload. by rewrite Hidle.
Qed.

(** X24.  [start_probe_workload] for a probe that is not registered raises
    KeyError, but only after it has set the flag: the monitor then reports a
    workload although no thread was started, every further start and every
    [execute_probe] fail their assertion, and [stop_probe_workload] clears
    the flag again, raising AttributeError when no workload was ever
    started on this monitor. *)
Theorem workload_flag_stays_set name self :
  _workload_enabled self = false →
  _probes self !! name = None →
  let self1 := snd (start_probe_workload name self) in
  fst (start_probe_workload name self) = inr (PyError (KeyError name))
  ∧ has_workload self1 = true
  ∧ _workload_thread self1 = _workload_thread self
  ∧ (∀ other, start_probe_workload other self1 = (inr (PyError AssertionError), self1))
  ∧ (∀ machine other warm_up_cycles measured_cycles cpu_events s,
       execute_probe machine self1 other warm_up_cycles measured_cycles cpu_events s
       = (inr (PyError AssertionError), s))
  ∧ has_workload (snd (stop_probe_workload self1)) = false
  ∧ fst (stop_probe_workload self1)
    = match _workload_thread self with
      | None => inr (PyError (AttributeError "_workload_thread"))
      | Some _ => inl tt
      end.
Proof.
  intros Hidle Hprobe. unfold start_probe_workload. rewrite Hidle. simpl. rewrite Hprobe.
  simpl. split_and!; try done.
  - unfold stop_probe_workload. simpl. by destruct (_workload_thread self).
  - unfold stop_probe_workload. simpl. by destruct (_workload_thread self).
Qed.

Lemma workload_flag_stays_set_witness :
  let self1 := snd (start_probe_workload "p" (ProbeMonitor_init true)) in
  has_workload self1 = true
  ∧ fst (stop_probe_workload self1) = inr (PyError (AttributeError "_workload_thread")).
Proof.
  destruct (workload_flag_stays_set "p" (ProbeMonitor_init true) eq_refl eq_refl)
    as (_ & H1 & _ & _ & _ & _ & H2).
  split; [exact H1 | exact H2].
Defined.

(** ** execute_probe *)

Lemma append_assoc (a b c : string) : (a +:+ b) +:+ c = a +:+ (b +:+ c).
Proof.
  induction a as [|x a IH]; [done|].
  change (String x ((a +:+ b) +:+ c) = String x (a +:+ (b +:+ c))). by rewrite IH.
Qed.

Lemma append_nil_r (a : string) : a +:+ "" = a.
Proof.
  induction a as [|x a IH]; [done|].
  change (String x (a +:+ "") = String x a). by rewrite IH.
Qed.

Section Facts.
Variable machine : Machine.

Lemma measure_S n executable collector s :
  measure machine (S n) executable collector s
  = match collector_before_iteration machine collector s with
    | (inl c1, s1) =>
        match collector_after_iteration machine c1 (snd (call executable s1)) with
        | (inl c2, s2) => measure machine n executable c2 s2
        | (inr e, s2) => (inr e, s2)
        end
    | (inr e, s1) => (inr e, s1)
    end.
Proof.
  cbn [measure]. unfold mbind, M_bind.
  destruct (collector_before_iteration machine collector s) as [[c1|e] s1]; [|done].
  cbn. by destruct (collector_after_iteration machine c1 _) as [[c2|e] s2].
Qed.

Lemma time_before_iteration tm data s :
  collector_before_iteration machine
    {| _monitors := [OfTime tm]; _header := time_header; _data_file := data |} s
  = (inl {| _monitors :=
              [OfTime {| _start_time := perf_counter machine (clock_reads s);
                         _end_time := _end_time tm |}];
            _header := time_header; _data_file := data |},
     {| clock_reads := S (clock_reads s); stat_reads := stat_reads s;
        counter_reads := counter_reads s; dirs := dirs s; files := files s;
        open_files := open_files s; calls := calls s |}).
Proof. reflexivity. Qed.

Lemma time_after_iteration tm data s :
  collector_after_iteration machine
    {| _monitors := [OfTime tm]; _header := time_header; _data_file := data |} s
  = (inl {| _monitors :=
              [OfTime {| _start_time := _start_time tm;
                         _end_time := perf_counter machine (clock_reads s) |}];
            _header := time_header; _data_file := data |},
     {| clock_reads := S (clock_reads s); stat_reads := stat_reads s;
        counter_reads := counter_reads s; dirs := dirs s;
        files :=
          <[data := default "" (files s !! data)
                    +:+ row [_start_time tm; perf_counter machine (clock_reads s);
                             perf_counter machine (clock_reads s) - _start_time tm]]>
            (files s);
        open_files := open_files s; calls := calls s |}).
Proof. reflexivity. Qed.

Lemma measure_time n executable data : ∀ tm s content,
  files s !! data = Some content →
  ∃ tm' s',
    measure machine n executable
      {| _monitors := [OfTime tm]; _header := time_header; _data_file := data |} s
    = (inl {| _monitors := [OfTime tm']; _header := time_header; _data_file := data |}, s')
    ∧ clock_reads s' = (clock_reads s + 2 * n)%nat
    ∧ stat_reads s' = stat_reads s
    ∧ counter_reads s' = counter_reads s
    ∧ dirs s' = dirs s
    ∧ files s'
      = <[data := content +:+ rows (time_rows machine (clock_reads s) n)]> (files s)
    ∧ open_files s' = open_files s
    ∧ calls s' = calls s ++ repeat executable n.
Proof.
  induction n as [|n IH]; intros tm s content Hcontent.
  - exists tm, s. simpl. rewrite append_nil_r, insert_id, app_nil_r by done.
    split_and!; try done; lia.
  - rewrite measure_S, time_before_iteration, time_after_iteration.
    cbn [call snd clock_reads stat_reads counter_reads dirs files open_files calls
         _start_time _end_time].
    rewrite Hcontent. cbn [default].
    edestruct IH as (tm' & s' & -> & Hclock & Hstat & Hcount & Hdirs & Hfiles & Hopen & Hcalls).
    { cbn [files]. apply lookup_insert_eq. }
    exists tm', s'. cbn in Hclock, Hstat, Hcount, Hdirs, Hfiles, Hopen, Hcalls.
    split_and!; try done.
    + lia.
    + rewrite Hfiles, insert_insert_eq. f_equal. cbn [time_rows rows foldr].
      by rewrite append_assoc.
    + rewrite Hcalls, <- app_assoc. done.
Qed.

Lemma results_files_differ name :
  get_results_header_file name ≠ get_results_data_file name.
Proof.
  unfold get_results_header_file, get_results_data_file.
  intros H. apply (inj (String.app RESULTS_DIR)) in H.
  apply (inj (String.app name)) in H. discriminate.
Qed.

Lemma warm_up n executable : ∀ s,
  repeatM n (call executable) s
  = (inl tt,
     {| clock_reads := clock_reads s; stat_reads := stat_reads s;
        counter_reads := counter_reads s; dirs := dirs s; files := files s;
        open_files := open_files s; calls := calls s ++ repeat executable n |}).
Proof.
  induction n as [|n IH]; intros s.
  - simpl. rewrite app_nil_r. by destruct s.
  - cbn [repeatM]. unfold mbind, M_bind. cbn [call]. rewrite IH. cbn.
    by rewrite <- app_assoc.
Qed.

Lemma ensure_dir_made d s :
  d ∈ dirs s ∨ makedirs_error machine d = None →
  ∃ s',
    ensure_dir machine d s = (inl tt, s')
    ∧ clock_reads s' = clock_reads s ∧ stat_reads s' = stat_reads s
    ∧ counter_reads s' = counter_reads s ∧ dirs s' = {[ d ]} ∪ dirs s
    ∧ files s' = files s ∧ open_files s' = open_files s ∧ calls s' = calls s.
Proof.
  intros Hd. unfold ensure_dir. case_bool_decide as Hin.
  - exists s. split_and!; try done. symmetry. apply subseteq_union_1_L.
    by apply singleton_subseteq_l.
  - destruct Hd as [Hd | ->]; [done|]. eexists. split; [reflexivity|]. done.
Qed.

Local Abbreviation header_of monitors :=
  (foldl (fun h monitor => h ++ header (IterativeMonitor := Monitor_monitor machine) monitor)
     [] monitors).

Lemma init_writes name cpu_events production s monitors s0 :
  create_monitors machine cpu_events production s = (inl monitors, s0) →
  header_of monitors ≠ [] →
  results_writable machine name s0 →
  ∃ s1,
    DataCollector_init machine name cpu_events production s
    = (inl {| _monitors := monitors;
              _header := header_of monitors;
              _data_file := get_results_data_file name |}, s1)
    ∧ clock_reads s1 = clock_reads s0
    ∧ stat_reads s1 = stat_reads s0
    ∧ counter_reads s1 = counter_reads s0
    ∧ dirs s1 = {[ RESULTS_DIR ]} ∪ dirs s0
    ∧ files s1
      = <[get_results_data_file name := ""]>
          (<[get_results_header_file name :=
               String.concat SEPARATOR
                 (header_of monitors)]> (files s0))
    ∧ open_files s1
      = get_results_data_file name
        :: List.filter (fun p => negb (String.eqb p (get_results_header_file name)))
             (open_files s0)
    ∧ calls s1 = calls s0.
Proof.
  intros Hcreate Hheader (Hdir & Hopen1 & Hopen2).
  unfold DataCollector_init, mbind at 1, M_bind at 1. rewrite Hcreate.
  set (header_ := foldl _ [] monitors) in *.
  unfold mbind at 1, M_bind at 1.
  replace (0 <? length header_)%nat with true
    by (symmetry; apply Nat.ltb_lt; destruct header_; [done | simpl; lia]).
  cbn [assertM mret M_ret].
  destruct (ensure_dir_made RESULTS_DIR s0 Hdir)
    as (s' & Hensure & Hc & Hst & Hco & Hd & Hf & Ho & Hca).
  unfold mbind at 1, M_bind at 1. rewrite Hensure.
  unfold mbind at 1, M_bind at 1, open_w at 1. rewrite Hd, Hopen1.
  unfold mbind at 1, M_bind at 1. cbn [write files dirs].
  unfold mbind at 1, M_bind at 1. cbn [close dirs].
  unfold mbind at 1, M_bind at 1, open_w. cbn [dirs]. rewrite Hopen2.
  cbn [mret M_ret]. eexists. split; [reflexivity|]. cbn.
  rewrite String.eqb_refl, lookup_insert_eq, insert_insert_eq, Hc, Hst, Hco, Hf, Ho, Hca.
  done.
Qed.

Lemma production_init name cpu_events s :
  results_writable machine name s →
  ∃ s1,
    DataCollector_init machine name cpu_events true s
    = (inl {| _monitors := [OfTime TimeMonitor_init]; _header := time_header;
              _data_file := get_results_data_file name |}, s1)
    ∧ clock_reads s1 = clock_reads s
    ∧ stat_reads s1 = stat_reads s
    ∧ counter_reads s1 = counter_reads s
    ∧ dirs s1 = {[ RESULTS_DIR ]} ∪ dirs s
    ∧ files s1
      = <[get_results_data_file name := ""]>
          (<[get_results_header_file name := "start_time;end_time;elapsed"]> (files s))
    ∧ open_files s1
      = get_results_data_file name
        :: List.filter (fun p => negb (String.eqb p (get_results_header_file name)))
             (open_files s)
    ∧ calls s1 = calls s.
Proof.
  intros Hw.
  exact (init_writes name cpu_events true s [OfTime TimeMonitor_init] s eq_refl
           ltac:(discriminate) Hw).
Qed.

Lemma finish_time tm header_ data s :
  collector_finish machine
    {| _monitors := [OfTime tm]; _header := header_; _data_file := data |} s
  = close data s.
Proof. reflexivity. Qed.

(** X25.  When the result files of the probe can be written,
    [execute_probe] of a registered probe on an idle monitor in production
    mode returns the time between its two own clock readings and calls the
    executable once per warm-up cycle and once per measured cycle (a
    negative number of cycles counts as none).  Afterwards the header
    file of the probe holds the three column names, the data file holds one
    row per measured cycle with the start time, the end time and their
    difference, the data file is closed, the results directory exists and
    every other file is as before. *)
Theorem execute_probe_production self name warm_up_cycles measured_cycles cpu_events
    executable s :
  _production self = true →
  _workload_enabled self = false →
  _probes self !! name = Some executable →
  results_writable machine name s →
  let k := clock_reads s in
  let n := Z.to_nat measured_cycles in
  ∃ s',
    execute_probe machine self name warm_up_cycles measured_cycles cpu_events s
    = (inl (perf_counter machine (k + 1 + 2 * n) - perf_counter machine k), s')
    ∧ calls s' = calls s ++ repeat executable (Z.to_nat warm_up_cycles + n)
    ∧ files s' !! get_results_header_file name = Some "start_time;end_time;elapsed"
    ∧ files s' !! get_results_data_file name = Some (rows (time_rows machine (S k) n))
    ∧ (∀ p, p ≠ get_results_header_file name → p ≠ get_results_data_file name →
            (files s' !! p) = (files s !! p))
    ∧ (get_results_data_file name ∉ open_files s')
    ∧ RESULTS_DIR ∈ dirs s'
    ∧ clock_reads s' = (k + 2 + 2 * n)%nat.
Proof.
  intros Hprod Hidle Hprobe Hwritable. simpl.
  unfold execute_probe. rewrite Hidle, Hprod, Hprobe.
  destruct (production_init name cpu_events s Hwritable)
    as (s1 & Hinit & Hclock1 & _ & _ & Hdirs1 & Hfiles1 & Hopen1 & Hcalls1).
  unfold mbind, M_bind. cbn [assertM negb mret M_ret]. rewrite Hinit.
  rewrite warm_up. cbn [now_ms].
  match goal with |- context [measure machine ?n ?e ?c ?st] =>
    destruct (measure_time n e (get_results_data_file name) TimeMonitor_init st "")
      as (tm' & s2 & -> & Hclock2 & _ & _ & Hdirs2 & Hfiles2 & Hopen2 & Hcalls2) end.
  { cbn [files]. rewrite Hfiles1. apply lookup_insert_eq. }
  cbn in Hclock2, Hdirs2, Hfiles2, Hopen2, Hcalls2.
  rewrite finish_time. unfold close. cbn.
  unfold mret, M_ret. eexists. split.
  - apply (f_equal2 pair); [|reflexivity].
    rewrite Hclock2, Hclock1. do 3 f_equal. lia.
  - rewrite Hclock1 in Hfiles2, Hclock2.
    cbn. rewrite Hclock2, Hcalls2, Hcalls1, Hfiles2, Hfiles1, Hopen2, Hopen1, Hdirs2, Hdirs1.
    pose proof (results_files_differ name) as Hne.
    split_and!.
    + rewrite <- app_assoc, repeat_app. done.
    + rewrite insert_insert_eq, lookup_insert_ne, lookup_insert_eq by done. done.
    + rewrite insert_insert_eq, lookup_insert_eq. reflexivity.
    + intros p Hp1 Hp2. by rewrite insert_insert_eq, !lookup_insert_ne.
    + cbn. rewrite String.eqb_refl. cbn.
      intros Hin%list_elem_of_In%filter_In. destruct Hin as [_ Hin].
      by rewrite String.eqb_refl in Hin.
    + apply elem_of_union. left. by apply elem_of_singleton.
    + lia.
Qed.

(** X26.  When the result files of that name can be written,
    [execute_probe] of a probe that is not registered raises KeyError only
    after the collector was created: no executable is called
    and the clock is not read, but the header file of that name has been
    written and the data file of that name is empty, whatever it held
    before. *)
Theorem execute_probe_unknown self name warm_up_cycles measured_cycles cpu_events s :
  _production self = true →
  _workload_enabled self = false →
  _probes self !! name = None →
  results_writable machine name s →
  ∃ s',
    execute_probe machine self name warm_up_cycles measured_cycles cpu_events s
    = (inr (PyError (KeyError name)), s')
    ∧ calls s' = calls s
    ∧ clock_reads s' = clock_reads s
    ∧ files s' !! get_results_header_file name = Some "start_time;end_time;elapsed"
    ∧ files s' !! get_results_data_file name = Some ""
    ∧ (∀ p, p ≠ get_results_header_file name → p ≠ get_results_data_file name →
            (files s' !! p) = (files s !! p)).
Proof.
  intros Hprod Hidle Hprobe Hwritable.
  unfold execute_probe. rewrite Hidle, Hprod, Hprobe.
  destruct (production_init name cpu_events s Hwritable)
    as (s1 & Hinit & Hclock1 & _ & _ & _ & Hfiles1 & _ & Hcalls1).
  unfold mbind, M_bind. cbn [assertM negb mret M_ret]. rewrite Hinit.
  exists s1. rewrite Hfiles1.
  pose proof (results_files_differ name) as Hne.
  split_and!; try done.
  - by rewrite lookup_insert_ne, lookup_insert_eq.
  - by rewrite lookup_insert_eq.
  - intros p Hp1 Hp2. by rewrite !lookup_insert_ne.
Qed.

(** *** Outside production mode *)

Lemma full_before_iteration tm dm cm header_ data s :
  length (stat machine (_file dm) (stat_reads s)) = _num_features dm →
  ∃ tm' dm' s',
    collector_before_iteration machine
      {| _monitors := [OfTime tm; OfDisk dm; OfCpu cm]; _header := header_;
         _data_file := data |} s
    = (inl {| _monitors := [OfTime tm'; OfDisk dm'; OfCpu cm]; _header := header_;
              _data_file := data |}, s')
    ∧ _file dm' = _file dm
    ∧ _num_features dm' = _num_features dm
    ∧ length (_start_data dm') = _num_features dm
    ∧ calls s' = calls s
    ∧ files s' = files s.
Proof.
  intros Hlen.
  unfold collector_before_iteration, mbind, M_bind. cbn.
  unfold mbind, M_bind, fmap, M_fmap. cbn.
  rewrite Hlen, Nat.eqb_refl. cbn.
  eexists _, _, _. split; [reflexivity|]. done.
Qed.

Lemma full_after_iteration tm dm cm header_ data s :
  length (stat machine (_file dm) (stat_reads s)) = _num_features dm →
  length (_start_data dm) = _num_features dm →
  (length header_
   = 3 + length DEFAULT_FEATURES + length (read_counters machine (counter_reads s)))%nat →
  (length DEFAULT_FEATURES < _num_features dm)%nat →
  ∃ s',
    collector_after_iteration machine
      {| _monitors := [OfTime tm; OfDisk dm; OfCpu cm]; _header := header_;
         _data_file := data |} s
    = (inr (PyError AssertionError), s')
    ∧ calls s' = calls s
    ∧ files s' = files s.
Proof.
  intros Hlen Hstart Hheader Hmany.
  unfold collector_after_iteration, mbind, M_bind. cbn [_header _monitors _data_file].
  rewrite Hheader. cbn.
  unfold mbind, M_bind, fmap, M_fmap. cbn.
  rewrite Hlen, Nat.eqb_refl. cbn.
  unfold mbind, M_bind. cbn.
  match goal with |- context [(?a =? ?b)%nat] =>
    replace (a =? b)%nat with false end.
  - cbn. eexists. split; [reflexivity|]. done.
  - symmetry. apply Nat.eqb_neq.
    rewrite !length_app, length_zip_with, Hstart, Hlen.
    unfold DEFAULT_FEATURES in Hmany. cbn [length] in Hmany. lia.
Qed.

Lemma create_monitors_full cpu_events s :
  create_monitors machine cpu_events false s
  = match find_stat_file machine with
    | None => (inr (PyError (AttributeError "_file")), s)
    | Some file =>
        let line := stat machine file (stat_reads s) in
        let s0 :=
          {| clock_reads := clock_reads s; stat_reads := S (stat_reads s);
             counter_reads := counter_reads s; dirs := dirs s; files := files s;
             open_files := open_files s; calls := calls s |} in
        if (length line =? 0)%nat then (inr IOEventsNotSupportedException, s0)
        else if (num_counters machine =? 0)%nat
        then (inr CPUEventsNotSupportedException, s0)
        else if bool_decide (cpu_events = Some []) then (inr (PyError AssertionError), s0)
        else
          match mapM (papi_event machine) (default DEFAULT_EVENTS cpu_events) with
          | None => (inr CPUEventsNotSupportedException, s0)
          | Some events =>
              if start_counters machine events
              then (inl [OfTime TimeMonitor_init;
                         OfDisk {| _file := file; _num_features := length line;
                                   _start_data := repeat 0 (length line);
                                   _end_data := repeat 0 (length line) |};
                         OfCpu {| _event_names := default DEFAULT_EVENTS cpu_events;
                                  _counters := None |}], s0)
              else (inr CPUEventsNotSupportedException, s0)
          end
    end.
Proof.
  unfold create_monitors, mbind at 1, M_bind at 1. cbn [negb].
  unfold DiskMonitor_init.
  destruct (find_stat_file machine) as [file|]; [|done].
  unfold mbind at 1, M_bind at 1. cbn [read_stat].
  destruct (length (stat machine file (stat_reads s)) =? 0)%nat; [done|].
  cbn [mret M_ret]. unfold mbind at 1, M_bind at 1, CpuMonitor_init.
  destruct (num_counters machine =? 0)%nat; [done|].
  destruct cpu_events as [[|ev l]|].
  - done.
  - rewrite bool_decide_eq_false_2 by done. unfold mbind, M_bind, start_events.
    cbn [length Nat.ltb Nat.leb assertM mret M_ret default].
    destruct (mapM _ _) as [events|]; [|done]. by destruct (start_counters _ _).
  - rewrite bool_decide_eq_false_2 by done. unfold start_events. cbn [default].
    destruct (mapM _ _) as [events|]; [|done]. by destruct (start_counters _ _).
Qed.

Lemma full_init name cpu_events file events s :
  find_stat_file machine = Some file →
  (length DEFAULT_FEATURES < length (stat machine file (stat_reads s)))%nat →
  num_counters machine ≠ 0%nat →
  default DEFAULT_EVENTS cpu_events ≠ [] →
  mapM (papi_event machine) (default DEFAULT_EVENTS cpu_events) = Some events →
  start_counters machine events = true →
  results_writable machine name s →
  ∃ dm header_ s1,
    DataCollector_init machine name cpu_events false s
    = (inl {| _monitors :=
                [OfTime TimeMonitor_init; OfDisk dm;
                 OfCpu {| _event_names := default DEFAULT_EVENTS cpu_events;
                          _counters := None |}];
              _header := header_;
              _data_file := get_results_data_file name |}, s1)
    ∧ _file dm = file
    ∧ _num_features dm = length (stat machine file (stat_reads s))
    ∧ length (_start_data dm) = _num_features dm
    ∧ (length header_
       = 3 + length DEFAULT_FEATURES + length (default DEFAULT_EVENTS cpu_events))%nat
    ∧ calls s1 = calls s
    ∧ files s1 !! get_results_data_file name = Some "".
Proof.
  intros Hfile Hmany Hcounters Hnames Hevents Hstart Hwritable.
  pose proof (create_monitors_full cpu_events s) as Hcreate.
  rewrite Hfile in Hcreate. cbv zeta in Hcreate.
  destruct (length (stat machine file (stat_reads s)) =? 0)%nat eqn:E.
  { apply Nat.eqb_eq in E. lia. }
  destruct (num_counters machine =? 0)%nat eqn:E'.
  { by apply Nat.eqb_eq in E'. }
  rewrite bool_decide_eq_false_2, Hevents, Hstart in Hcreate
    by (intros ->; by apply Hnames).
  edestruct (init_writes name cpu_events false s) as (s1 & Hinit & _ & _ & _ & _ & Hfiles & _ & Hcalls);
    [exact Hcreate | | exact Hwritable |].
  { cbn. discriminate. }
  eexists _, _, s1. split; [exact Hinit|]. cbn.
  split_and!; try done.
  - by rewrite repeat_length.
  - rewrite take_ge by (cbn [length] in *; lia). rewrite !length_app. done.
  - rewrite Hfiles. apply lookup_insert_eq.
Qed.

(** X27.  Outside production mode the collector cannot record a
    measurement when the statistics file of the block device has more
    fields than [DEFAULT_FEATURES] names: the header takes one column per
    name, the measurement one per field.  With a registered probe, an idle
    monitor, result files that can be written, a statistics file whose line
    always has that many fields, and PAPI counters that start and give one
    value per event, [execute_probe] of one or more measured cycles creates
    its collector, runs the warm-up, calls the executable for the first
    measured cycle and then raises AssertionError, leaving the data file
    empty. *)
Theorem execute_probe_many_io_stats self name warm_up_cycles measured_cycles cpu_events
    executable file num_features events s :
  _production self = false →
  _workload_enabled self = false →
  _probes self !! name = Some executable →
  results_writable machine name s →
  0 < measured_cycles →
  find_stat_file machine = Some file →
  (∀ n, length (stat machine file n) = num_features) →
  (length DEFAULT_FEATURES < num_features)%nat →
  num_counters machine ≠ 0%nat →
  default DEFAULT_EVENTS cpu_events ≠ [] →
  mapM (papi_event machine) (default DEFAULT_EVENTS cpu_events) = Some events →
  start_counters machine events = true →
  (∀ n, length (read_counters machine n) = length (default DEFAULT_EVENTS cpu_events)) →
  ∃ s',
    execute_probe machine self name warm_up_cycles measured_cycles cpu_events s
    = (inr (PyError AssertionError), s')
    ∧ calls s' = calls s ++ repeat executable (Z.to_nat warm_up_cycles + 1)
    ∧ files s' !! get_results_data_file name = Some "".
Proof.
  intros Hprod Hidle Hprobe Hwritable Hcycles Hfile Hstat Hmany Hcounters Hnames Hevents
    Hstart Hread.
  unfold execute_probe. rewrite Hidle, Hprod, Hprobe.
  destruct (full_init name cpu_events file events s)
    as (dm & header_ & s1 & Hinit & Hdm & Hnum & Hdata & Hheader & Hcalls1 & Hfiles1);
    try done.
  { by rewrite Hstat. }
  rewrite Hstat in Hnum.
  unfold mbind at 1, M_bind at 1. cbn [assertM negb mret M_ret].
  unfold mbind at 1, M_bind at 1. rewrite Hinit.
  unfold mbind at 1, M_bind at 1. rewrite warm_up.
  unfold mbind at 1, M_bind at 1. cbn [now_ms].
  destruct (Z.to_nat measured_cycles) as [|n] eqn:En; [lia|].
  unfold mbind at 1, M_bind at 1. rewrite measure_S.
  match goal with |- context [collector_before_iteration machine ?c ?st] =>
    destruct (full_before_iteration TimeMonitor_init dm
                {| _event_names := default DEFAULT_EVENTS cpu_events; _counters := None |}
                header_ (get_results_data_file name) st)
      as (tm1 & dm1 & s2 & -> & Hdm1 & Hnum1 & Hdata1 & Hcalls2 & Hfiles2) end.
  { by rewrite Hdm, Hstat. }
  match goal with |- context [collector_after_iteration machine ?c ?st] =>
    destruct (full_after_iteration tm1 dm1
                {| _event_names := default DEFAULT_EVENTS cpu_events; _counters := None |}
                header_ (get_results_data_file name) st)
      as (s3 & -> & Hcalls3 & Hfiles3) end.
  - by rewrite Hdm1, Hdm, Hstat, Hnum1.
  - by rewrite Hdata1, Hnum1.
  - by rewrite Hread.
  - by rewrite Hnum1, Hnum.
  - exists s3. split; [done|]. rewrite Hcalls3, Hfiles3. cbn.
    rewrite Hcalls2, Hfiles2. cbn. rewrite Hcalls1, Hfiles1.
    split; [|done]. by rewrite <- app_assoc, repeat_app.
Qed.

Lemma init_refused name cpu_events production s monitors s0 e s' :
  create_monitors machine cpu_events production s = (inl monitors, s0) →
  header_of monitors ≠ [] →
  DataCollector_init machine name cpu_events production s = (inr e, s') →
  calls s' = calls s0
  ∧ ∃ class_name,
      e = FileError class_name
      ∧ (((RESULTS_DIR ∉ dirs s0) ∧ makedirs_error machine RESULTS_DIR = Some class_name
          ∧ dirs s' = dirs s0 ∧ files s' = files s0)
         ∨ (open_error machine ({[ RESULTS_DIR ]} ∪ dirs s0) (get_results_header_file name)
            = Some class_name
            ∧ dirs s' = {[ RESULTS_DIR ]} ∪ dirs s0 ∧ files s' = files s0)
         ∨ (open_error machine ({[ RESULTS_DIR ]} ∪ dirs s0) (get_results_header_file name)
            = None
            ∧ open_error machine ({[ RESULTS_DIR ]} ∪ dirs s0) (get_results_data_file name)
              = Some class_name
            ∧ dirs s' = {[ RESULTS_DIR ]} ∪ dirs s0
            ∧ ∃ text, files s' = <[get_results_header_file name := text]> (files s0))).
Proof.
  intros Hcreate Hheader.
  unfold DataCollector_init, mbind at 1, M_bind at 1. rewrite Hcreate.
  set (header_ := foldl _ [] monitors) in *.
  unfold mbind at 1, M_bind at 1.
  replace (0 <? length header_)%nat with true
    by (symmetry; apply Nat.ltb_lt; destruct header_; [done | simpl; lia]).
  cbn [assertM mret M_ret].
  unfold mbind at 1, M_bind at 1, ensure_dir.
  assert (Htail : ∀ s1,
    dirs s1 = {[ RESULTS_DIR ]} ∪ dirs s0 → files s1 = files s0 → calls s1 = calls s0 →
    (open_w machine (get_results_header_file name)
     ≫= λ _, write (get_results_header_file name) (String.concat SEPARATOR header_)
     ≫= λ _, close (get_results_header_file name)
     ≫= λ _, open_w machine (get_results_data_file name)
     ≫= λ _, mret {| _monitors := monitors; _header := header_;
                     _data_file := get_results_data_file name |}) s1 = (inr e, s') →
    calls s' = calls s0
    ∧ ∃ class_name,
        e = FileError class_name
        ∧ (((RESULTS_DIR ∉ dirs s0) ∧ makedirs_error machine RESULTS_DIR = Some class_name
            ∧ dirs s' = dirs s0 ∧ files s' = files s0)
           ∨ (open_error machine ({[ RESULTS_DIR ]} ∪ dirs s0)
                (get_results_header_file name) = Some class_name
              ∧ dirs s' = {[ RESULTS_DIR ]} ∪ dirs s0 ∧ files s' = files s0)
           ∨ (open_error machine ({[ RESULTS_DIR ]} ∪ dirs s0)
                (get_results_header_file name) = None
              ∧ open_error machine ({[ RESULTS_DIR ]} ∪ dirs s0)
                  (get_results_data_file name) = Some class_name
              ∧ dirs s' = {[ RESULTS_DIR ]} ∪ dirs s0
              ∧ ∃ text, files s' = <[get_results_header_file name := text]> (files s0)))).
  { intros s1 Hd Hf Hc.
    unfold mbind at 1, M_bind at 1, open_w at 1. rewrite Hd.
    destruct (open_error machine _ (get_results_header_file name)) as [c|] eqn:Hopen1.
    { intros [= <- <-]. split; [done|]. exists c. split; [done|]. right. left. done. }
    unfold mbind at 1, M_bind at 1. cbn [write files dirs].
    unfold mbind at 1, M_bind at 1. cbn [close dirs].
    unfold mbind at 1, M_bind at 1, open_w. cbn [dirs].
    destruct (open_error machine _ (get_results_data_file name)) as [c|] eqn:Hopen2.
    { intros [= <- <-]. split; [done|]. exists c. split; [done|]. right. right.
      cbn. split_and!; try done. eexists. rewrite insert_insert_eq, Hf. done. }
    discriminate. }
  case_bool_decide as Hin.
  - apply Htail; try done. symmetry. apply subseteq_union_1_L.
    by apply singleton_subseteq_l.
  - destruct (makedirs_error machine RESULTS_DIR) as [c|] eqn:Hmake.
    + intros [= <- <-]. split; [done|]. exists c. split; [done|]. by left.
    + by apply Htail.
Qed.

(** X28.  [DataCollector] cannot be created either because a monitor cannot
    be created or because the file system refuses.  In the first case, which
    happens outside production mode only, nothing has been written and the
    exception tells why: AttributeError when none of the statistics files
    exists, IOEventsNotSupportedException when the line of the statistics
    file is empty, AssertionError when an empty list of events is given, and
    CPUEventsNotSupportedException when PAPI has no counters, does not know
    an event or does not start the events.  In the second case the exception
    is the one of [makedirs] (nothing has been written), of opening the
    header file (the results directory exists, no file has been written) or
    of opening the data file (the header file has been written).  In every
    case no executable was called. *)
Theorem DataCollector_init_failure name cpu_events production s e s' :
  DataCollector_init machine name cpu_events production s = (inr e, s') →
  calls s' = calls s
  ∧ match e with
    | FileError class_name =>
        ((RESULTS_DIR ∉ dirs s) ∧ makedirs_error machine RESULTS_DIR = Some class_name
         ∧ dirs s' = dirs s ∧ files s' = files s)
        ∨ (open_error machine ({[ RESULTS_DIR ]} ∪ dirs s) (get_results_header_file name)
           = Some class_name
           ∧ dirs s' = {[ RESULTS_DIR ]} ∪ dirs s ∧ files s' = files s)
        ∨ (open_error machine ({[ RESULTS_DIR ]} ∪ dirs s) (get_results_header_file name)
           = None
           ∧ open_error machine ({[ RESULTS_DIR ]} ∪ dirs s) (get_results_data_file name)
             = Some class_name
           ∧ dirs s' = {[ RESULTS_DIR ]} ∪ dirs s
           ∧ ∃ text, files s' = <[get_results_header_file name := text]> (files s))
    | _ =>
        production = false
        ∧ dirs s' = dirs s ∧ files s' = files s ∧ open_files s' = open_files s
    end
  ∧ match e with
    | FileError _ => True
    | PyError (AttributeError _) =>
        ∀ file, file ∈ DEFAULT_STAT_FILE_PATHS → isfile machine file = false
    | IOEventsNotSupportedException =>
        ∃ file, find_stat_file machine = Some file
          ∧ stat machine file (stat_reads s) = []
    | PyError AssertionError => cpu_events = Some []
    | CPUEventsNotSupportedException =>
        num_counters machine = 0%nat
        ∨ mapM (papi_event machine) (default DEFAULT_EVENTS cpu_events) = None
        ∨ ∃ events,
            mapM (papi_event machine) (default DEFAULT_EVENTS cpu_events) = Some events
            ∧ start_counters machine events = false
    | PyError _ => False
    end.
Proof.
  destruct production.
  { intros Hrun.
    destruct (init_refused name cpu_events true s [OfTime TimeMonitor_init] s e s' eq_refl
                ltac:(discriminate) Hrun) as (Hcalls & c & -> & Hcases).
    done. }
  pose proof (create_monitors_full cpu_events s) as Hcreate.
  destruct (create_monitors machine cpu_events false s) as [[monitors|e0] s0] eqn:Hc;
    symmetry in Hcreate.
  { intros Hrun.
    assert (Hs0 : dirs s0 = dirs s ∧ files s0 = files s ∧ calls s0 = calls s
                  ∧ header_of monitors ≠ []).
    { destruct (find_stat_file machine); [|discriminate]. cbv zeta in Hcreate.
      repeat match type of Hcreate with
             | (if ?b then _ else _) = _ => destruct b; [discriminate|]
             | match ?o with Some _ => _ | None => _ end = _ =>
                 destruct o; [|discriminate]
             end.
      match type of Hcreate with (if ?b then _ else _) = _ => destruct b; [|discriminate] end.
      injection Hcreate as <- <-. done. }
    destruct Hs0 as (Hd & Hf & Hca & Hh).
    destruct (init_refused name cpu_events false s monitors s0 e s' Hc Hh Hrun)
      as (Hcalls & c & -> & Hcases).
    rewrite Hd, Hf, Hca in *. done. }
  unfold DataCollector_init, mbind at 1, M_bind at 1. rewrite Hc.
  intros [= <- <-].
  destruct (find_stat_file machine) as [file|] eqn:Hfile.
  2:{ injection Hcreate as <- <-. split_and!; try done.
      intros file Hin. unfold find_stat_file, DEFAULT_STAT_FILE_PATHS in Hfile, Hin.
      cbn in Hfile. set_unfold in Hin.
      destruct Hin as [-> | [-> | []]];
        repeat match type of Hfile with context [isfile machine ?f] =>
          destruct (isfile machine f) eqn:? end; done. }
  cbv zeta in Hcreate.
  destruct (length (stat machine file (stat_reads s)) =? 0)%nat eqn:E.
  { injection Hcreate as <- <-. split_and!; try done. exists file. split; [done|].
    apply Nat.eqb_eq in E. by destruct (stat machine file (stat_reads s)). }
  destruct (num_counters machine =? 0)%nat eqn:E'.
  { injection Hcreate as <- <-. split_and!; try done. left. by apply Nat.eqb_eq. }
  case_bool_decide as Hempty.
  { injection Hcreate as <- <-. split_and!; done. }
  destruct (mapM _ _) as [events|] eqn:Hevents.
  2:{ injection Hcreate as <- <-. split_and!; try done. right. by left. }
  destruct (start_counters machine events) eqn:Hstart; [discriminate|].
  injection Hcreate as <- <-. split_and!; try done. right. right. by exists events.
Qed.

End Facts.

Lemma execute_probe_production_witness :
  ∃ s',
    execute_probe plain_machine (add_probe "p" 7%nat (ProbeMonitor_init true)) "p" 1 2 None
      State_init
    = (inl 50, s')
    ∧ calls s' = [7%nat; 7%nat; 7%nat]
    ∧ files s' !! "./probes/p.data" = Some (rows [[20; 30; 10]; [40; 50; 10]]).
Proof.
  destruct (execute_probe_production plain_machine
              (add_probe "p" 7%nat (ProbeMonitor_init true)) "p" 1 2 None 7%nat State_init
              eq_refl eq_refl (lookup_insert_eq _ _ _))
    as (s' & Hrun & Hcalls & _ & Hdata & _).
  { split_and!; [by right | by vm_compute | by vm_compute]. }
  exists s'. split_and!; [exact Hrun | exact Hcalls | exact Hdata].
Defined.

Lemma execute_probe_unknown_witness :
  ∃ s',
    execute_probe plain_machine (ProbeMonitor_init true) "p" 1 2 None
      {| clock_reads := 0; stat_reads := 0; counter_reads := 0; dirs := ∅;
         files := {[ "./probes/p.data" := "1;2;1" ]}; open_files := []; calls := [] |}
    = (inr (PyError (KeyError "p")), s')
    ∧ files s' !! "./probes/p.data" = Some "".
Proof.
  destruct (execute_probe_unknown plain_machine (ProbeMonitor_init true) "p" 1 2 None
              {| clock_reads := 0; stat_reads := 0; counter_reads := 0; dirs := ∅;
                 files := {[ "./probes/p.data" := "1;2;1" ]}; open_files := [];
                 calls := [] |}
              eq_refl eq_refl (lookup_empty _))
    as (s' & Hrun & _ & _ & _ & Hdata & _).
  { split_and!; [by right | by vm_compute | by vm_compute]. }
  exists s'. split; [exact Hrun | exact Hdata].
Defined.

Lemma execute_probe_many_io_stats_witness :
  ∃ s',
    execute_probe wide_machine (add_probe "p" 7%nat (ProbeMonitor_init false)) "p" 0 1 None
      State_init
    = (inr (PyError AssertionError), s')
    ∧ calls s' = [7%nat].
Proof.
  destruct (execute_probe_many_io_stats wide_machine
              (add_probe "p" 7%nat (ProbeMonitor_init false)) "p" 0 1 None 7%nat
              "/sys/block/sda/stat" 17%nat [12%nat; 12%nat; 11%nat; 11%nat] State_init)
    as (s' & Hrun & Hcalls & _).
  - reflexivity.
  - reflexivity.
  - apply lookup_insert_eq.
  - split_and!; [by right | by vm_compute | by vm_compute].
  - reflexivity.
  - reflexivity.
  - intros n. apply repeat_length.
  - unfold DEFAULT_FEATURES. cbn [length]. lia.
  - discriminate.
  - discriminate.
  - reflexivity.
  - reflexivity.
  - intros n. apply repeat_length.
  - exists s'. split; [exact Hrun | exact Hcalls].
Defined.

Lemma DataCollector_init_failure_witness :
  fst (DataCollector_init plain_machine "a/b" None true State_init)
  = inr (FileError "FileNotFoundError")
  ∧ files (snd (DataCollector_init plain_machine "a/b" None true State_init)) = ∅
  ∧ RESULTS_DIR ∈ dirs (snd (DataCollector_init plain_machine "a/b" None true State_init)).
Proof.
  assert (Hrun : DataCollector_init plain_machine "a/b" None true State_init
                 = (inr (FileError "FileNotFoundError"),
                    snd (DataCollector_init plain_machine "a/b" None true State_init)))
    by (by vm_compute).
  destruct (DataCollector_init_failure plain_machine "a/b" None true State_init _ _ Hrun)
    as (_ & [(_ & Hmake & _) | [(_ & Hdirs & Hfiles) | (Hopen & _)]] & _).
  - discriminate Hmake.
  - split_and!; [by rewrite Hrun | exact Hfiles |].
    rewrite Hdirs. apply elem_of_union. left. by apply elem_of_singleton.
  - vm_compute in Hopen. discriminate Hopen.
Defined.

End ProbeMonitorFacts.

(** * More on tasks/middleware.py: repeated updates *)

Module TaskRuns.
Import KnowledgeModel Tasks.

(** X29.  A successful [FinalizeInstanceTask.update_model] can be repeated:
    run again on its result it succeeds and changes nothing.  It removes no
    instance from the actual state and lowers the phase of none, and the
    instance filed under the id of the component is in phase FINALIZING or
    a later one afterwards. *)
Theorem update_model_repeated t k k' :
  update_model t k = Ok k' →
  update_model t k' = Ok k'
  ∧ (∀ app component instance p,
       phase_of k app component instance = Some p →
       ∃ p', phase_of k' app component instance = Some p'
         ∧ CompinPhase_value p <= CompinPhase_value p')
  ∧ ∃ p', phase_of k' (comp_application_name (_component t)) (comp_name (_component t))
            (comp_id (_component t)) = Some p'
      ∧ CompinPhase_value FINALIZING <= CompinPhase_value p'.
Proof.
  intros Hrun. pose proof (TasksFacts.update_model_frame t k k' Hrun) as [Hindex Hframe].
  unfold update_model in Hrun |- *. rewrite Hindex.
  unfold phase_of, lookup_by_instance_id. rewrite Hindex.
  destruct (get_compin (actual_state k) (comp_application_name (_component t))
              (comp_name (_component t)) (comp_id (_component t))) as [l0|] eqn:Hg;
    [|discriminate].
  destruct (objects k !! l0) as [c0|] eqn:Hc0; [|discriminate].
  assert (Hafter : ∃ c', objects k' !! l0 = Some c'
            ∧ CompinPhase_value FINALIZING <= CompinPhase_value (compin_phase c')).
  { destruct (_ <? _) eqn:Hlt; injection Hrun as <-.
    - cbn [objects]. rewrite lookup_insert_eq. eexists. split; [done|]. by destruct c0.
    - exists c0. split; [done|]. by apply Z.ltb_ge in Hlt. }
  destruct Hafter as (c' & Hc' & Hphase).
  split_and!.
  - rewrite Hc'. by replace (_ <? _) with false by (symmetry; apply Z.ltb_ge; lia).
  - intros app component instance p Hp.
    destruct (get_compin (actual_state k) app component instance) as [l|]; [|done].
    cbn in Hp |- *. destruct (objects k !! l) as [c|] eqn:Hc; [|done].
    destruct (Hframe l c Hc) as (c1 & -> & Hle & _). injection Hp as <-.
    by exists (compin_phase c1).
  - exists (compin_phase c'). cbn. by rewrite Hc'.
Qed.

Lemma update_model_repeated_witness :
  ∃ k', update_model finalize_inst_1 two_instances = Ok k'
    ∧ update_model finalize_inst_1 k' = Ok k'.
Proof.
  destruct (update_model finalize_inst_1 two_instances) as [k'|e] eqn:E;
    [|vm_compute in E; discriminate].
  exists k'. split; [reflexivity|].
  exact (proj1 (update_model_repeated finalize_inst_1 two_instances k' E)).
Defined.

End TaskRuns.

